(** * distfs FUSE driver: the operation adapter of [fuse-operations.cpp]
      and the JNI wrapper of [java.cpp], as a shallow embedding.

    C integers are modelled as [Z] with the conversions written out, native
    buffers as functions from offsets to bytes, Java byte arrays as a length
    with such a function.  The Java virtual machine, the remote file system
    behind it, the pthread mutex and the C library's [fopen] are an abstract
    world [W] with one function per primitive the code calls: every theorem
    quantifies over all such worlds. *)

From Stdlib Require Import ZArith List String Ascii Bool Lia.
From Stdlib Require Import Strings.Byte.
Import ListNotations.
Local Open Scope string_scope.
Local Open Scope Z_scope.

(** ** Platform constants (errno.h, fcntl.h, unistd.h, sys/stat.h, limits.h)

    The headers are not part of the repository; the values are those of
    Linux on x86-64. *)

Definition SUCCESS : Z := 0.

Definition EPERM : Z := 1.
Definition ENOENT : Z := 2.
Definition EIO : Z := 5.
Definition EACCES : Z := 13.
Definition EEXIST : Z := 17.
Definition ENOTDIR : Z := 20.
Definition EISDIR : Z := 21.
Definition EINVAL : Z := 22.
Definition EFBIG : Z := 27.
Definition ENOTSUP : Z := 95.
Definition ECANCELED : Z := 125.

Definition R_OK : Z := 4.
Definition W_OK : Z := 2.
Definition X_OK : Z := 1.

Definition S_IRUSR : Z := 0x100. (* 0400 *)
Definition S_IWUSR : Z := 0x80.  (* 0200 *)
Definition S_IXUSR : Z := 0x40.  (* 0100 *)
Definition S_IFMT : Z := 0xf000. (* 0170000 *)
Definition S_IFDIR : Z := 0x4000. (* 0040000 *)
Definition S_IFREG : Z := 0x8000. (* 0100000 *)

Definition O_RDONLY : Z := 0.
Definition O_WRONLY : Z := 1.
Definition O_RDWR : Z := 2.
Definition O_EXCL : Z := 0x80. (* 0200 *)

Definition INT_MAX : Z := 2 ^ 31 - 1.
Definition LLONG_MAX : Z := 2 ^ 63 - 1.

(** [size_t] is an unsigned and [off_t] a signed 64-bit integer. *)
Definition size_t_range (n : Z) : Prop := 0 <= n < 2 ^ 64.
Definition off_t_range (n : Z) : Prop := - 2 ^ 63 <= n < 2 ^ 63.
Definition mode_t_range (m : Z) : Prop := 0 <= m < 2 ^ 32.

(** Arithmetic on [unsigned long]: the result is taken modulo 2^64. *)
Definition to_size_t (n : Z) : Z := n mod 2 ^ 64.

(** A 64-bit value seen as an [off_t]: the signed integer with the same
    64 bits. *)
Definition to_off_t (n : Z) : Z := (n + 2 ^ 63) mod 2 ^ 64 - 2 ^ 63.

(** ** Command line options *)

(** [PERMISSION_MASK] is [0777]. *)
Definition PERMISSION_MASK : Z := 0x1ff.

Record option_list : Type := {
  hostname : string;
  file_mode : Z;
  directory_mode : Z;
  log_file : option string
}.

(** The initial value of the global [options]: 127.0.0.1, 0644, 0755, NULL. *)
Definition options : option_list :=
  {| hostname := "127.0.0.1";
     file_mode := 0x1a4;
     directory_mode := 0x1ed;
     log_file := None |}.

Section ParseOptions.

(** libfuse's [fuse_opt_parse], called with [option_patterns]: from the
    argument vector and the current option structure it gives its return
    code, the remaining arguments and the structure with the fields the
    patterns --server=%s, --file-mode=%o, --directory-mode=%o and
    --error-log=%s stored. *)
Variable fuse_opt_parse :
  list string -> option_list -> Z * list string * option_list.

Definition parse_options (argv : list string)
  : bool * list string * option_list :=
  let '(code, arguments, parsed) := fuse_opt_parse argv options in
  let result := code =? SUCCESS in
  (result, arguments,
   {| hostname := hostname parsed;
      file_mode := Z.land (file_mode parsed) PERMISSION_MASK;
      directory_mode := Z.land (directory_mode parsed) PERMISSION_MASK;
      log_file := log_file parsed |}).

End ParseOptions.

(** ** Mode policy and path classifier *)

Definition c_true (n : Z) : bool := negb (n =? 0).

Definition dfs_may_access (mode request : Z) : Z :=
  if c_true (Z.land request R_OK) && negb (c_true (Z.land mode S_IRUSR))
  then - EACCES
  else if c_true (Z.land request W_OK) && negb (c_true (Z.land mode S_IWUSR))
  then - EACCES
  else if c_true (Z.land request X_OK) && negb (c_true (Z.land mode S_IXUSR))
  then - EACCES
  else SUCCESS.

Definition dfs_is_root (path : string) : bool := String.eqb path "/".

Definition dfs_listing_allowed (opts : option_list) : bool :=
  dfs_may_access (directory_mode opts) R_OK =? SUCCESS.

Definition dfs_directory_modification_allowed (opts : option_list) : bool :=
  dfs_may_access (directory_mode opts) W_OK =? SUCCESS.

Definition dfs_traversals_allowed (opts : option_list) : bool :=
  dfs_may_access (directory_mode opts) X_OK =? SUCCESS.

(** ** Native memory and Java byte arrays *)

(** A block of native memory seen from a pointer: the byte at each offset. *)
Definition memory : Type := Z -> byte.

Definition in_range (offset length i : Z) : bool :=
  (offset <=? i) && (i <? offset + length).

(** [memset(b + offset, c, length)]. *)
Definition memset (b : memory) (offset : Z) (c : byte) (length : Z) : memory :=
  fun i => if in_range offset length i then c else b i.

(** [memcpy(destination + offset, source, length)]. *)
Definition memcpy (destination : memory) (offset : Z) (source : memory)
    (length : Z) : memory :=
  fun i => if in_range offset length i then source (i - offset)
           else destination i.

Definition byte_of_Z (n : Z) : byte :=
  match Byte.of_N (Z.to_N (n mod 256)) with
  | Some b => b
  | None => x00
  end.

Definition Z_of_byte (b : byte) : Z := Z.of_N (Byte.to_N b).

(** An integer field of [size] bytes at [offset], little-endian. *)
Definition store (b : memory) (offset size value : Z) : memory :=
  fun i => if in_range offset size i
           then byte_of_Z (value / 256 ^ (i - offset))
           else b i.

Fixpoint load_bytes (b : memory) (offset : Z) (count : nat) : Z :=
  match count with
  | O => 0
  | S n => Z_of_byte (b offset) + 256 * load_bytes b (offset + 1) n
  end.

Definition load (b : memory) (offset size : Z) : Z :=
  load_bytes b offset (Z.to_nat size).

(** A C string in native memory. *)
Definition strlen (s : string) : Z := Z.of_nat (String.length s).

Definition buffer_of_string (s : string) : memory :=
  fun i => if i <? 0 then x00
           else nth (Z.to_nat i) (list_byte_of_string s) x00.

(** A Java [byte[]]: its length and its elements. *)
Record jbyteArray : Type := {
  array_length : Z;
  array_elements : memory
}.

(** The arguments the driver passes to Java methods: [[B], [J] and [I]. *)
Inductive jvalue : Type :=
| ArgBytes (a : jbyteArray)
| ArgLong (n : Z)
| ArgInt (n : Z).

(** Conversion of a 64-bit pattern to [jlong], and back to [uint64_t]. *)
Definition to_jlong (n : Z) : Z := (n + 2 ^ 63) mod 2 ^ 64 - 2 ^ 63.

(** ** The platform under the driver

    One function per primitive of the JNI, of pthreads and of the C library:
    each reads and possibly changes the state [W] of everything outside the
    driver (the virtual machine, the naming and storage servers behind
    [fuse.Fuse], the mutex, the file system holding the log). *)

Record platform (W jclass jthrowable : Type) : Type := {
  (* invocation interface *)
  JNI_GetDefaultJavaVMInitArgs : W -> bool * W;
  JNI_CreateJavaVM : W -> bool * W;
  DestroyJavaVM : W -> W;
  AttachCurrentThread : W -> bool * W;
  DetachCurrentThread : W -> W;
  GetEnv : W -> bool;
  (* classes, methods and pending exceptions *)
  FindClass : W -> string -> option jclass;
  IsInstanceOf : W -> jthrowable -> jclass -> bool;
  GetStaticMethodID : W -> jclass -> string -> string -> bool;
  ExceptionOccurred : W -> option jthrowable;
  ExceptionClear : W -> W;
  CallStaticBooleanMethodV : W -> string -> string -> list jvalue -> bool * W;
  CallStaticLongMethodV : W -> string -> string -> list jvalue -> Z * W;
  CallStaticObjectMethodV :
    W -> string -> string -> list jvalue -> jbyteArray * W;
  CallStaticVoidMethodV : W -> string -> string -> list jvalue -> W;
  (* arrays *)
  NewByteArray : W -> Z -> bool * W;
  GetByteArrayElements : W -> bool * W;
  (* the Java side of [java_describe_exception]: the text the PrintWriter
     appended to the file, if every lookup and constructor succeeded *)
  PrintWriter_print : W -> jthrowable -> bool -> option string * W;
  (* the class table of java-classes.h, defined class by class *)
  DefineClasses : W -> bool * W;
  (* pthreads and stdio *)
  pthread_mutex_init : W -> bool * W;
  pthread_mutex_lock : W -> bool * W;
  pthread_mutex_unlock : W -> W;
  fopen : W -> string -> string -> bool * W
}.

Arguments JNI_GetDefaultJavaVMInitArgs {W jclass jthrowable}.
Arguments JNI_CreateJavaVM {W jclass jthrowable}.
Arguments DestroyJavaVM {W jclass jthrowable}.
Arguments AttachCurrentThread {W jclass jthrowable}.
Arguments DetachCurrentThread {W jclass jthrowable}.
Arguments GetEnv {W jclass jthrowable}.
Arguments FindClass {W jclass jthrowable}.
Arguments IsInstanceOf {W jclass jthrowable}.
Arguments GetStaticMethodID {W jclass jthrowable}.
Arguments ExceptionOccurred {W jclass jthrowable}.
Arguments ExceptionClear {W jclass jthrowable}.
Arguments CallStaticBooleanMethodV {W jclass jthrowable}.
Arguments CallStaticLongMethodV {W jclass jthrowable}.
Arguments CallStaticObjectMethodV {W jclass jthrowable}.
Arguments CallStaticVoidMethodV {W jclass jthrowable}.
Arguments NewByteArray {W jclass jthrowable}.
Arguments GetByteArrayElements {W jclass jthrowable}.
Arguments PrintWriter_print {W jclass jthrowable}.
Arguments DefineClasses {W jclass jthrowable}.
Arguments pthread_mutex_init {W jclass jthrowable}.
Arguments pthread_mutex_lock {W jclass jthrowable}.
Arguments pthread_mutex_unlock {W jclass jthrowable}.
Arguments fopen {W jclass jthrowable}.

(** What a handler invocation did, in order. *)
Inductive event : Type :=
| Attached                (* the thread became attached to the machine *)
| AttachFailed
| Detached                (* [DetachCurrentThread] was called *)
| RemoteCall (method signature : string) (arguments : list jvalue)
| MachineDestroyed.

(** The state a handler runs in: the world, the contents of the log file
    (one entry per completed write) and the events so far. *)
Record state (W : Type) : Type := {
  world : W;
  log : list string;
  events : list event
}.

Arguments world {W}.
Arguments log {W}.
Arguments events {W}.

Definition set_world {W} (s : state W) (w : W) : state W :=
  {| world := w; log := log s; events := events s |}.

Definition add_event {W} (s : state W) (e : event) : state W :=
  {| world := world s; log := log s; events := events s ++ [e] |}.

Definition add_log {W} (s : state W) (text : string) : state W :=
  {| world := world s; log := log s ++ [text]; events := events s |}.

(** ** Control flow of a function body

    A statement either falls through with a value or makes the enclosing
    function return: the macros of fuse-operations.cpp expand to [return]
    statements. *)

Inductive flow (R A : Type) : Type :=
| Continue (a : A)
| Return (r : R).

Arguments Continue {R A}.
Arguments Return {R A}.

Definition M (W R A : Type) : Type := state W -> flow R A * state W.

Definition ret {W R A} (a : A) : M W R A := fun s => (Continue a, s).

Definition returns {W R A} (r : R) : M W R A := fun s => (Return r, s).

Definition bind {W R A B} (m : M W R A) (k : A -> M W R B) : M W R B :=
  fun s =>
    match m s with
    | (Continue a, s') => k a s'
    | (Return r, s') => (Return r, s')
    end.

Declare Scope body_scope.
Delimit Scope body_scope with body.
Notation "x <- m ;; k" := (bind m (fun x => k))
  (at level 100, m at next level, right associativity) : body_scope.
Notation "m ;; k" := (bind m (fun _ => k))
  (at level 100, right associativity) : body_scope.

(** The value a function body returns, by [return] or at its last
    statement, and the state it leaves. *)
Definition run {W R} (body : M W R R) (s : state W) : R * state W :=
  match body s with
  | (Continue r, s') => (r, s')
  | (Return r, s') => (r, s')
  end.

Definition newline : string := String (ascii_of_nat 10) EmptyString.

(** ** java.cpp: the JNI wrapper *)

(** What [java_call] leaves behind: its return value ([Called] for [true])
    and the contents of its [result] and [exception] reference parameters.
    The caller's [exception] variable is not initialised in the source; it
    is taken to hold [NULL] on the one path that does not assign it. *)
Inductive call_status (jthrowable T : Type) : Type :=
| CallFailed (exception : option jthrowable)
| Called (result : T) (exception : option jthrowable).

Arguments CallFailed {jthrowable T}.
Arguments Called {jthrowable T}.

Definition CLASS_NAME : string := "fuse/Fuse".

Definition DEFAULT_ERROR : Z := EIO.

(** The exception translation table. *)
Definition exceptions : list (string * Z) :=
  [("java/lang/IllegalArgumentException", EINVAL);
   ("java/lang/IndexOutOfBoundsException", EINVAL);
   ("java/io/FileNotFoundException", ENOENT)].

Section Java.

Context {W jclass jthrowable : Type}.
Variable P : platform W jclass jthrowable.

Definition java_attach {R} : M W R bool := fun s =>
  let (attached, w) := AttachCurrentThread P (world s) in
  (Continue attached,
   add_event (set_world s w) (if attached then Attached else AttachFailed)).

Definition java_detach {R} : M W R unit := fun s =>
  (Continue tt,
   add_event (set_world s (DetachCurrentThread P (world s))) Detached).

(** [JNI_CreateJavaVM] attaches the calling thread as the main thread of
    the new machine, which is why the function detaches before it
    returns. *)
Definition java_initialize {R} : M W R bool := fun s =>
  let (got, w1) := JNI_GetDefaultJavaVMInitArgs P (world s) in
  if negb got then (Continue false, set_world s w1)
  else
    let (created, w2) := JNI_CreateJavaVM P w1 in
    if negb created then (Continue false, set_world s w2)
    else
      match java_detach (R := R) (add_event (set_world s w2) Attached) with
      | (_, s') => (Continue true, s')
      end.

Definition java_record_exception (w : W) : option jthrowable * W :=
  (ExceptionOccurred P w, ExceptionClear P w).

Definition java_load_classes {R} : M W R (option jthrowable) := fun s =>
  let w := world s in
  if negb (GetEnv P w) then (Continue None, s)
  else
    match FindClass P w "java/lang/ClassLoader" with
    | None =>
        let (exception, w1) := java_record_exception w in
        (Continue exception, set_world s w1)
    | Some class_loader =>
        if negb (GetStaticMethodID P w class_loader "getSystemClassLoader"
                   "()Ljava/lang/ClassLoader;")
        then
          let (exception, w1) := java_record_exception w in
          (Continue exception, set_world s w1)
        else
          let (defined, w1) := DefineClasses P w in
          if defined then (Continue None, set_world s w1)
          else
            let (exception, w2) := java_record_exception w1 in
            (Continue exception, set_world s w2)
    end.

Definition java_destroy {R} : M W R unit := fun s =>
  (Continue tt,
   add_event (set_world s (DestroyJavaVM P (world s))) MachineDestroyed).

(** The linear search of [java_error_code] through a table. *)
Fixpoint error_code_search (table : list (string * Z)) (w : W)
    (exception : jthrowable) : Z :=
  match table with
  | [] => DEFAULT_ERROR
  | (name, code) :: rest =>
      match FindClass P w name with
      | None => error_code_search rest w exception
      | Some cls =>
          if IsInstanceOf P w exception cls then code
          else error_code_search rest w exception
      end
  end.

Definition java_error_code (w : W) (exception : jthrowable) : Z :=
  if negb (GetEnv P w) then DEFAULT_ERROR
  else error_code_search exceptions w exception.

Definition java_encode {R} (source : memory) (length : Z)
  : M W R (option jbyteArray) := fun s =>
  let w := world s in
  if negb (GetEnv P w) then (Continue None, s)
  else
    let (allocated, w1) := NewByteArray P w length in
    if negb allocated then (Continue None, set_world s w1)
    else
      let (elements, w2) := GetByteArrayElements P w1 in
      if negb elements then (Continue None, set_world s w2)
      else
        (Continue
           (Some {| array_length := length;
                    array_elements :=
                      memcpy (fun _ => x00) 0 source length |}),
         set_world s w2).

Definition java_encode_string {R} (source : string)
  : M W R (option jbyteArray) :=
  java_encode (buffer_of_string source) (strlen source).

(** [java_decode(byte_array, length, buffer)]: on success the length of
    the array and the buffer after the copy. *)
Definition java_decode {R} (byte_array : jbyteArray) (destination : memory)
  : M W R (option (Z * memory)) := fun s =>
  let w := world s in
  if negb (GetEnv P w) then (Continue None, s)
  else
    let length := array_length byte_array in
    let (elements, w1) := GetByteArrayElements P w in
    if negb elements then (Continue None, set_world s w1)
    else
      (Continue
         (Some (length,
                memcpy destination 0 (array_elements byte_array) length)),
       set_world s w1).

(** [java_decode(byte_array, length)]: a fresh buffer of the array's
    length, filled by the three-argument form. The bytes of the buffer
    before the copy, and those past its end, are taken to be zero. *)
Definition java_decode_new {R} (byte_array : jbyteArray)
  : M W R (option (Z * memory)) := fun s =>
  if negb (GetEnv P (world s)) then (Continue None, s)
  else java_decode byte_array (fun _ => x00) s.

Definition java_call {R T}
    (call_static : W -> string -> string -> list jvalue -> T * W)
    (method signature : string) (arguments : list jvalue)
  : M W R (call_status jthrowable T) := fun s =>
  let w := world s in
  if negb (GetEnv P w) then (Continue (CallFailed None), s)
  else
    match FindClass P w CLASS_NAME with
    | None =>
        let (exception, w1) := java_record_exception w in
        (Continue (CallFailed exception), set_world s w1)
    | Some cls =>
        if negb (GetStaticMethodID P w cls method signature)
        then
          let (exception, w1) := java_record_exception w in
          (Continue (CallFailed exception), set_world s w1)
        else
          let (result, w1) := call_static w method signature arguments in
          let (exception, w2) := java_record_exception w1 in
          (Continue (Called result exception),
           add_event (set_world s w2)
             (RemoteCall method signature arguments))
    end.

Definition call_static_void (w : W) (method signature : string)
    (arguments : list jvalue) : unit * W :=
  (tt, CallStaticVoidMethodV P w method signature arguments).

(** [java_describe_exception(exception, filename, stack_trace)], with the
    Java code it drives taken as one step of the platform. *)
Definition java_describe_exception {R} (exception : jthrowable)
    (filename : string) (stack_trace : bool) : M W R unit := fun s =>
  if negb (GetEnv P (world s)) then (Continue tt, s)
  else
    match java_encode_string (R := R) filename s with
    | (Continue (Some _), s1) =>
        match PrintWriter_print P (world s1) exception stack_trace with
        | (Some text, w2) => (Continue tt, add_log (set_world s1 w2) text)
        | (None, w2) => (Continue tt, set_world s1 w2)
        end
    | (_, s1) => (Continue tt, s1)
    end.

End Java.

(** ** Layout of [struct stat]

    The handler writes three fields and clears [sizeof(status)] bytes,
    [status] being a pointer: the layout says where these lie. *)
Record stat_layout : Type := {
  sizeof_pointer : Z;
  sizeof_stat : Z;
  st_mode_offset : Z;
  st_mode_size : Z;
  st_nlink_offset : Z;
  st_nlink_size : Z;
  st_size_offset : Z;
  st_size_size : Z
}.

(** [struct stat] of Linux on x86-64. *)
Definition linux_x86_64 : stat_layout :=
  {| sizeof_pointer := 8;
     sizeof_stat := 144;
     st_mode_offset := 24;
     st_mode_size := 4;
     st_nlink_offset := 16;
     st_nlink_size := 8;
     st_size_offset := 48;
     st_size_size := 8 |}.

(** The fields of [struct statvfs] the driver is concerned with. *)
Record statvfs : Type := {
  f_bsize : Z;
  f_frsize : Z;
  f_blocks : Z;
  f_bfree : Z;
  f_bavail : Z
}.

(** Conversion of a [size_t] to the [int] a handler returns. *)
Definition to_int (n : Z) : Z := (n + 2 ^ 31) mod 2 ^ 32 - 2 ^ 31.

(** The C string starting at [start] in a buffer, read for at most [fuel]
    bytes. *)
Fixpoint c_string (b : memory) (start : Z) (fuel : nat) : list byte :=
  match fuel with
  | O => []
  | S n =>
      match b start with
      | x00 => []
      | c => c :: c_string b (start + 1) n
      end
  end.

(** ** fuse-operations.cpp: logging *)

Definition CANNOT_INITVM : string := "cannot initialize Java virtual machine.".
Definition CANNOT_ATTACH : string :=
  "cannot attach current thread to Java virtual machine.".
Definition CANNOT_LOAD : string := "cannot load one more Java classes.".
Definition CANNOT_INITFS : string := "cannot initialize filesystem.".
Definition CANNOT_ENCODE (name : string) : string :=
  "cannot to convert " ++ name ++ " to a Java byte array.".
Definition CANNOT_DECODE (name : string) : string :=
  "cannot convert " ++ name ++ " to a native byte buffer.".
Definition CANNOT_CALL (name : string) : string :=
  "cannot call Java fuse.Fuse." ++ name ++ " method.".
Definition CANNOT_DELETE : string := "cannot delete file or directory.".

Section Operations.

Context {W jclass jthrowable : Type}.
Variable P : platform W jclass jthrowable.
(** The global [options], as [parse_options] left it. *)
Variable opts : option_list.
Variable abi : stat_layout.

Definition log_initialize {R} : M W R bool := fun s =>
  match log_file opts with
  | None => (Continue true, s)
  | Some name =>
      let (initialized, w1) := pthread_mutex_init P (world s) in
      if negb initialized then (Continue false, set_world s w1)
      else
        let (opened, w2) := fopen P w1 name "w" in
        if negb opened then (Continue false, set_world s w2)
        else
          (Continue true,
           {| world := w2; log := []; events := events s |})
  end.

Definition log_write_real {R} (message : string) : M W R unit := fun s =>
  match log_file opts with
  | None => (Continue tt, s)
  | Some name =>
      let (locked, w1) := pthread_mutex_lock P (world s) in
      if negb locked then (Continue tt, set_world s w1)
      else
        let (opened, w2) := fopen P w1 name "a" in
        if negb opened
        then (Continue tt, set_world s (pthread_mutex_unlock P w2))
        else
          (Continue tt,
           add_log (set_world s (pthread_mutex_unlock P w2)) message)
  end.

Definition log_exception_real {R} (exception : jthrowable)
    (stack_trace : bool) : M W R unit := fun s =>
  match log_file opts with
  | None => (Continue tt, s)
  | Some name =>
      let (locked, w1) := pthread_mutex_lock P (world s) in
      if negb locked then (Continue tt, set_world s w1)
      else
        match java_describe_exception P (R := R) exception name stack_trace
                (set_world s w1) with
        | (_, s2) =>
            (Continue tt, set_world s2 (pthread_mutex_unlock P (world s2)))
        end
  end.

(** *** The macros *)

Section Macros.

Context {R : Type}.
(** [__func__] of the function the macro is expanded in, and how the
    [int] of a [return] statement combines with the memory the function
    has written through its pointer arguments. *)
Variable func : string.
Variable exit : Z -> R.

Definition log_write (format : string) : M W R unit :=
  log_write_real (func ++ ": " ++ format ++ newline).

Definition log_and_detach : string -> M W R unit := fun format =>
  (log_write_real (func ++ ": " ++ format ++ newline);;
   java_detach P)%body.

Definition log_error_and_return {A} (name : string) (error : Z)
    (format : string) : M W R A :=
  (log_write_real (func ++ ": " ++ name ++ ": " ++ format ++ newline);;
   returns (exit (- error)))%body.

Definition log_error_detach_and_return {A} (name : string) (error : Z)
    (format : string) : M W R A :=
  (log_write_real (func ++ ": " ++ name ++ ": " ++ format ++ newline);;
   java_detach P;;
   returns (exit (- error)))%body.

Definition log_exception_detach_and_return {A} (exception : jthrowable)
  : M W R A := fun s =>
  let error_code := java_error_code P (world s) exception in
  (log_write_real (func ++ ": ");;
   log_exception_real exception false;;
   java_detach P;;
   returns (exit (- error_code)))%body s.

Definition detach_and_return {A} (error : Z) : M W R A :=
  (java_detach P;; returns (exit (- error)))%body.

Definition try_attach : M W R unit :=
  (attached <- java_attach P;;
   if negb attached then log_error_and_return "EIO" EIO CANNOT_ATTACH
   else ret tt)%body.

Definition try_encode (name source : string) : M W R jbyteArray :=
  (result <- java_encode_string P source;;
   match result with
   | None => log_error_detach_and_return "EIO" EIO (CANNOT_ENCODE name)
   | Some array => ret array
   end)%body.

Definition try_call {T}
    (call_static : W -> string -> string -> list jvalue -> T * W)
    (method signature : string) (arguments : list jvalue) : M W R T :=
  (status <- java_call P call_static method signature arguments;;
   match status with
   | CallFailed (Some exception) | Called _ (Some exception) =>
       log_exception_detach_and_return exception
   | CallFailed None =>
       log_error_detach_and_return "EIO" EIO (CANNOT_CALL method)
   | Called result None => ret result
   end)%body.

Definition try_void_call (method signature : string)
    (arguments : list jvalue) : M W R unit :=
  try_call (call_static_void P) method signature arguments.

End Macros.

(** *** The FUSE operations *)

Definition with_status (status : memory) (code : Z) : Z * memory :=
  (code, status).

Definition dfs_getattr (path : string) (status : memory)
  : M W (Z * memory) (Z * memory) :=
  let func := "dfs_getattr" in
  if negb (dfs_is_root path) && negb (dfs_traversals_allowed opts)
  then returns (- EACCES, status)
  else
    (try_attach func (with_status status);;
     java_path <- try_encode func (with_status status) "path" path;;
     directory <- try_call func (with_status status)
                    (CallStaticBooleanMethodV P) "directory" "([B)Z"
                    [ArgBytes java_path];;
     (* memset(status, 0, sizeof(status)) *)
     let status := memset status 0 x00 (sizeof_pointer abi) in
     status <-
       (if directory
        then ret (store status (st_mode_offset abi) (st_mode_size abi)
                    (Z.lor S_IFDIR (directory_mode opts)))
        else
          size <- try_call func (with_status status)
                    (CallStaticLongMethodV P) "size" "([B)J"
                    [ArgBytes java_path];;
          let status := store status (st_mode_offset abi) (st_mode_size abi)
                          (Z.lor S_IFREG (file_mode opts)) in
          ret (store status (st_size_offset abi) (st_size_size abi) size));;
     let status := store status (st_nlink_offset abi) (st_nlink_size abi) 1 in
     detach_and_return (with_status status) SUCCESS)%body.

Definition dfs_mknod (path : string) (mode device : Z) : M W Z Z :=
  let func := "dfs_mknod" in
  if dfs_is_root path then returns (- EEXIST)
  else if negb (dfs_traversals_allowed opts) then returns (- EACCES)
  else if negb (dfs_directory_modification_allowed opts)
  then returns (- EACCES)
  else
    (try_attach func id;;
     java_path <- try_encode func id "path" path;;
     result <- try_call func id (CallStaticBooleanMethodV P)
                 "createFile" "([B)Z" [ArgBytes java_path];;
     java_detach P;;
     if negb result then returns (- EEXIST) else returns SUCCESS)%body.

Definition dfs_mkdir (path : string) (mode : Z) : M W Z Z :=
  let func := "dfs_mkdir" in
  if dfs_is_root path then returns (- EEXIST)
  else if negb (dfs_traversals_allowed opts) then returns (- EACCES)
  else if negb (dfs_directory_modification_allowed opts)
  then returns (- EACCES)
  else
    (try_attach func id;;
     java_path <- try_encode func id "path" path;;
     result <- try_call func id (CallStaticBooleanMethodV P)
                 "createDirectory" "([B)Z" [ArgBytes java_path];;
     java_detach P;;
     if negb result then returns (- EEXIST) else returns SUCCESS)%body.

Definition dfs_delete (path : string) : M W Z Z :=
  let func := "dfs_delete" in
  if dfs_is_root path then returns (- EPERM)
  else if negb (dfs_traversals_allowed opts) then returns (- EACCES)
  else if negb (dfs_directory_modification_allowed opts)
  then returns (- EACCES)
  else
    (try_attach func id;;
     java_path <- try_encode func id "path" path;;
     result <- try_call func id (CallStaticBooleanMethodV P)
                 "delete" "([B)Z" [ArgBytes java_path];;
     if negb result
     then log_error_detach_and_return func id "EPERM" EPERM CANNOT_DELETE
     else detach_and_return id SUCCESS)%body.

Definition dfs_truncate (path : string) (new_size : Z) : M W Z Z :=
  let func := "dfs_truncate" in
  if negb (new_size =? 0) then returns (- ENOTSUP)
  else if dfs_is_root path then returns (- EISDIR)
  else if negb (dfs_traversals_allowed opts) then returns (- EACCES)
  else
    (try_attach func id;;
     java_path <- try_encode func id "path" path;;
     directory <- try_call func id (CallStaticBooleanMethodV P)
                    "directory" "([B)Z" [ArgBytes java_path];;
     if directory then detach_and_return id EISDIR
     else if negb (dfs_may_access (file_mode opts) W_OK =? SUCCESS)
     then detach_and_return id EACCES
     else
       result <- try_call func id (CallStaticBooleanMethodV P)
                   "delete" "([B)Z" [ArgBytes java_path];;
       if negb result
       then log_error_detach_and_return func id "EPERM" EPERM CANNOT_DELETE
       else
         result <- try_call func id (CallStaticBooleanMethodV P)
                     "createFile" "([B)Z" [ArgBytes java_path];;
         java_detach P;;
         if negb result then returns (- ECANCELED)
         else returns SUCCESS)%body.

(** [file_info] is its [flags] on entry and its [fh], which the function
    may set. *)
Definition with_fh (fh : Z) (code : Z) : Z * Z := (code, fh).

Definition dfs_open (path : string) (flags fh : Z) : M W (Z * Z) (Z * Z) :=
  let func := "dfs_open" in
  if dfs_is_root path then returns (- ENOENT, fh)
  else if negb (dfs_traversals_allowed opts) then returns (- EACCES, fh)
  else
    (try_attach func (with_fh fh);;
     java_path <- try_encode func (with_fh fh) "path" path;;
     size <- try_call func (with_fh fh) (CallStaticLongMethodV P)
               "size" "([B)J" [ArgBytes java_path];;
     java_detach P;;
     if (Z.land flags O_RDWR =? O_RDWR)
        && negb (dfs_may_access (file_mode opts) (Z.lor R_OK W_OK)
                 =? SUCCESS)
     then returns (- EACCES, fh)
     else if (Z.land flags O_RDONLY =? O_RDONLY)
             && negb (dfs_may_access (file_mode opts) R_OK =? SUCCESS)
     then returns (- EACCES, fh)
     else if (Z.land flags O_WRONLY =? O_WRONLY)
             && negb (dfs_may_access (file_mode opts) W_OK =? SUCCESS)
     then returns (- EACCES, fh)
     else if negb (Z.land flags O_EXCL =? 0) then returns (- ENOTSUP, fh)
     else returns (SUCCESS, to_size_t size))%body.

(** [offset] is an [off_t]: whatever 64-bit value the caller holds, the
    function sees the signed integer with those bits.  [buffer] is the
    caller's block of [length] bytes seen from its first byte; the offsets
    from [length] on are the memory behind it, which the copy of
    [java_decode] and the final [memset] reach when the array received is
    longer than [length] (the source makes no test, and [length -
    received_length] is then taken modulo 2^64): what the process does
    after such writes is not described here. *)
Definition dfs_read (path : string) (buffer : memory) (length offset fh : Z)
  : M W (Z * memory) (Z * memory) :=
  let func := "dfs_read" in
  let offset := to_off_t offset in
  let java_length := if INT_MAX <? length then INT_MAX else length in
  if LLONG_MAX <? offset
  then returns (0, memset buffer 0 x00 length)
  else
    let java_offset := offset in
    (try_attach func (with_status buffer);;
     java_path <- try_encode func (with_status buffer) "path" path;;
     received_buffer <-
       try_call func (with_status buffer) (CallStaticObjectMethodV P)
         "read" "([BJIJ)[B"
         [ArgBytes java_path; ArgLong java_offset; ArgInt java_length;
          ArgLong (to_jlong fh)];;
     decoded <- java_decode P received_buffer buffer;;
     match decoded with
     | None =>
         log_error_detach_and_return func (with_status buffer) "EIO" EIO
           (CANNOT_DECODE "received_buffer")
     | Some (received_length, buffer) =>
         let buffer :=
           memset buffer received_length x00
             (to_size_t (length - received_length)) in
         java_detach P;;
         returns (to_int received_length, buffer)
     end)%body.

(** [offset] is an [off_t], as in [dfs_read]; [offset + length] is computed
    in [unsigned long] and compared with [LLONG_MAX] as unsigned. *)
Definition dfs_write (path : string) (buffer : memory)
    (length offset fh : Z) : M W Z Z :=
  let func := "dfs_write" in
  let offset := to_off_t offset in
  let length := if INT_MAX <? length then INT_MAX else length in
  if LLONG_MAX <? offset then returns (- EFBIG)
  else if LLONG_MAX <? to_size_t (offset + length) then returns (- EFBIG)
  else
    (try_attach func id;;
     java_path <- try_encode func id "path" path;;
     java_buffer <- java_encode P buffer length;;
     match java_buffer with
     | None =>
         log_error_detach_and_return func id "EIO" EIO
           (CANNOT_ENCODE "buffer")
     | Some java_buffer =>
         try_void_call func id "write" "([BJ[B)V"
           [ArgBytes java_path; ArgLong offset; ArgBytes java_buffer];;
         java_detach P;;
         returns (to_int length)
     end)%body.

Definition dfs_statfs (path : string) (statistics : statvfs)
  : M W (Z * statvfs) (Z * statvfs) :=
  returns (SUCCESS,
           {| f_bsize := 0x100000;
              f_frsize := f_frsize statistics;
              f_blocks := 0x100000;
              f_bfree := 0x100000;
              f_bavail := 0x100000 |}).

Definition dfs_flush (path : string) : M W Z Z := returns SUCCESS.

Definition dfs_release (path : string) : M W Z Z := returns SUCCESS.

Definition dfs_fsync (path : string) (datasync : Z) : M W Z Z :=
  returns SUCCESS.

Definition dfs_opendir (path : string) : M W Z Z :=
  let func := "dfs_opendir" in
  if negb (dfs_is_root path) && negb (dfs_traversals_allowed opts)
  then returns (- EACCES)
  else
    (try_attach func id;;
     java_path <- try_encode func id "path" path;;
     result <- try_call func id (CallStaticBooleanMethodV P)
                 "directory" "([B)Z" [ArgBytes java_path];;
     java_detach P;;
     if negb result then returns (- ENOTDIR)
     else if negb (dfs_listing_allowed opts) then returns (- EACCES)
     else returns SUCCESS)%body.

(** The loop of [dfs_readdir] over the child list: each round passes the
    name at [list_offset] to [fill] and moves past its terminator, so
    [length] rounds are enough. *)
Fixpoint fill_children (rounds : nat) (fill : W -> string -> Z * W)
    (children : memory) (length list_offset : Z) (w : W) : W :=
  match rounds with
  | O => w
  | S n =>
      if list_offset <? length then
        let name :=
          string_of_list_byte
            (c_string children list_offset
               (Z.to_nat (length - list_offset))) in
        let (full, w') := fill w name in
        if full =? 1 then w'
        else fill_children n fill children length
               (list_offset + strlen name + 1) w'
      else w
  end.

(** The directory buffer [fill] writes to belongs to libfuse and is part
    of the world. *)
Definition dfs_readdir (path : string) (fill : W -> string -> Z * W)
    (offset : Z) : M W Z Z :=
  let func := "dfs_readdir" in
  (try_attach func id;;
   java_path <- try_encode func id "path" path;;
   encoded_children <- try_call func id (CallStaticObjectMethodV P)
                         "list" "([B)[B" [ArgBytes java_path];;
   decoded <- java_decode_new P encoded_children;;
   match decoded with
   | None =>
       log_error_detach_and_return func id "EIO" EIO
         (CANNOT_DECODE "encoded_children")
   | Some (length, children) =>
       (fun s =>
          (Continue tt,
           set_world s
             (fill_children (Z.to_nat length) fill children length 0
                (world s))));;
       detach_and_return id SUCCESS
   end)%body.

Definition dfs_releasedir (path : string) : M W Z Z := returns SUCCESS.

Definition dfs_fsyncdir (path : string) (datasync : Z) : M W Z Z :=
  returns SUCCESS.

Definition dfs_access (path : string) (mode : Z) : M W Z Z :=
  let func := "dfs_access" in
  if dfs_is_root path
  then returns (dfs_may_access (directory_mode opts) mode)
  else if negb (dfs_traversals_allowed opts) then returns (- EACCES)
  else
    (try_attach func id;;
     java_path <- try_encode func id "path" path;;
     directory <- try_call func id (CallStaticBooleanMethodV P)
                    "directory" "([B)Z" [ArgBytes java_path];;
     java_detach P;;
     if directory
     then returns (dfs_may_access (directory_mode opts) mode)
     else returns (dfs_may_access (file_mode opts) mode))%body.

(** [dfs_init] always returns [NULL]. *)
Definition dfs_init : M W unit unit :=
  let func := "dfs_init" in
  (logging <- log_initialize;;
   if negb logging then returns tt
   else
     machine <- java_initialize P;;
     if negb machine then (log_write func CANNOT_INITVM;; returns tt)
     else
       attached <- java_attach P;;
       if negb attached then (log_write func CANNOT_ATTACH;; returns tt)
       else
         exception <- java_load_classes P;;
         match exception with
         | Some exception =>
             log_exception_real exception true;;
             log_and_detach func CANNOT_LOAD;;
             returns tt
         | None =>
             java_hostname <- java_encode_string P (hostname opts);;
             match java_hostname with
             | None =>
                 log_and_detach func (CANNOT_ENCODE "hostname");;
                 returns tt
             | Some java_hostname =>
                 status <- java_call P (call_static_void P)
                             "initialize" "([B)V" [ArgBytes java_hostname];;
                 match status with
                 | CallFailed (Some exception)
                 | Called _ (Some exception) =>
                     log_exception_real exception true;;
                     log_and_detach func CANNOT_INITFS;;
                     returns tt
                 | CallFailed None =>
                     log_and_detach func (CANNOT_CALL "initialize");;
                     returns tt
                 | Called _ None => java_detach P;; returns tt
                 end
             end
         end)%body.

Definition dfs_destroy : M W unit unit :=
  (java_destroy P;; returns tt)%body.

(** *** The operation table

    One constructor per member [set_operations] fills in that returns an
    [int], with the arguments libfuse passes. *)
Inductive request : Type :=
| Getattr (path : string) (status : memory)
| Mknod (path : string) (mode device : Z)
| Mkdir (path : string) (mode : Z)
| Unlink (path : string)
| Rmdir (path : string)
| Truncate (path : string) (new_size : Z)
| Open (path : string) (flags fh : Z)
| Read (path : string) (data : memory) (length offset fh : Z)
| Write (path : string) (data : memory) (length offset fh : Z)
| Statfs (path : string) (statistics : statvfs)
| Flush (path : string)
| Release (path : string)
| Fsync (path : string) (datasync : Z)
| Opendir (path : string)
| Readdir (path : string) (fill : W -> string -> Z * W) (offset : Z)
| Releasedir (path : string)
| Fsyncdir (path : string) (datasync : Z)
| Access (path : string) (mode : Z).

Definition request_path (r : request) : string :=
  match r with
  | Getattr path _ | Mknod path _ _ | Mkdir path _ | Unlink path
  | Rmdir path | Truncate path _ | Open path _ _ | Read path _ _ _ _
  | Write path _ _ _ _ | Statfs path _ | Flush path | Release path
  | Fsync path _ | Opendir path | Readdir path _ _ | Releasedir path
  | Fsyncdir path _ | Access path _ => path
  end.

(** The [int] the operation returns and the state it leaves. *)
Definition handle (r : request) (s : state W) : Z * state W :=
  match r with
  | Getattr path status =>
      let (result, s') := run (dfs_getattr path status) s in
      (fst result, s')
  | Mknod path mode device => run (dfs_mknod path mode device) s
  | Mkdir path mode => run (dfs_mkdir path mode) s
  | Unlink path => run (dfs_delete path) s
  | Rmdir path => run (dfs_delete path) s
  | Truncate path new_size => run (dfs_truncate path new_size) s
  | Open path flags fh =>
      let (result, s') := run (dfs_open path flags fh) s in
      (fst result, s')
  | Read path data length offset fh =>
      let (result, s') := run (dfs_read path data length offset fh) s in
      (fst result, s')
  | Write path data length offset fh =>
      run (dfs_write path data length offset fh) s
  | Statfs path statistics =>
      let (result, s') := run (dfs_statfs path statistics) s in
      (fst result, s')
  | Flush path => run (dfs_flush path) s
  | Release path => run (dfs_release path) s
  | Fsync path datasync => run (dfs_fsync path datasync) s
  | Opendir path => run (dfs_opendir path) s
  | Readdir path fill offset => run (dfs_readdir path fill offset) s
  | Releasedir path => run (dfs_releasedir path) s
  | Fsyncdir path datasync => run (dfs_fsyncdir path datasync) s
  | Access path mode => run (dfs_access path mode) s
  end.

(** A sequence of operations, one after the other on the same thread. *)
Fixpoint handle_all (rs : list request) (s : state W)
  : list Z * state W :=
  match rs with
  | [] => ([], s)
  | r :: rest =>
      let (code, s1) := handle r s in
      let (codes, s2) := handle_all rest s1 in
      (code :: codes, s2)
  end.

End Operations.

(** ** Observations on event traces *)

Definition is_attached (e : event) : bool :=
  match e with Attached => true | _ => false end.

Definition is_detached (e : event) : bool :=
  match e with Detached => true | _ => false end.

Definition is_remote_call (e : event) : bool :=
  match e with RemoteCall _ _ _ => true | _ => false end.

(** Successful attachments, detach calls and remote calls in a trace. *)
Definition attach_count (es : list event) : nat :=
  List.length (filter is_attached es).

Definition detach_count (es : list event) : nat :=
  List.length (filter is_detached es).

Definition remote_call_count (es : list event) : nat :=
  List.length (filter is_remote_call es).

(** Whether the thread is attached after a trace, given whether it was
    before. *)
Fixpoint thread_attached (before : bool) (es : list event) : bool :=
  match es with
  | [] => before
  | Attached :: rest => thread_attached true rest
  | Detached :: rest => thread_attached false rest
  | _ :: rest => thread_attached before rest
  end.

(** The events an invocation added to the trace of the state it started
    in. *)
Definition new_events {W} (s s' : state W) : list event :=
  skipn (List.length (events s)) (events s').

(** ** A scripted platform

    A virtual machine that always attaches, finds every class and method,
    and answers each [fuse.Fuse] method from a script.  An exception is
    represented by the names of its class and of its superclasses. *)
Module Mock.

Definition jclass : Type := string.
Definition jthrowable : Type := list string.

Inductive reply (T : Type) : Type :=
| Value (v : T)
| Throws (e : jthrowable).

Arguments Value {T}.
Arguments Throws {T}.

(** What each method answers for a path. *)
Record remote : Type := {
  boolean_method : string -> string -> reply bool;
  long_method : string -> string -> reply Z;
  object_method : string -> string -> reply (list byte);
  void_method : string -> string -> option jthrowable
}.

(** The pending exception and the names libfuse's filler has received. *)
Record machine_state : Type := {
  pending : option jthrowable;
  filled : list string
}.

Definition raise (w : machine_state) (e : option jthrowable) : machine_state :=
  {| pending := e; filled := filled w |}.

Definition array_bytes (a : jbyteArray) : list byte :=
  map (fun i => array_elements a (Z.of_nat i))
    (seq 0 (Z.to_nat (array_length a))).

Definition array_of_bytes (l : list byte) : jbyteArray :=
  {| array_length := Z.of_nat (List.length l);
     array_elements :=
       fun i => if i <? 0 then x00 else nth (Z.to_nat i) l x00 |}.

Definition path_of (arguments : list jvalue) : string :=
  match arguments with
  | ArgBytes a :: _ => string_of_list_byte (array_bytes a)
  | _ => ""
  end.

Definition answer {T} (default : T) (r : reply T) (w : machine_state) : T * machine_state :=
  match r with
  | Value v => (v, raise w None)
  | Throws e => (default, raise w (Some e))
  end.

Definition machine (r : remote) : platform machine_state jclass jthrowable :=
  {| JNI_GetDefaultJavaVMInitArgs := fun w => (true, w);
     JNI_CreateJavaVM := fun w => (true, w);
     DestroyJavaVM := fun w => w;
     AttachCurrentThread := fun w => (true, w);
     DetachCurrentThread := fun w => w;
     GetEnv := fun _ => true;
     FindClass := fun _ name => Some name;
     IsInstanceOf := fun _ e cls => existsb (String.eqb cls) e;
     GetStaticMethodID := fun _ _ _ _ => true;
     ExceptionOccurred := pending;
     ExceptionClear := fun w => raise w None;
     CallStaticBooleanMethodV := fun w method _ arguments =>
       answer false (boolean_method r method (path_of arguments)) w;
     CallStaticLongMethodV := fun w method _ arguments =>
       answer 0 (long_method r method (path_of arguments)) w;
     CallStaticObjectMethodV := fun w method _ arguments =>
       match object_method r method (path_of arguments) with
       | Value l => (array_of_bytes l, raise w None)
       | Throws e => (array_of_bytes [], raise w (Some e))
       end;
     CallStaticVoidMethodV := fun w method _ arguments =>
       raise w (void_method r method (path_of arguments));
     NewByteArray := fun w _ => (true, w);
     GetByteArrayElements := fun w => (true, w);
     PrintWriter_print := fun w e _ =>
       (Some (String.concat ", " e ++ newline), w);
     DefineClasses := fun w => (true, w);
     pthread_mutex_init := fun w => (true, w);
     pthread_mutex_lock := fun w => (true, w);
     pthread_mutex_unlock := fun w => w;
     fopen := fun w _ _ => (true, w) |}.

Definition FileNotFoundException : jthrowable :=
  ["java/io/FileNotFoundException"; "java/io/IOException";
   "java/lang/Exception"; "java/lang/Throwable"].

(** A remote side with the directories / and /d and the file /a.txt of
    ten bytes, which refuses to delete anything. *)
Definition sample : remote :=
  {| boolean_method := fun method path =>
       if String.eqb method "directory" then
         if String.eqb path "/" || String.eqb path "/d" then Value true
         else if String.eqb path "/a.txt" then Value false
         else Throws FileNotFoundException
       else if String.eqb method "delete" then Value false
       else Value true;
     long_method := fun method path =>
       if String.eqb path "/a.txt" then Value 10
       else Throws FileNotFoundException;
     object_method := fun method path =>
       if String.eqb method "read" then Value ["h"%byte; "i"%byte]
       else Value ["a"%byte; "."%byte; "t"%byte; "x"%byte; "t"%byte; x00];
     void_method := fun _ _ => None |}.

Definition start : state machine_state :=
  {| world := {| pending := None; filled := [] |};
     log := [];
     events := [] |}.

(** libfuse's filler, which here always has room. *)
Definition fill (w : machine_state) (name : string) : Z * machine_state :=
  (0, {| pending := pending w; filled := filled w ++ [name] |}).

(** Options with a log file, and with a directory mode lacking execute. *)
Definition logging : option_list :=
  {| hostname := "127.0.0.1"; file_mode := 0x1a4; directory_mode := 0x1ed;
     log_file := Some "/tmp/distfs.log" |}.

Definition no_traversal : option_list :=
  {| hostname := "127.0.0.1"; file_mode := 0x1a4; directory_mode := 0x180;
     log_file := None |}.

Definition write_only_files : option_list :=
  {| hostname := "127.0.0.1"; file_mode := 0x80; directory_mode := 0x1ed;
     log_file := None |}.

(** Native memory with every byte set. *)
Definition dirty : memory := fun _ => xff.

End Mock.

(** ** Predicates used by the properties *)

(** The operations that check traversal before anything else that can make
    them return: [dfs_truncate] checks the new size first. *)
Definition checks_traversal_first {W} (r : @request W) : bool :=
  match r with
  | Getattr _ _ | Mknod _ _ _ | Mkdir _ _ | Unlink _ | Rmdir _
  | Open _ _ _ | Opendir _ | Access _ _ => true
  | Truncate _ new_size => new_size =? 0
  | _ => false
  end.

(** Whether the machine finds the class of that name and the exception is
    an instance of it (of the class itself or of a subclass). *)
Definition instance_of {W jclass jthrowable}
    (P : platform W jclass jthrowable) (w : W) (exception : jthrowable)
    (name : string) : bool :=
  match FindClass P w name with
  | Some cls => IsInstanceOf P w exception cls
  | None => false
  end.

(** The first entry of a table the exception is an instance of. *)
Definition first_match {W jclass jthrowable}
    (P : platform W jclass jthrowable) (w : W) (exception : jthrowable)
    (table : list (string * Z)) : option (string * Z) :=
  find (fun entry => instance_of P w exception (fst entry)) table.

Definition bool_count (b : bool) : nat := if b then 1%nat else 0%nat.

(** A trace that takes the thread from [before] to [after], with as many
    detach calls as attachments, counting the attachment held before and
    the one held after. *)
Definition balance (before after : bool) (es : list event) : Prop :=
  (bool_count before + attach_count es
   = bool_count after + detach_count es)%nat
  /\ thread_attached before es = after.

(** A piece of a function body, entered with the thread in state [before]:
    if it falls through the thread is in state [after], if it returns the
    thread is detached, and in both cases the trace it adds is balanced. *)
Definition bracketed {W R A} (before : bool) (after : A -> bool)
    (m : M W R A) : Prop :=
  forall s, exists es,
    events (snd (m s)) = (events s ++ es)%list
    /\ match fst (m s) with
       | Continue a => balance before (after a) es
       | Return _ => balance before false es
       end.

(** The results with which an operation may have written to the log, and
    the ordinary negative results with which it never has. *)
Definition logged_codes : list Z := [- EIO; - EINVAL; - ENOENT; - EPERM].

Definition silent_codes : list Z := [- EACCES; - EEXIST; - EISDIR; - ENOTDIR].

(** A piece of a function body that leaves the log as it is unless it makes
    the function return one of [logged_codes]. *)
Definition quiet {W R A} (code : R -> Z) (m : M W R A) : Prop :=
  forall s,
    match m s with
    | (Continue _, s') => log s' = log s
    | (Return r, s') => log s' = log s \/ In (code r) logged_codes
    end.

(** A step that always falls through and writes neither to the log nor to
    the trace. *)
Definition silent {W R A} (m : M W R A) : Prop :=
  forall s, exists a s',
    m s = (Continue a, s') /\ log s' = log s /\ events s' = events s.

(** ** Definitions for the further properties *)

(** The operations that change a directory: they check that directories
    may be modified before they attach. *)
Definition modifies_directory {W} (r : @request W) : bool :=
  match r with
  | Mknod _ _ _ | Mkdir _ _ | Unlink _ | Rmdir _ => true
  | _ => false
  end.

(** Options whose directory mode, 0555, lacks write. *)
Definition read_only_directories : option_list :=
  {| hostname := "127.0.0.1"; file_mode := 0x1a4; directory_mode := 0x16d;
     log_file := None |}.

(** Options whose directory mode, 0355, lacks read. *)
Definition unlistable_directories : option_list :=
  {| hostname := "127.0.0.1"; file_mode := 0x1a4; directory_mode := 0xed;
     log_file := None |}.

(** A layout [dfs_getattr] can fill: the fields it assigns have the sizes
    of [mode_t] (at least four bytes), [nlink_t] and [off_t] (eight bytes
    for the latter) and do not overlap. *)
Definition fields_apart (abi : stat_layout) : Prop :=
  4 <= st_mode_size abi
  /\ 1 <= st_nlink_size abi
  /\ st_size_size abi = 8
  /\ (st_mode_offset abi + st_mode_size abi <= st_nlink_offset abi
      \/ st_nlink_offset abi + st_nlink_size abi <= st_mode_offset abi)
  /\ (st_size_offset abi + st_size_size abi <= st_nlink_offset abi
      \/ st_nlink_offset abi + st_nlink_size abi <= st_size_offset abi)
  /\ (st_size_offset abi + st_size_size abi <= st_mode_offset abi
      \/ st_mode_offset abi + st_mode_size abi <= st_size_offset abi).

(** Options whose file mode, 0444, lacks write. *)
Definition read_only_files : option_list :=
  {| hostname := "127.0.0.1"; file_mode := 0x124; directory_mode := 0x1ed;
     log_file := None |}.

(** How the state moves while a body runs: the world changes, an event
    that [okE] admits is added to the trace, an entry that [okL] admits is
    appended to the log. *)
Inductive reach {W} (okE : event -> Prop) (okL : string -> Prop)
  : state W -> state W -> Prop :=
| reach_here (s : state W) : reach okE okL s s
| reach_world (s s' : state W) (w : W) :
    reach okE okL s s' -> reach okE okL s (set_world s' w)
| reach_event (s s' : state W) (e : event) :
    reach okE okL s s' -> okE e -> reach okE okL s (add_event s' e)
| reach_log (s s' : state W) (text : string) :
    reach okE okL s s' -> okL text -> reach okE okL s (add_log s' text).

(** A piece of a body that moves the state only in those ways, falls
    through only with values that [okA] admits and makes the function
    return only values that [okR] admits. *)
Definition satisfies {W R A} (okE : event -> Prop) (okL : string -> Prop)
    (okR : R -> Prop) (okA : A -> Prop) (m : M W R A) : Prop :=
  forall s,
    reach okE okL s (snd (m s))
    /\ match fst (m s) with
       | Continue a => okA a
       | Return r => okR r
       end.

(** What the macros need of [okE], [okL] and [okR]: the attach and detach
    events, any log entry when a log file is configured, and the three
    results a failed step can give. *)
Definition standard (opts : option_list) {R} (okE : event -> Prop)
    (okL : string -> Prop) (okR : R -> Prop) (exit : Z -> R) : Prop :=
  okE Attached /\ okE AttachFailed /\ okE Detached
  /\ (log_file opts <> None -> forall text, okL text)
  /\ okR (exit (- EIO)) /\ okR (exit (- EINVAL)) /\ okR (exit (- ENOENT)).

(** The Java array [java_encode] makes of a path. *)
Definition path_array (path : string) : jbyteArray :=
  {| array_length := strlen path;
     array_elements :=
       memcpy (fun _ => x00) 0 (buffer_of_string path) (strlen path) |}.

(** An event that, if it is a remote call, calls a method of the table
    with the array of the path as its first argument. *)
Definition call_in (table : list (string * string)) (path : string)
    (e : event) : Prop :=
  match e with
  | RemoteCall method signature (ArgBytes a :: _) =>
      In (method, signature) table /\ a = path_array path
  | RemoteCall _ _ _ => False
  | _ => True
  end.

(** The methods of [fuse.Fuse] each operation calls, with their
    signatures. *)
Definition allowed_calls {W} (r : @request W) : list (string * string) :=
  match r with
  | Getattr _ _ => [("directory", "([B)Z"); ("size", "([B)J")]
  | Mknod _ _ _ => [("createFile", "([B)Z")]
  | Mkdir _ _ => [("createDirectory", "([B)Z")]
  | Unlink _ | Rmdir _ => [("delete", "([B)Z")]
  | Truncate _ _ =>
      [("directory", "([B)Z"); ("delete", "([B)Z"); ("createFile", "([B)Z")]
  | Open _ _ _ => [("size", "([B)J")]
  | Read _ _ _ _ _ => [("read", "([BJIJ)[B")]
  | Write _ _ _ _ _ => [("write", "([BJ[B)V")]
  | Opendir _ | Access _ _ => [("directory", "([B)Z")]
  | Readdir _ _ _ => [("list", "([B)[B")]
  | _ => []
  end.

(** The methods that change the remote file system. *)
Definition mutating_methods : list string :=
  ["createFile"; "createDirectory"; "delete"; "write"].

(** The operations that only look. *)
Definition read_only {W} (r : @request W) : bool :=
  match r with
  | Mknod _ _ _ | Mkdir _ _ | Unlink _ | Rmdir _ | Truncate _ _
  | Write _ _ _ _ _ => false
  | _ => true
  end.

(** The results each operation other than read can give. *)
Definition result_codes {W} (r : @request W) : list Z :=
  let failures := [- EIO; - EINVAL; - ENOENT] in
  match r with
  | Getattr _ _ => SUCCESS :: - EACCES :: failures
  | Mknod _ _ _ | Mkdir _ _ => SUCCESS :: - EEXIST :: - EACCES :: failures
  | Unlink _ | Rmdir _ => SUCCESS :: - EPERM :: - EACCES :: failures
  | Truncate _ _ =>
      SUCCESS :: - ENOTSUP :: - EISDIR :: - EACCES :: - EPERM
      :: - ECANCELED :: failures
  | Open _ _ _ => SUCCESS :: - EACCES :: - ENOTSUP :: failures
  | Read _ _ _ _ _ => []
  | Write _ _ length _ _ =>
      to_int (if INT_MAX <? length then INT_MAX else length)
      :: - EFBIG :: failures
  | Opendir _ => SUCCESS :: - ENOTDIR :: - EACCES :: failures
  | Readdir _ _ _ => SUCCESS :: failures
  | Access _ _ => SUCCESS :: - EACCES :: failures
  | _ => [SUCCESS]
  end.

(** A result whose [int] is one of a list. *)
Definition code_in {R} (code : R -> Z) (codes : list Z) (r : R) : Prop :=
  In (code r) codes.

(** The listing the remote [list] method returns for some names: each name
    followed by a NUL byte. *)
Definition encode_names (names : list string) : list byte :=
  List.concat (map (fun name => list_byte_of_string name ++ [x00])%list names).

(** Native memory holding a list of bytes from offset zero. *)
Definition memory_of_bytes (l : list byte) : memory :=
  fun i => if i <? 0 then x00 else nth (Z.to_nat i) l x00.

(** The names given to [fill] one after the other, until it reports that
    its buffer is full. *)
Fixpoint fill_all {W} (fill : W -> string -> Z * W) (names : list string)
    (w : W) : W :=
  match names with
  | [] => w
  | name :: rest =>
      let (full, w') := fill w name in
      if full =? 1 then w' else fill_all fill rest w'
  end.

(** What an open that got as far as the access checks needs of the flags
    and of the file mode to succeed. *)
Definition open_permitted (opts : option_list) (flags : Z) : Prop :=
  dfs_may_access (file_mode opts) R_OK = SUCCESS
  /\ (Z.land flags O_WRONLY = O_WRONLY ->
      dfs_may_access (file_mode opts) W_OK = SUCCESS)
  /\ (Z.land flags O_RDWR = O_RDWR ->
      dfs_may_access (file_mode opts) (Z.lor R_OK W_OK) = SUCCESS)
  /\ Z.land flags O_EXCL = 0.

(** The results of [dfs_open]: a failure leaves the file handle as it was;
    a success needs a path below the root, traversal and the permissions
    above, and sets the handle to a size. *)
Definition open_result (opts : option_list) (path : string) (flags fh : Z)
    (r : Z * Z) : Prop :=
  (fst r <> SUCCESS /\ fst r < 0 /\ snd r = fh)
  \/ (fst r = SUCCESS
      /\ dfs_is_root path = false
      /\ dfs_traversals_allowed opts = true
      /\ open_permitted opts flags
      /\ exists size, snd r = to_size_t size).

(** The length a read or a write passes on: the length asked for, at most
    [INT_MAX]. *)
Definition saturated (length : Z) : Z :=
  if INT_MAX <? length then INT_MAX else length.

(** A remote side whose [read] never returns an array longer than
    [limit]. *)
Definition read_within {W jclass jthrowable}
    (P : platform W jclass jthrowable) (limit : Z) : Prop :=
  forall w arguments,
    0 <= array_length
           (fst (CallStaticObjectMethodV P w "read" "([BJIJ)[B" arguments))
      <= limit.

(** The results of [dfs_read] on a buffer of [length] bytes when the array
    received has at most [limit] bytes: a failure that leaves the buffer as
    it was, or the length of the array, with the array at the start of the
    buffer, zeros from its end up to [length], and every other byte as it
    was. *)
Definition read_result (buffer : memory) (length limit : Z)
    (r : Z * memory) : Prop :=
  (In (fst r) [- EIO; - EINVAL; - ENOENT] /\ snd r = buffer)
  \/ (exists array,
        0 <= array_length array <= limit
        /\ fst r = array_length array
        /\ forall i,
             snd r i
             = if in_range 0 (array_length array) i
               then array_elements array i
               else if in_range (array_length array)
                         (length - array_length array) i
                    then x00
                    else buffer i).

(** A trace that begins with an attempt to attach. *)
Definition starts_with_attach (es : list event) : Prop :=
  exists e rest, es = e :: rest /\ (e = Attached \/ e = AttachFailed).

(** The state with another log. *)
Definition with_log {W} (s : state W) (entries : list string) : state W :=
  {| world := world s; log := entries; events := events s |}.

(** An event that, if it is a remote call, is the one expected. *)
Definition only_call (expected e : event) : Prop :=
  is_remote_call e = true -> e = expected.

(** The remote call of a read and of a write: the offset is the caller's,
    as the [off_t] the function receives. *)
Definition read_call (path : string) (length offset fh : Z) : event :=
  RemoteCall "read" "([BJIJ)[B"
    [ArgBytes (path_array path); ArgLong (to_off_t offset);
     ArgInt (saturated length); ArgLong (to_jlong fh)].

Definition write_call (path : string) (buffer : memory) (length offset : Z)
  : event :=
  RemoteCall "write" "([BJ[B)V"
    [ArgBytes (path_array path); ArgLong (to_off_t offset);
     ArgBytes {| array_length := saturated length;
                 array_elements :=
                   memcpy (fun _ => x00) 0 buffer (saturated length) |}].

(** A remote side on which a file, once deleted, cannot be created again:
    another client took its name. *)
Definition racing : Mock.remote :=
  {| Mock.boolean_method := fun method path =>
       if String.eqb method "delete" then Mock.Value true
       else Mock.Value false;
     Mock.long_method := fun _ _ => Mock.Value 0;
     Mock.object_method := fun _ _ => Mock.Value [];
     Mock.void_method := fun _ _ => None |}.

(** * Properties *)

(** ** Mode sanitization *)

Lemma permission_mask_bits (m n : Z) :
  9 <= n -> Z.testbit (Z.land m PERMISSION_MASK) n = false.
Proof.
  intros Hn. change PERMISSION_MASK with (Z.ones 9).
  rewrite Z.land_ones by lia.
  apply Z.mod_pow2_bits_high. lia.
Qed.

Lemma permission_mask_no_type (m : Z) :
  Z.land (Z.land m PERMISSION_MASK) S_IFMT = 0.
Proof.
  rewrite <- Z.land_assoc.
  change (Z.land PERMISSION_MASK S_IFMT) with 0.
  apply Z.land_0_r.
Qed.

(** C9. Whatever mode values the option scanner stored from the command
    line, after [parse_options] the configured file mode and directory mode
    are those values masked with 0777: they have no bit above the low nine,
    in particular no object-type bit. *)
Theorem parse_options_sanitizes_modes
    (fuse_opt_parse : list string -> option_list ->
                      Z * list string * option_list)
    (argv : list string) :
  let parsed := snd (fuse_opt_parse argv options) in
  let configured := snd (parse_options fuse_opt_parse argv) in
  file_mode configured = Z.land (file_mode parsed) 0x1ff
  /\ directory_mode configured = Z.land (directory_mode parsed) 0x1ff
  /\ Z.land (file_mode configured) S_IFMT = 0
  /\ Z.land (directory_mode configured) S_IFMT = 0
  /\ (forall n, 9 <= n ->
        Z.testbit (file_mode configured) n = false
        /\ Z.testbit (directory_mode configured) n = false)
  /\ hostname configured = hostname parsed
  /\ log_file configured = log_file parsed.
Proof.
  unfold parse_options.
  destruct (fuse_opt_parse argv options) as [[code arguments] parsed].
  cbn [snd file_mode directory_mode hostname log_file].
  repeat split; auto using permission_mask_no_type, permission_mask_bits.
Qed.

(** When the option scanner has stored a directory mode with the directory
    type bit, 040755, and a file mode with the regular-file bit, 0100644,
    the configured modes are 0755 and 0644. *)
Example parse_options_strips_type_bits :
  snd (parse_options
         (fun _ o =>
            (0, ["distfs"; "/mnt"],
             {| hostname := hostname o; file_mode := 0x81a4;
                directory_mode := 0x41ed; log_file := log_file o |}))
         ["distfs"; "--directory-mode=40755"; "--file-mode=100644"; "/mnt"])
  = {| hostname := "127.0.0.1"; file_mode := 0x1a4; directory_mode := 0x1ed;
       log_file := None |}.
Proof. reflexivity. Qed.

(** ** Root protection and the traversal gate *)

Section RootAndTraversal.

Context {W jclass jthrowable : Type}.
Variable P : platform W jclass jthrowable.
Variable opts : option_list.
Variable abi : stat_layout.

(** C3. On the root path mknod and mkdir return -EEXIST, unlink and
    rmdir -EPERM, truncate to size zero -EISDIR and open -ENOENT, whatever
    the options and the platform, and leave the state as it was. *)
Theorem root_protection (s : state W) (mode device flags fh : Z) :
  handle P opts abi (Mknod "/" mode device) s = (- EEXIST, s)
  /\ handle P opts abi (Mkdir "/" mode) s = (- EEXIST, s)
  /\ handle P opts abi (Unlink "/") s = (- EPERM, s)
  /\ handle P opts abi (Rmdir "/") s = (- EPERM, s)
  /\ handle P opts abi (Truncate "/" 0) s = (- EISDIR, s)
  /\ handle P opts abi (Open "/" flags fh) s = (- ENOENT, s).
Proof. repeat split. Qed.

Lemma traversals_denied :
  Z.land (directory_mode opts) S_IXUSR = 0 ->
  dfs_traversals_allowed opts = false.
Proof.
  intros H. unfold dfs_traversals_allowed, dfs_may_access.
  rewrite H. reflexivity.
Qed.

(** C1, as the code has it. Getattr, mknod, mkdir, unlink, rmdir,
    truncate to size zero, open, opendir and access on a path other than
    the root return -EACCES when the directory mode lacks the owner
    execute bit, and leave the state as it was: no attach, no remote
    call, no log entry. *)
Theorem traversal_gate (r : request) (s : state W) :
  checks_traversal_first r = true ->
  dfs_is_root (request_path r) = false ->
  Z.land (directory_mode opts) S_IXUSR = 0 ->
  handle P opts abi r s = (- EACCES, s).
Proof.
  intros Hgated Hroot Hmode.
  apply traversals_denied in Hmode.
  destruct r; cbn [checks_traversal_first] in Hgated; try discriminate;
    cbn [request_path] in Hroot; cbn [handle];
    unfold dfs_getattr, dfs_mknod, dfs_mkdir, dfs_delete, dfs_truncate,
      dfs_open, dfs_opendir, dfs_access, run;
    rewrite ?Hroot, ?Hmode, ?Hgated; reflexivity.
Qed.

End RootAndTraversal.

(** Scenario 6 of the specification: with directory mode 0600, access on a
    path below the root is refused without touching the platform. *)
Lemma traversal_gate_witness :
  handle (Mock.machine Mock.sample) Mock.no_traversal linux_x86_64
    (Access "/any/path" R_OK) Mock.start
  = (- EACCES, Mock.start).
Proof. apply traversal_gate; reflexivity. Defined.

(** C1 fails for read, write and readdir, which make no traversal check:
    with directory mode 0600 each of them, on a path other than the root,
    attaches, makes its remote call and returns its usual result. It also
    fails for truncate to a size other than zero, which returns -ENOTSUP
    before the traversal check. *)
Lemma read_write_readdir_without_traversal_check :
  let run_on r :=
    handle (Mock.machine Mock.sample) Mock.no_traversal linux_x86_64 r
      Mock.start in
  Z.land (directory_mode Mock.no_traversal) S_IXUSR = 0
  /\ fst (run_on (Read "/a.txt" Mock.dirty 4 0 0)) = 2
  /\ remote_call_count (events (snd (run_on (Read "/a.txt" Mock.dirty 4 0 0))))
     = 1%nat
  /\ fst (run_on (Write "/a.txt" Mock.dirty 4 0 0)) = 4
  /\ remote_call_count
       (events (snd (run_on (Write "/a.txt" Mock.dirty 4 0 0)))) = 1%nat
  /\ fst (run_on (Readdir "/d" Mock.fill 0)) = 0
  /\ remote_call_count (events (snd (run_on (Readdir "/d" Mock.fill 0))))
     = 1%nat
  /\ fst (run_on (Truncate "/a.txt" 5)) = - ENOTSUP.
Proof. vm_compute. repeat split. Qed.

(** ** Large offsets *)

Section Offsets.

Context {W jclass jthrowable : Type}.
Variable P : platform W jclass jthrowable.
Variable opts : option_list.

(** An [off_t] never exceeds [LLONG_MAX]: for the offsets libfuse can
    pass, the first test of [dfs_read] and of [dfs_write] is false. *)
Lemma offset_test_false_for_off_t (offset : Z) :
  off_t_range offset -> (LLONG_MAX <? offset) = false.
Proof.
  unfold off_t_range, LLONG_MAX. intros H. apply Z.ltb_ge. lia.
Qed.

End Offsets.

(** ** Opening files that cannot be read *)

Section OpenReadBit.

Context {W jclass jthrowable : Type}.
Variable P : platform W jclass jthrowable.
Variable opts : option_list.

(** [O_RDONLY] is zero, so the test that guards the read check of
    [dfs_open] holds for every flags word. *)
Lemma rdonly_test_always_true (flags : Z) :
  (Z.land flags O_RDONLY =? O_RDONLY) = true.
Proof. unfold O_RDONLY. rewrite Z.land_0_r. reflexivity. Qed.

Lemma read_denied (request : Z) :
  Z.land (file_mode opts) S_IRUSR = 0 ->
  Z.land request R_OK <> 0 ->
  dfs_may_access (file_mode opts) request = - EACCES.
Proof.
  intros Hmode Hreq. unfold dfs_may_access. rewrite Hmode.
  apply Z.eqb_neq in Hreq. unfold c_true. rewrite Hreq. reflexivity.
Qed.

(** C10. On a path other than the root, once the thread is attached, the
    path encoded and the remote [size] call has returned a size without an
    exception (the file exists), [dfs_open] returns -EACCES when the file
    mode lacks the owner read bit, whatever the flags, and does not set
    the file handle. *)
Theorem open_needs_read_bit (path : string) (flags fh size : Z)
    (java_path : jbyteArray) (s s1 s2 s3 : state W) :
  dfs_is_root path = false ->
  Z.land (file_mode opts) S_IRUSR = 0 ->
  java_attach P (R := Z * Z) s = (Continue true, s1) ->
  java_encode_string P (R := Z * Z) path s1
  = (Continue (Some java_path), s2) ->
  java_call P (R := Z * Z) (CallStaticLongMethodV P) "size" "([B)J"
    [ArgBytes java_path] s2
  = (Continue (Called size None), s3) ->
  fst (run (dfs_open P opts path flags fh) s) = (- EACCES, fh).
Proof.
  intros Hroot Hmode Hattach Hencode Hcall.
  unfold dfs_open, run. rewrite Hroot.
  destruct (dfs_traversals_allowed opts); [|reflexivity].
  cbn [negb].
  unfold bind, try_attach, try_encode, try_call, bind.
  rewrite Hattach. cbn [negb ret]. rewrite Hencode. cbn [ret].
  rewrite Hcall. cbn [ret java_detach].
  rewrite rdonly_test_always_true.
  rewrite (read_denied R_OK Hmode) by (vm_compute; discriminate).
  destruct (Z.land flags O_RDWR =? O_RDWR); cbn [andb].
  - rewrite (read_denied (Z.lor R_OK W_OK) Hmode)
      by (vm_compute; discriminate).
    reflexivity.
  - reflexivity.
Qed.

End OpenReadBit.

(** With file mode 0200 a write-only open of an existing file is refused. *)
Lemma open_needs_read_bit_witness :
  fst (run (dfs_open (Mock.machine Mock.sample) Mock.write_only_files
              "/a.txt" O_WRONLY 7) Mock.start)
  = (- EACCES, 7).
Proof.
  eapply (open_needs_read_bit (Mock.machine Mock.sample)
            Mock.write_only_files "/a.txt" O_WRONLY 7);
    reflexivity.
Defined.

(** ** Steps that always fall through *)

Section Steps.

Context {W jclass jthrowable : Type}.
Variable P : platform W jclass jthrowable.
Variable opts : option_list.

Lemma bind_continue {R A B} (m : M W R A) (k : A -> M W R B) (a : A)
    (s s1 : state W) :
  m s = (Continue a, s1) -> bind m k s = k a s1.
Proof. intros H. unfold bind. rewrite H. reflexivity. Qed.

Lemma java_detach_step {R} (s : state W) :
  java_detach P (R := R) s
  = (Continue tt,
     add_event (set_world s (DetachCurrentThread P (world s))) Detached).
Proof. reflexivity. Qed.

Lemma java_encode_step {R} (source : memory) (length : Z) (s : state W) :
  exists result s',
    java_encode P (R := R) source length s = (Continue result, s')
    /\ log s' = log s /\ events s' = events s.
Proof.
  unfold java_encode.
  destruct (GetEnv P (world s)); cbn [negb]; [|eauto].
  destruct (NewByteArray P (world s) length) as [[] w1]; cbn [negb];
    [|eauto].
  destruct (GetByteArrayElements P w1) as [[] w2]; cbn [negb]; eauto.
Qed.

Lemma java_describe_exception_step {R} (exception : jthrowable)
    (filename : string) (stack_trace : bool) (s : state W) :
  exists s',
    java_describe_exception P (R := R) exception filename stack_trace s
    = (Continue tt, s')
    /\ events s' = events s.
Proof.
  unfold java_describe_exception.
  destruct (GetEnv P (world s)); cbn [negb]; [|eauto].
  unfold java_encode_string.
  destruct (java_encode_step (R := R) (buffer_of_string filename)
              (strlen filename) s) as (result & s1 & -> & _ & Hev).
  destruct result as [array|]; [|eauto].
  destruct (PrintWriter_print P (world s1) exception stack_trace)
    as [[text|] w2]; eauto.
Qed.

Lemma log_write_real_step {R} (message : string) (s : state W) :
  exists s',
    log_write_real P opts (R := R) message s = (Continue tt, s')
    /\ events s' = events s.
Proof.
  unfold log_write_real.
  destruct (log_file opts) as [name|]; [|eauto].
  destruct (pthread_mutex_lock P (world s)) as [[] w1]; cbn [negb];
    [|eauto].
  destruct (fopen P w1 name "a") as [[] w2]; cbn [negb]; eauto.
Qed.

Lemma log_exception_real_step {R} (exception : jthrowable)
    (stack_trace : bool) (s : state W) :
  exists s',
    log_exception_real P opts (R := R) exception stack_trace s
    = (Continue tt, s')
    /\ events s' = events s.
Proof.
  unfold log_exception_real.
  destruct (log_file opts) as [name|]; [|eauto].
  destruct (pthread_mutex_lock P (world s)) as [[] w1]; cbn [negb];
    [|eauto].
  destruct (java_describe_exception_step (R := R) exception name
              stack_trace (set_world s w1)) as (s2 & -> & Hev).
  eauto.
Qed.

(** What the logging macros return. *)
Lemma log_error_detach_and_return_code {R A} (func : string)
    (exit : Z -> R) (name : string) (error : Z) (format : string)
    (s : state W) :
  fst (log_error_detach_and_return P opts func exit (A := A) name error
         format s)
  = Return (exit (- error)).
Proof.
  unfold log_error_detach_and_return, bind.
  destruct (log_write_real_step (R := R)
              (func ++ ": " ++ name ++ ": " ++ format ++ newline) s)
    as (s1 & -> & _).
  reflexivity.
Qed.

Lemma log_exception_detach_and_return_code {R A} (func : string)
    (exit : Z -> R) (exception : jthrowable) (s : state W) :
  fst (log_exception_detach_and_return P opts func exit (A := A)
         exception s)
  = Return (exit (- java_error_code P (world s) exception)).
Proof.
  unfold log_exception_detach_and_return, bind.
  destruct (log_write_real_step (R := R) (func ++ ": ") s)
    as (s1 & -> & _).
  destruct (log_exception_real_step (R := R) exception false s1)
    as (s2 & -> & _).
  reflexivity.
Qed.

End Steps.

(** ** Fault classification *)

Section Faults.

Context {W jclass jthrowable : Type}.
Variable P : platform W jclass jthrowable.
Variable opts : option_list.

(** The search returns the code of the first entry that matches. *)
Lemma error_code_search_first_match (table : list (string * Z)) (w : W)
    (exception : jthrowable) :
  error_code_search P table w exception
  = match first_match P w exception table with
    | Some entry => snd entry
    | None => DEFAULT_ERROR
    end.
Proof.
  induction table as [|[name code] rest IH]; [reflexivity|].
  cbn [error_code_search first_match find fst]. unfold instance_of at 1.
  destruct (FindClass P w name) as [cls|].
  - destruct (IsInstanceOf P w exception cls); [reflexivity | exact IH].
  - exact IH.
Qed.

(** C4. When the thread has a JNI environment and the classes of the
    table are found: an exception that is an instance of
    IllegalArgumentException or of IndexOutOfBoundsException maps to
    EINVAL, one that is an instance of FileNotFoundException (and of
    neither of the former) to ENOENT, any other to EIO; the code is that
    of the first entry of the table, in its order, that matches. In
    [try_call] a call that fails without an exception (a transport error)
    returns -EIO, and one that leaves an exception returns the negated
    code of that exception: when the remote method has run and the machine
    holds a pending exception, that exception is the one classified. *)
Theorem fault_classification (w : W) (exception : jthrowable) :
  GetEnv P w = true ->
  (forall name code, In (name, code) exceptions ->
                     FindClass P w name <> None) ->
  let is_a := instance_of P w exception in
  java_error_code P w exception
  = match first_match P w exception exceptions with
    | Some entry => snd entry
    | None => EIO
    end
  /\ (is_a "java/lang/IllegalArgumentException" = true ->
      java_error_code P w exception = EINVAL)
  /\ (is_a "java/lang/IndexOutOfBoundsException" = true ->
      java_error_code P w exception = EINVAL)
  /\ (is_a "java/lang/IllegalArgumentException" = false ->
      is_a "java/lang/IndexOutOfBoundsException" = false ->
      is_a "java/io/FileNotFoundException" = true ->
      java_error_code P w exception = ENOENT)
  /\ (is_a "java/lang/IllegalArgumentException" = false ->
      is_a "java/lang/IndexOutOfBoundsException" = false ->
      is_a "java/io/FileNotFoundException" = false ->
      java_error_code P w exception = EIO)
  /\ (forall (R T : Type) (func : string) (exit : Z -> R)
             (call_static : W -> string -> string -> list jvalue -> T * W)
             (method signature : string) (arguments : list jvalue)
             (s s1 : state W) (status : call_status jthrowable T),
        java_call P (R := R) call_static method signature arguments s
        = (Continue status, s1) ->
        world s1 = w ->
        (status = CallFailed None ->
         fst (try_call P opts func exit call_static method signature
                arguments s)
         = Return (exit (- EIO)))
        /\ (status = CallFailed (Some exception)
            \/ (exists result, status = Called result (Some exception)) ->
            fst (try_call P opts func exit call_static method signature
                   arguments s)
            = Return (exit (- java_error_code P w exception))))
  /\ (forall (R T : Type) (func : string) (exit : Z -> R)
             (call_static : W -> string -> string -> list jvalue -> T * W)
             (method signature : string) (arguments : list jvalue)
             (s : state W) (cls : jclass) (result : T) (w1 : W),
        GetEnv P (world s) = true ->
        FindClass P (world s) CLASS_NAME = Some cls ->
        GetStaticMethodID P (world s) cls method signature = true ->
        call_static (world s) method signature arguments = (result, w1) ->
        ExceptionOccurred P w1 = Some exception ->
        ExceptionClear P w1 = w ->
        fst (try_call P opts func exit call_static method signature
               arguments s)
        = Return (exit (- java_error_code P w exception))).
Proof.
  intros Henv Hfound is_a.
  assert (Hcode : java_error_code P w exception
                  = match first_match P w exception exceptions with
                    | Some entry => snd entry
                    | None => EIO
                    end).
  { unfold java_error_code. rewrite Henv. cbn [negb].
    apply error_code_search_first_match. }
  split; [exact Hcode|].
  subst is_a.
  assert (Htable : forall code,
             match first_match P w exception exceptions with
             | Some entry => snd entry
             | None => EIO
             end = code ->
             java_error_code P w exception = code)
    by (intros code <-; exact Hcode).
  unfold first_match, exceptions in Htable. cbn [find fst snd] in Htable.
  repeat split.
  - intros E. apply Htable. rewrite E. reflexivity.
  - intros E. apply Htable. rewrite E.
    destruct (instance_of P w exception
                "java/lang/IllegalArgumentException"); reflexivity.
  - intros E1 E2 E3. apply Htable. rewrite E1, E2, E3. reflexivity.
  - intros E1 E2 E3. apply Htable. rewrite E1, E2, E3. reflexivity.
  - intros ->. unfold try_call, bind. rewrite H.
    apply log_error_detach_and_return_code.
  - intros [-> | [result ->]]; unfold try_call, bind; rewrite H;
      rewrite log_exception_detach_and_return_code, H0; reflexivity.
  - intros R T func exit call_static method signature arguments s cls
      result w1 Hmachine Hclass Hmethod Hcall Hpending Hcleared.
    unfold try_call, bind, java_call, java_record_exception.
    rewrite Hmachine, Hclass, Hmethod, Hcall, Hpending. cbn [negb].
    rewrite log_exception_detach_and_return_code.
    cbn [world add_event set_world]. rewrite Hcleared. reflexivity.
Qed.

End Faults.

(** On the scripted machine a FileNotFoundException maps to ENOENT. *)
Lemma fault_classification_witness :
  java_error_code (Mock.machine Mock.sample) (world Mock.start)
    Mock.FileNotFoundException
  = ENOENT.
Proof.
  destruct (fault_classification (Mock.machine Mock.sample) options
              (world Mock.start) Mock.FileNotFoundException)
    as (_ & _ & _ & Hnotfound & _).
  - reflexivity.
  - intros name code _. discriminate.
  - apply Hnotfound; reflexivity.
Defined.

(** ** Walking through a function body *)

(** Case analysis on whatever the body branches on next. *)
Ltac branch :=
  match goal with
  | |- context [match ?x with _ => _ end] =>
      lazymatch x with
      | context [match _ with _ => _ end] => fail
      | _ => destruct x eqn:?
      end
  end.

Ltac unfold_body :=
  unfold run, try_void_call, try_call, try_encode, try_attach,
    detach_and_return, log_exception_detach_and_return,
    log_error_detach_and_return, log_error_and_return, log_and_detach,
    log_write, log_exception_real, log_write_real,
    java_describe_exception, java_decode_new, java_decode,
    java_encode_string, java_encode, java_call, call_static_void,
    java_record_exception, java_detach, java_attach, bind, returns, ret
    in *.

Ltac walk :=
  unfold_body;
  repeat (cbn [fst snd negb andb world log events set_world add_event
               add_log with_status with_fh id] in *;
          unfold id in *;
          try branch).

(** The events a path of a body added, listed in a hypothesis. *)
Ltac only_new_events H :=
  unfold new_events in H;
  cbn [events add_event set_world add_log] in H;
  rewrite <- ?app_assoc in H;
  rewrite ?skipn_app, ?skipn_all, ?Nat.sub_diag in H;
  cbn [skipn app In] in H.

(** ** getattr and the status structure *)

Section Getattr.

Context {W jclass jthrowable : Type}.
Variable P : platform W jclass jthrowable.
Variable opts : option_list.
Variable abi : stat_layout.

Lemma memset_outside (b : memory) (offset length i : Z) (c : byte) :
  in_range offset length i = false -> memset b offset c length i = b i.
Proof. intros H. unfold memset. rewrite H. reflexivity. Qed.

Lemma store_outside (b : memory) (offset size value i : Z) :
  in_range offset size i = false -> store b offset size value i = b i.
Proof. intros H. unfold store. rewrite H. reflexivity. Qed.

(** Whatever [dfs_getattr] returns, a byte of the status structure that
    lies outside its first [sizeof(status)] bytes and outside the three
    fields the function assigns still has the value the caller left
    there. *)
Lemma getattr_leaves_other_bytes (path : string) (status : memory)
    (s : state W) (i : Z) :
  in_range 0 (sizeof_pointer abi) i = false ->
  in_range (st_mode_offset abi) (st_mode_size abi) i = false ->
  in_range (st_nlink_offset abi) (st_nlink_size abi) i = false ->
  in_range (st_size_offset abi) (st_size_size abi) i = false ->
  snd (fst (run (dfs_getattr P opts abi path status) s)) i = status i.
Proof.
  intros Hpointer Hmode Hnlink Hsize.
  unfold dfs_getattr. walk;
    rewrite ?store_outside, ?memset_outside by assumption; reflexivity.
Qed.

End Getattr.

(** C2 fails on the code: [memset(status, 0, sizeof(status))] clears the
    size of a pointer. On Linux x86-64, getattr on a directory, given a
    status structure whose bytes are all set, returns 0 with the mode and
    link count it assigned, [st_dev] cleared, and [st_ino] and [st_size]
    still holding the caller's bytes. *)
Lemma getattr_directory_size_not_cleared :
  let result :=
    fst (run (dfs_getattr (Mock.machine Mock.sample) options linux_x86_64
                "/d" Mock.dirty) Mock.start) in
  fst result = 0
  /\ load (snd result) (st_mode_offset linux_x86_64) 4 = Z.lor S_IFDIR 0x1ed
  /\ load (snd result) (st_nlink_offset linux_x86_64) 8 = 1
  /\ load (snd result) 0 8 = 0
  /\ load (snd result) 8 8 = 2 ^ 64 - 1
  /\ load (snd result) (st_size_offset linux_x86_64) 8 = 2 ^ 64 - 1.
Proof. vm_compute. repeat split. Qed.

(** ** Length saturation *)

Section Lengths.

Context {W jclass jthrowable : Type}.
Variable P : platform W jclass jthrowable.
Variable opts : option_list.

Lemma java_error_code_values (w : W) (exception : jthrowable) :
  In (- java_error_code P w exception) [- EINVAL; - ENOENT; - EIO].
Proof.
  unfold java_error_code, exceptions, DEFAULT_ERROR.
  cbn [error_code_search].
  repeat match goal with
         | |- context [match ?x with _ => _ end] => destruct x
         end; cbn [negb In]; auto.
Qed.

Lemma java_error_code_negative (w : W) (exception : jthrowable) :
  - java_error_code P w exception < 0.
Proof.
  pose proof (java_error_code_values w exception) as H.
  cbn [In] in H. unfold EINVAL, ENOENT, EIO in H. lia.
Qed.

Lemma new_events_app (s s' : state W) (es : list event) :
  events s' = (events s ++ es)%list -> new_events s s' = es.
Proof.
  intros H. unfold new_events. rewrite H.
  rewrite skipn_app, skipn_all, Nat.sub_diag. reflexivity.
Qed.

Lemma saturate_large (length : Z) :
  INT_MAX < length ->
  (if INT_MAX <? length then INT_MAX else length) = INT_MAX.
Proof. intros H. apply Z.ltb_lt in H. rewrite H. reflexivity. Qed.

Lemma saturate_max :
  (if INT_MAX <? INT_MAX then INT_MAX else INT_MAX) = INT_MAX.
Proof. reflexivity. Qed.

Lemma memset_agree (b : memory) (offset n1 n2 i : Z) (c : byte) :
  in_range offset n1 i = in_range offset n2 i ->
  memset b offset c n1 i = memset b offset c n2 i.
Proof. intros H. unfold memset. rewrite H. reflexivity. Qed.

Lemma in_range_below (offset n1 n2 i : Z) :
  i < offset + n1 -> i < offset + n2 ->
  in_range offset n1 i = in_range offset n2 i.
Proof.
  intros H1 H2. unfold in_range.
  apply Z.ltb_lt in H1, H2. rewrite H1, H2. reflexivity.
Qed.

(** A read asked for more than [INT_MAX] bytes against the same read asked
    for [INT_MAX] bytes. *)
Lemma read_beyond_int_max (path : string) (buffer : memory)
    (length offset fh : Z) (s : state W) :
  INT_MAX < length ->
  let r1 := run (dfs_read P opts path buffer length offset fh) s in
  let r2 := run (dfs_read P opts path buffer INT_MAX offset fh) s in
  fst (fst r1) = fst (fst r2)
  /\ snd r1 = snd r2
  /\ (forall e, In e (new_events s (snd r1)) -> is_remote_call e = true ->
        exists java_path,
          e = RemoteCall "read" "([BJIJ)[B"
                [ArgBytes java_path; ArgLong (to_off_t offset); ArgInt INT_MAX;
                 ArgLong (to_jlong fh)])
  /\ (size_t_range length ->
      (forall w method signature arguments,
          0 <= array_length
                 (fst (CallStaticObjectMethodV P w method signature
                         arguments)) <= INT_MAX) ->
      forall i, i < INT_MAX -> snd (fst r1) i = snd (fst r2) i).
Proof.
  intros Hlarge. unfold dfs_read.
  rewrite (saturate_large length Hlarge), saturate_max. walk;
    (split; [reflexivity|]; split; [reflexivity|]; split;
     [ intros e Hin Hcall; only_new_events Hin;
       repeat (destruct Hin as [<- | Hin]; try discriminate Hcall;
               eauto);
       try contradiction
     | intros Hsize Harrays i Hi; try reflexivity;
       apply memset_agree, in_range_below;
       try match goal with
           | H : CallStaticObjectMethodV P ?w ?m ?sg ?a = (?j, _) |- _ =>
               let Hr := fresh "Hr" in
               pose proof (Harrays w m sg a) as Hr;
               rewrite H in Hr; cbn [fst] in Hr;
               unfold to_size_t; rewrite Z.mod_small
           end;
       unfold size_t_range, INT_MAX in *; lia ]).
Qed.

End Lengths.

(** A write of 2^32 bytes on the scripted machine returns 2^31-1 after one
    remote call. *)
Example write_of_2_32_bytes :
  let r := run (dfs_write (Mock.machine Mock.sample) options "/a.txt"
                  Mock.dirty (2 ^ 32) 0 0) Mock.start in
  fst r = 2147483647 /\ remote_call_count (events (snd r)) = 1%nat.
Proof. vm_compute. split; reflexivity. Qed.

(** ** Attach and detach are balanced *)

Create HintDb bracket.

Section Balance.

Context {W jclass jthrowable : Type}.
Variable P : platform W jclass jthrowable.
Variable opts : option_list.
Variable abi : stat_layout.

Lemma attach_count_app (es1 es2 : list event) :
  attach_count (es1 ++ es2) = (attach_count es1 + attach_count es2)%nat.
Proof. unfold attach_count. rewrite filter_app. apply length_app. Qed.

Lemma detach_count_app (es1 es2 : list event) :
  detach_count (es1 ++ es2) = (detach_count es1 + detach_count es2)%nat.
Proof. unfold detach_count. rewrite filter_app. apply length_app. Qed.

Lemma thread_attached_app (before : bool) (es1 es2 : list event) :
  thread_attached before (es1 ++ es2)
  = thread_attached (thread_attached before es1) es2.
Proof.
  revert before. induction es1 as [|e es1 IH]; intros before.
  - reflexivity.
  - destruct e; cbn [app thread_attached]; apply IH.
Qed.

Lemma balance_nil (b : bool) : balance b b [].
Proof. split; reflexivity. Qed.

Lemma balance_app (a b c : bool) (es1 es2 : list event) :
  balance a b es1 -> balance b c es2 -> balance a c (es1 ++ es2).
Proof.
  intros [Hcount1 Hthread1] [Hcount2 Hthread2]. split.
  - rewrite attach_count_app, detach_count_app. lia.
  - rewrite thread_attached_app, Hthread1. exact Hthread2.
Qed.

Lemma bracketed_ret {R A} (b : bool) (a : A) :
  bracketed (W := W) (R := R) b (fun _ => b) (ret a).
Proof.
  intros s. exists []. cbn. rewrite app_nil_r.
  split; [reflexivity | apply balance_nil].
Qed.

Lemma bracketed_returns {R A} (after : A -> bool) (r : R) :
  bracketed (W := W) false after (returns r).
Proof.
  intros s. exists []. cbn. rewrite app_nil_r.
  split; [reflexivity | apply balance_nil].
Qed.

Lemma bracketed_bind {R A B} (a : bool) (b : A -> bool) (c : B -> bool)
    (m : M W R A) (k : A -> M W R B) :
  bracketed a b m -> (forall x, bracketed (b x) c (k x)) ->
  bracketed a c (bind m k).
Proof.
  intros Hm Hk s. unfold bind.
  destruct (Hm s) as (es1 & Hev1 & Hbal1).
  destruct (m s) as [[x | r] s1]; cbn [fst snd] in *.
  - destruct (Hk x s1) as (es2 & Hev2 & Hbal2).
    exists (es1 ++ es2)%list. split.
    + rewrite Hev2, Hev1. symmetry. apply app_assoc.
    + destruct (fst (k x s1)); eapply balance_app; eassumption.
  - exists es1. split; assumption.
Qed.

Lemma bracketed_silent {R A} (b : bool) (m : M W R A) :
  silent m -> bracketed b (fun _ => b) m.
Proof.
  intros Hm s. destruct (Hm s) as (a & s' & -> & _ & Hev).
  exists []. cbn [fst snd]. rewrite app_nil_r.
  split; [exact Hev | apply balance_nil].
Qed.

(** *** The steps of java.cpp *)

Lemma bracketed_java_attach {R} :
  bracketed (R := R) false (fun attached => attached) (java_attach P).
Proof.
  intros s. unfold java_attach.
  destruct (AttachCurrentThread P (world s)) as [[] w];
    [exists [Attached] | exists [AttachFailed]];
    cbn; (split; [reflexivity | split; reflexivity]).
Qed.

Lemma bracketed_java_detach {R} :
  bracketed (R := R) true (fun _ => false) (java_detach P).
Proof.
  intros s. exists [Detached]. cbn.
  split; [reflexivity | split; reflexivity].
Qed.

Lemma bracketed_java_destroy {R} (b : bool) :
  bracketed (R := R) b (fun _ => b) (java_destroy P).
Proof.
  intros s. exists [MachineDestroyed]. cbn.
  split; [reflexivity | split; [cbn; lia | reflexivity]].
Qed.

Lemma bracketed_java_initialize {R} :
  bracketed (R := R) false (fun _ => false) (java_initialize P).
Proof.
  intros s. unfold java_initialize.
  destruct (JNI_GetDefaultJavaVMInitArgs P (world s)) as [[] w1];
    cbn [negb].
  - destruct (JNI_CreateJavaVM P w1) as [[] w2]; cbn [negb].
    + exists [Attached; Detached]. cbn.
      rewrite <- app_assoc.
      split; [reflexivity | split; reflexivity].
    + exists []. cbn. rewrite app_nil_r.
      split; [reflexivity | apply balance_nil].
  - exists []. cbn. rewrite app_nil_r.
    split; [reflexivity | apply balance_nil].
Qed.

Lemma bracketed_java_call {R T} (b : bool)
    (call_static : W -> string -> string -> list jvalue -> T * W)
    (method signature : string) (arguments : list jvalue) :
  bracketed (R := R) b (fun _ => b)
    (java_call P call_static method signature arguments).
Proof.
  intros s. unfold java_call, java_record_exception.
  destruct (GetEnv P (world s)); cbn [negb];
    [|exists []; cbn; rewrite app_nil_r;
      split; [reflexivity | apply balance_nil]].
  destruct (FindClass P (world s) CLASS_NAME) as [cls|];
    [|exists []; cbn; rewrite app_nil_r;
      split; [reflexivity | apply balance_nil]].
  destruct (GetStaticMethodID P (world s) cls method signature);
    cbn [negb];
    [|exists []; cbn; rewrite app_nil_r;
      split; [reflexivity | apply balance_nil]].
  destruct (call_static (world s) method signature arguments) as [result w1].
  exists [RemoteCall method signature arguments]. cbn.
  split; [reflexivity | split; [cbn; lia | reflexivity]].
Qed.

Lemma silent_java_encode {R} (source : memory) (length : Z) :
  silent (java_encode P (R := R) source length).
Proof.
  intros s.
  destruct (java_encode_step P (R := R) source length s)
    as (result & s' & H & Hlog & Hev).
  eauto.
Qed.

Lemma silent_java_decode {R} (byte_array : jbyteArray)
    (destination : memory) :
  silent (java_decode P (R := R) byte_array destination).
Proof.
  intros s. unfold java_decode.
  destruct (GetEnv P (world s)); cbn [negb]; [|eauto].
  destruct (GetByteArrayElements P (world s)) as [[] w1]; cbn [negb];
    eauto.
Qed.

Lemma silent_java_decode_new {R} (byte_array : jbyteArray) :
  silent (java_decode_new P (R := R) byte_array).
Proof.
  intros s. unfold java_decode_new.
  destruct (GetEnv P (world s)); cbn [negb]; [|eauto].
  apply silent_java_decode.
Qed.

Lemma silent_java_load_classes {R} : silent (java_load_classes P (R := R)).
Proof.
  intros s. unfold java_load_classes, java_record_exception.
  destruct (GetEnv P (world s)); cbn [negb]; [|eauto].
  destruct (FindClass P (world s) "java/lang/ClassLoader") as [cls|];
    [|eauto].
  destruct (GetStaticMethodID P (world s) cls "getSystemClassLoader"
              "()Ljava/lang/ClassLoader;"); cbn [negb]; [|eauto].
  destruct (DefineClasses P (world s)) as [[] w1]; eauto.
Qed.

(** *** Logging *)

Lemma bracketed_log_write_real {R} (b : bool) (message : string) :
  bracketed (R := R) b (fun _ => b) (log_write_real P opts message).
Proof.
  intros s.
  destruct (log_write_real_step P opts (R := R) message s)
    as (s' & -> & Hev).
  exists []. cbn [fst snd]. rewrite app_nil_r.
  split; [exact Hev | apply balance_nil].
Qed.

Lemma bracketed_log_exception_real {R} (b : bool)
    (exception : jthrowable) (stack_trace : bool) :
  bracketed (R := R) b (fun _ => b)
    (log_exception_real P opts exception stack_trace).
Proof.
  intros s.
  destruct (log_exception_real_step P opts (R := R) exception stack_trace
              s) as (s' & -> & Hev).
  exists []. cbn [fst snd]. rewrite app_nil_r.
  split; [exact Hev | apply balance_nil].
Qed.

Lemma bracketed_log_initialize {R} (b : bool) :
  bracketed (R := R) b (fun _ => b) (log_initialize P opts).
Proof.
  intros s. unfold log_initialize. exists [].
  rewrite app_nil_r.
  destruct (log_file opts) as [name|];
    [|split; [reflexivity | apply balance_nil]].
  destruct (pthread_mutex_init P (world s)) as [[] w1]; cbn [negb];
    [|split; [reflexivity | apply balance_nil]].
  destruct (fopen P w1 name "w") as [[] w2]; cbn [negb];
    split; try reflexivity; apply balance_nil.
Qed.

Lemma bracketed_fill_children {R} (b : bool)
    (fill : W -> string -> Z * W) (children : memory) (length : Z) :
  bracketed (R := R) (A := unit) b (fun _ => b)
    (fun s =>
       (Continue tt,
        set_world s
          (fill_children (Z.to_nat length) fill children length 0
             (world s)))).
Proof.
  intros s. exists []. cbn [fst snd events set_world].
  rewrite app_nil_r. split; [reflexivity | apply balance_nil].
Qed.

Hint Resolve bracketed_ret bracketed_returns bracketed_java_attach
  bracketed_java_detach bracketed_java_destroy bracketed_java_initialize
  bracketed_java_call bracketed_log_write_real
  bracketed_log_exception_real bracketed_log_initialize
  bracketed_fill_children : bracket.
Hint Extern 1 (bracketed _ _ (java_encode _ _ _)) =>
  apply bracketed_silent, silent_java_encode : bracket.
Hint Extern 1 (bracketed _ _ (java_encode_string _ _)) =>
  apply bracketed_silent, silent_java_encode : bracket.
Hint Extern 1 (bracketed _ _ (java_decode _ _ _)) =>
  apply bracketed_silent, silent_java_decode : bracket.
Hint Extern 1 (bracketed _ _ (java_decode_new _ _)) =>
  apply bracketed_silent, silent_java_decode_new : bracket.
Hint Extern 1 (bracketed _ _ (java_load_classes _)) =>
  apply bracketed_silent, silent_java_load_classes : bracket.

Lemma bracketed_bind_same {R A B} (a : bool) (c : B -> bool)
    (m : M W R A) (k : A -> M W R B) :
  bracketed a (fun _ => a) m -> (forall x, bracketed a c (k x)) ->
  bracketed a c (bind m k).
Proof. intros Hm Hk. eapply bracketed_bind; [exact Hm | exact Hk]. Qed.

(** One step of a body at a time: a bind, a branch, or a step the hint
    database knows. *)
Ltac bracket :=
  cbn beta zeta;
  first
    [ solve [eauto with bracket]
    | eapply bracketed_bind;
      [ solve [eauto with bracket] | intros ?; bracket ]
    | eapply bracketed_bind_same; [ bracket | intros ?; bracket ]
    | match goal with
      | |- bracketed _ _ (if negb ?c then _ else _) =>
          destruct c; cbn [negb]; bracket
      | |- bracketed _ _ (if ?c then _ else _) => destruct c; bracket
      | |- bracketed _ _ (match ?x with _ => _ end) => destruct x; bracket
      end ].

(** *** The macros *)

Lemma bracketed_log_error_and_return {R A} (func : string) (exit : Z -> R)
    (after : A -> bool) (name : string) (error : Z) (format : string) :
  bracketed false after
    (log_error_and_return P opts func exit name error format).
Proof. unfold log_error_and_return. bracket. Qed.

Lemma bracketed_log_error_detach_and_return {R A} (func : string)
    (exit : Z -> R) (after : A -> bool) (name : string) (error : Z)
    (format : string) :
  bracketed true after
    (log_error_detach_and_return P opts func exit name error format).
Proof. unfold log_error_detach_and_return. bracket. Qed.

Lemma bracketed_log_exception_detach_and_return {R A} (func : string)
    (exit : Z -> R) (after : A -> bool) (exception : jthrowable) :
  bracketed true after
    (log_exception_detach_and_return P opts func exit exception).
Proof.
  intros s. unfold log_exception_detach_and_return. revert s.
  change (bracketed true after
            (fun s =>
               (log_write_real P opts (func ++ ": ");;
                log_exception_real P opts exception false;;
                java_detach P;;
                returns
                  (exit (- java_error_code P (world s) exception)))%body
                 s)).
  intros s.
  assert (H : bracketed true after
                (log_write_real P opts (func ++ ": ");;
                 log_exception_real P opts exception false;;
                 java_detach P;;
                 returns
                   (exit (- java_error_code P (world s) exception)))%body)
    by bracket.
  exact (H s).
Qed.

Lemma bracketed_detach_and_return {R A} (exit : Z -> R)
    (after : A -> bool) (error : Z) :
  bracketed true after (detach_and_return P exit error).
Proof. unfold detach_and_return. bracket. Qed.

Lemma bracketed_log_and_detach {R} (func format : string) :
  bracketed (R := R) true (fun _ => false)
    (log_and_detach P opts func format).
Proof. unfold log_and_detach. bracket. Qed.

Lemma bracketed_log_write {R} (b : bool) (func format : string) :
  bracketed (R := R) b (fun _ => b) (log_write P opts func format).
Proof. unfold log_write. bracket. Qed.

Hint Resolve bracketed_log_error_and_return
  bracketed_log_error_detach_and_return
  bracketed_log_exception_detach_and_return bracketed_detach_and_return
  bracketed_log_and_detach bracketed_log_write : bracket.

Lemma bracketed_try_attach {R} (func : string) (exit : Z -> R) :
  bracketed false (fun _ => true) (try_attach P opts func exit).
Proof. unfold try_attach. bracket. Qed.

Lemma bracketed_try_encode {R} (func : string) (exit : Z -> R)
    (name source : string) :
  bracketed true (fun _ => true) (try_encode P opts func exit name source).
Proof. unfold try_encode. bracket. Qed.

Lemma bracketed_try_call {R T} (func : string) (exit : Z -> R)
    (call_static : W -> string -> string -> list jvalue -> T * W)
    (method signature : string) (arguments : list jvalue) :
  bracketed true (fun _ => true)
    (try_call P opts func exit call_static method signature arguments).
Proof. unfold try_call. bracket. Qed.

Hint Resolve bracketed_try_attach bracketed_try_encode bracketed_try_call
  : bracket.

Lemma bracketed_try_void_call {R} (func : string) (exit : Z -> R)
    (method signature : string) (arguments : list jvalue) :
  bracketed true (fun _ => true)
    (try_void_call P opts func exit method signature arguments).
Proof. unfold try_void_call. bracket. Qed.

Hint Resolve bracketed_try_void_call : bracket.

(** *** The operations *)

Lemma bracketed_dfs_getattr (path : string) (status : memory) :
  bracketed false (fun _ => false) (dfs_getattr P opts abi path status).
Proof. unfold dfs_getattr. bracket. Qed.

Lemma bracketed_dfs_mknod (path : string) (mode device : Z) :
  bracketed false (fun _ => false) (dfs_mknod P opts path mode device).
Proof. unfold dfs_mknod. bracket. Qed.

Lemma bracketed_dfs_mkdir (path : string) (mode : Z) :
  bracketed false (fun _ => false) (dfs_mkdir P opts path mode).
Proof. unfold dfs_mkdir. bracket. Qed.

Lemma bracketed_dfs_delete (path : string) :
  bracketed false (fun _ => false) (dfs_delete P opts path).
Proof. unfold dfs_delete. bracket. Qed.

Lemma bracketed_dfs_truncate (path : string) (new_size : Z) :
  bracketed false (fun _ => false) (dfs_truncate P opts path new_size).
Proof. unfold dfs_truncate. bracket. Qed.

Lemma bracketed_dfs_open (path : string) (flags fh : Z) :
  bracketed false (fun _ => false) (dfs_open P opts path flags fh).
Proof. unfold dfs_open. bracket. Qed.

Lemma bracketed_dfs_read (path : string) (buffer : memory)
    (length offset fh : Z) :
  bracketed false (fun _ => false)
    (dfs_read P opts path buffer length offset fh).
Proof. unfold dfs_read. bracket. Qed.

Lemma bracketed_dfs_write (path : string) (buffer : memory)
    (length offset fh : Z) :
  bracketed false (fun _ => false)
    (dfs_write P opts path buffer length offset fh).
Proof. unfold dfs_write. bracket. Qed.

Lemma bracketed_dfs_opendir (path : string) :
  bracketed false (fun _ => false) (dfs_opendir P opts path).
Proof. unfold dfs_opendir. bracket. Qed.

Lemma bracketed_dfs_readdir (path : string) (fill : W -> string -> Z * W)
    (offset : Z) :
  bracketed false (fun _ => false) (dfs_readdir P opts path fill offset).
Proof. unfold dfs_readdir. bracket. Qed.

Lemma bracketed_dfs_access (path : string) (mode : Z) :
  bracketed false (fun _ => false) (dfs_access P opts path mode).
Proof. unfold dfs_access. bracket. Qed.

Lemma bracketed_dfs_init :
  bracketed false (fun _ => false) (dfs_init P opts).
Proof. unfold dfs_init. bracket. Qed.

Lemma bracketed_dfs_destroy :
  bracketed false (fun _ => false) (dfs_destroy P).
Proof. unfold dfs_destroy. bracket. Qed.

Lemma bracketed_run {R} (body : M W R R) (s : state W) :
  bracketed false (fun _ => false) body ->
  exists es,
    events (snd (run body s)) = (events s ++ es)%list
    /\ attach_count es = detach_count es
    /\ thread_attached false es = false.
Proof.
  intros H. destruct (H s) as (es & Hev & Hbal). exists es.
  unfold run. destruct (body s) as [[a | r] s']; cbn [fst snd] in *;
    destruct Hbal as [Hcount Hthread]; cbn [bool_count] in Hcount;
    auto.
Qed.

Lemma handle_bracketed (r : request) (s : state W) :
  exists es,
    events (snd (handle P opts abi r s)) = (events s ++ es)%list
    /\ attach_count es = detach_count es
    /\ thread_attached false es = false.
Proof.
  destruct r; cbn [handle];
    match goal with
    | |- context [run ?body s] =>
        let H := fresh "H" in
        assert (H : bracketed false (fun _ => false) body)
          by (auto using bracketed_dfs_getattr, bracketed_dfs_mknod,
                bracketed_dfs_mkdir, bracketed_dfs_delete,
                bracketed_dfs_truncate, bracketed_dfs_open,
                bracketed_dfs_read, bracketed_dfs_write,
                bracketed_dfs_opendir, bracketed_dfs_readdir,
                bracketed_dfs_access;
              apply bracketed_returns);
        apply (bracketed_run _ s) in H;
        destruct (run body s); exact H
    end.
Qed.

(** C5. Every operation, entered with the thread detached, adds to the
    trace as many detach calls as successful attachments and leaves the
    thread detached, on every path through it: whatever the platform
    answers to the attach, to the encoding of buffers, to the remote call
    and to the logging. The same holds of [dfs_init], where the
    attachment [JNI_CreateJavaVM] makes is counted with those of
    [java_attach], and of [dfs_destroy], which does neither. *)
Theorem attach_detach_balance (s : state W) :
  (forall r, exists es,
      events (snd (handle P opts abi r s)) = (events s ++ es)%list
      /\ attach_count es = detach_count es
      /\ thread_attached false es = false)
  /\ (exists es,
        events (snd (run (dfs_init P opts) s)) = (events s ++ es)%list
        /\ attach_count es = detach_count es
        /\ thread_attached false es = false)
  /\ (exists es,
        events (snd (run (dfs_destroy P) s)) = (events s ++ es)%list
        /\ attach_count es = detach_count es
        /\ thread_attached false es = false).
Proof.
  split; [intros r; apply handle_bracketed|].
  split; apply bracketed_run;
    [apply bracketed_dfs_init | apply bracketed_dfs_destroy].
Qed.

End Balance.

(** The trace of a read and of a failed getattr on the scripted machine. *)
Example balance_of_read_and_failed_getattr :
  let trace r :=
    events (snd (handle (Mock.machine Mock.sample) Mock.logging linux_x86_64
                   r Mock.start)) in
  map is_remote_call (trace (Read "/a.txt" Mock.dirty 4 0 0))
  = [false; true; false]
  /\ attach_count (trace (Read "/a.txt" Mock.dirty 4 0 0)) = 1%nat
  /\ detach_count (trace (Read "/a.txt" Mock.dirty 4 0 0)) = 1%nat
  /\ attach_count (trace (Getattr "/missing" Mock.dirty)) = 1%nat
  /\ detach_count (trace (Getattr "/missing" Mock.dirty)) = 1%nat.
Proof. vm_compute. repeat split. Qed.



(** ** The log on ordinary results *)

Create HintDb hush.

Section LogSilence.

Context {W jclass jthrowable : Type}.
Variable P : platform W jclass jthrowable.
Variable opts : option_list.
Variable abi : stat_layout.

Lemma quiet_ret {R A} (code : R -> Z) (a : A) :
  quiet (W := W) code (ret a).
Proof. intros s. reflexivity. Qed.

Lemma quiet_returns {R A} (code : R -> Z) (r : R) :
  quiet (W := W) (A := A) code (returns r).
Proof. intros s. left. reflexivity. Qed.

Lemma quiet_bind {R A B} (code : R -> Z) (m : M W R A)
    (k : A -> M W R B) :
  quiet code m -> (forall a, quiet code (k a)) -> quiet code (bind m k).
Proof.
  intros Hm Hk s. unfold bind. specialize (Hm s).
  destruct (m s) as [[a | r] s1]; [|exact Hm].
  specialize (Hk a s1).
  destruct (k a s1) as [[b | r] s2].
  - congruence.
  - destruct Hk as [Hk | Hk]; [left; congruence | right; exact Hk].
Qed.

Lemma quiet_silent {R A} (code : R -> Z) (m : M W R A) :
  silent m -> quiet code m.
Proof.
  intros Hm s. destruct (Hm s) as (a & s' & -> & Hlog & _). exact Hlog.
Qed.

Lemma quiet_java_attach {R} (code : R -> Z) : quiet code (java_attach P).
Proof.
  intros s. unfold java_attach.
  destruct (AttachCurrentThread P (world s)) as [attached w]. reflexivity.
Qed.

Lemma quiet_java_detach {R} (code : R -> Z) : quiet code (java_detach P).
Proof. intros s. reflexivity. Qed.

Lemma quiet_java_call {R T} (code : R -> Z)
    (call_static : W -> string -> string -> list jvalue -> T * W)
    (method signature : string) (arguments : list jvalue) :
  quiet code (java_call P call_static method signature arguments).
Proof.
  intros s. unfold java_call, java_record_exception.
  destruct (GetEnv P (world s)); cbn [negb]; [|reflexivity].
  destruct (FindClass P (world s) CLASS_NAME) as [cls|]; [|reflexivity].
  destruct (GetStaticMethodID P (world s) cls method signature);
    cbn [negb]; [|reflexivity].
  destruct (call_static (world s) method signature arguments).
  reflexivity.
Qed.

Lemma quiet_fill_children {R} (code : R -> Z)
    (fill : W -> string -> Z * W) (children : memory) (length : Z) :
  quiet (A := unit) code
    (fun s =>
       (Continue tt,
        set_world s
          (fill_children (Z.to_nat length) fill children length 0
             (world s)))).
Proof. intros s. reflexivity. Qed.

(** A step that always falls through, followed by a return of a logged
    code, is quiet whatever the step wrote. *)
Lemma quiet_then_return {R A B} (code : R -> Z) (m : M W R A) (r : R)
    (k : M W R B) :
  (forall s, exists a s', m s = (Continue a, s')) ->
  (forall s, exists s', k s = (Return r, s')) ->
  In (code r) logged_codes ->
  quiet code (bind m (fun _ => k)).
Proof.
  intros Hm Hk Hin s. unfold bind.
  destruct (Hm s) as (a & s1 & ->).
  destruct (Hk s1) as (s2 & ->).
  right. exact Hin.
Qed.

Lemma detach_then_return {R A} (r : R) (s : state W) :
  exists s', (java_detach P;; returns (A := A) r)%body s = (Return r, s').
Proof. eexists. reflexivity. Qed.

(** *** The macros

    [code] reads the [int] out of what a function returns, [exit] puts it
    in. *)

Lemma quiet_log_error_and_return {R A} (func : string) (exit : Z -> R)
    (code : R -> Z) (name : string) (error : Z) (format : string) :
  (forall z, code (exit z) = z) ->
  In (- error) logged_codes ->
  quiet code
    (log_error_and_return P opts func exit (A := A) name error format).
Proof.
  intros code_exit Hin. unfold log_error_and_return.
  eapply quiet_then_return.
  - intros s.
    destruct (log_write_real_step P opts (R := R)
                (func ++ ": " ++ name ++ ": " ++ format ++ newline) s)
      as (s' & H & _).
    eauto.
  - intros s. eexists. reflexivity.
  - rewrite code_exit. exact Hin.
Qed.

Lemma quiet_log_error_detach_and_return {R A} (func : string)
    (exit : Z -> R) (code : R -> Z) (name : string) (error : Z)
    (format : string) :
  (forall z, code (exit z) = z) ->
  In (- error) logged_codes ->
  quiet code
    (log_error_detach_and_return P opts func exit (A := A) name error
       format).
Proof.
  intros code_exit Hin. unfold log_error_detach_and_return.
  eapply quiet_then_return.
  - intros s.
    destruct (log_write_real_step P opts (R := R)
                (func ++ ": " ++ name ++ ": " ++ format ++ newline) s)
      as (s' & H & _).
    eauto.
  - apply detach_then_return.
  - rewrite code_exit. exact Hin.
Qed.

Lemma quiet_log_exception_detach_and_return {R A} (func : string)
    (exit : Z -> R) (code : R -> Z) (exception : jthrowable) :
  (forall z, code (exit z) = z) ->
  quiet code
    (log_exception_detach_and_return P opts func exit (A := A) exception).
Proof.
  intros code_exit s.
  pose proof (log_exception_detach_and_return_code P opts (A := A) func
                exit exception s) as Hcode.
  destruct (log_exception_detach_and_return P opts func exit exception s)
    as [f s']. cbn [fst] in Hcode. subst f.
  right. rewrite code_exit.
  pose proof (java_error_code_values P (world s) exception) as Hin.
  unfold logged_codes. cbn [In] in *. tauto.
Qed.

Lemma quiet_detach_and_return {R A} (exit : Z -> R) (code : R -> Z)
    (error : Z) :
  quiet code (detach_and_return P exit (A := A) error).
Proof. intros s. left. reflexivity. Qed.

Hint Resolve quiet_ret quiet_returns quiet_java_attach quiet_java_detach
  quiet_java_call quiet_fill_children quiet_log_error_and_return
  quiet_log_error_detach_and_return quiet_log_exception_detach_and_return
  quiet_detach_and_return : hush.
Hint Extern 1 (In _ logged_codes) =>
  unfold logged_codes; cbn [In]; tauto : hush.
Hint Extern 1 (forall z : Z, _ = z) => intros ?; reflexivity : hush.
Hint Extern 1 (quiet _ (java_encode _ _ _)) =>
  apply quiet_silent, silent_java_encode : hush.
Hint Extern 1 (quiet _ (java_encode_string _ _)) =>
  apply quiet_silent, silent_java_encode : hush.
Hint Extern 1 (quiet _ (java_decode _ _ _)) =>
  apply quiet_silent, silent_java_decode : hush.
Hint Extern 1 (quiet _ (java_decode_new _ _)) =>
  apply quiet_silent, silent_java_decode_new : hush.

Ltac hush :=
  cbn beta zeta;
  first
    [ solve [eauto with hush]
    | apply quiet_bind; [ hush | intros ?; hush ]
    | match goal with
      | |- quiet _ (if ?c then _ else _) => destruct c; hush
      | |- quiet _ (match ?x with _ => _ end) => destruct x; hush
      end ].

Lemma quiet_try_attach {R} (func : string) (exit : Z -> R)
    (code : R -> Z) :
  (forall z, code (exit z) = z) ->
  quiet code (try_attach P opts func exit).
Proof. intros code_exit. unfold try_attach. hush. Qed.

Lemma quiet_try_encode {R} (func : string) (exit : Z -> R)
    (code : R -> Z) (name source : string) :
  (forall z, code (exit z) = z) ->
  quiet code (try_encode P opts func exit name source).
Proof. intros code_exit. unfold try_encode. hush. Qed.

Lemma quiet_try_call {R T} (func : string) (exit : Z -> R)
    (code : R -> Z)
    (call_static : W -> string -> string -> list jvalue -> T * W)
    (method signature : string) (arguments : list jvalue) :
  (forall z, code (exit z) = z) ->
  quiet code
    (try_call P opts func exit call_static method signature arguments).
Proof. intros code_exit. unfold try_call. hush. Qed.

Hint Resolve quiet_try_attach quiet_try_encode quiet_try_call : hush.

Lemma quiet_try_void_call {R} (func : string) (exit : Z -> R)
    (code : R -> Z) (method signature : string)
    (arguments : list jvalue) :
  (forall z, code (exit z) = z) ->
  quiet code (try_void_call P opts func exit method signature arguments).
Proof. intros code_exit. unfold try_void_call. hush. Qed.

Hint Resolve quiet_try_void_call : hush.

(** *** The operations *)

Lemma quiet_dfs_getattr (path : string) (status : memory) :
  quiet fst (dfs_getattr P opts abi path status).
Proof. unfold dfs_getattr. hush. Qed.

Lemma quiet_dfs_mknod (path : string) (mode device : Z) :
  quiet id (dfs_mknod P opts path mode device).
Proof. unfold dfs_mknod. hush. Qed.

Lemma quiet_dfs_mkdir (path : string) (mode : Z) :
  quiet id (dfs_mkdir P opts path mode).
Proof. unfold dfs_mkdir. hush. Qed.

Lemma quiet_dfs_delete (path : string) :
  quiet id (dfs_delete P opts path).
Proof. unfold dfs_delete. hush. Qed.

Lemma quiet_dfs_truncate (path : string) (new_size : Z) :
  quiet id (dfs_truncate P opts path new_size).
Proof. unfold dfs_truncate. hush. Qed.

Lemma quiet_dfs_open (path : string) (flags fh : Z) :
  quiet fst (dfs_open P opts path flags fh).
Proof. unfold dfs_open. hush. Qed.

Lemma quiet_dfs_read (path : string) (buffer : memory)
    (length offset fh : Z) :
  quiet fst (dfs_read P opts path buffer length offset fh).
Proof. unfold dfs_read. hush. Qed.

Lemma quiet_dfs_write (path : string) (buffer : memory)
    (length offset fh : Z) :
  quiet id (dfs_write P opts path buffer length offset fh).
Proof. unfold dfs_write. hush. Qed.

Lemma quiet_dfs_opendir (path : string) :
  quiet id (dfs_opendir P opts path).
Proof. unfold dfs_opendir. hush. Qed.

Lemma quiet_dfs_readdir (path : string) (fill : W -> string -> Z * W)
    (offset : Z) :
  quiet id (dfs_readdir P opts path fill offset).
Proof. unfold dfs_readdir. hush. Qed.

Lemma quiet_dfs_access (path : string) (mode : Z) :
  quiet id (dfs_access P opts path mode).
Proof. unfold dfs_access. hush. Qed.

Lemma quiet_run {R} (code : R -> Z) (body : M W R R) (s : state W) :
  quiet code body ->
  log (snd (run body s)) = log s
  \/ In (code (fst (run body s))) logged_codes.
Proof.
  intros H. specialize (H s). unfold run.
  destruct (body s) as [[r | r] s']; cbn [fst snd]; auto.
Qed.

(** An operation that wrote to the log returned -EIO, -EINVAL, -ENOENT
    or -EPERM. *)
Lemma handle_quiet (r : request) (s : state W) :
  log (snd (handle P opts abi r s)) = log s
  \/ In (fst (handle P opts abi r s)) logged_codes.
Proof.
  destruct r; cbn [handle];
    try (left; reflexivity);
    try match goal with
        | |- context [run ?body s] =>
            let H := fresh "H" in
            first
              [ assert (H : quiet id body)
                  by auto using quiet_dfs_mknod, quiet_dfs_mkdir,
                       quiet_dfs_delete, quiet_dfs_truncate,
                       quiet_dfs_write, quiet_dfs_opendir,
                       quiet_dfs_readdir, quiet_dfs_access
              | assert (H : quiet fst body)
                  by auto using quiet_dfs_getattr, quiet_dfs_open,
                       quiet_dfs_read ];
            apply (quiet_run _ _ s) in H;
            destruct (run body s); exact H
        end.
Qed.

Lemma silent_code_not_logged (c : Z) :
  In c silent_codes -> ~ In c logged_codes.
Proof.
  unfold silent_codes, logged_codes, EACCES, EEXIST, EISDIR, ENOTDIR,
    EIO, EINVAL, ENOENT, EPERM.
  cbn [In]. lia.
Qed.

(** C8, as the code has it. A sequence of operations whose results are
    drawn only from -EACCES, -EEXIST, -EISDIR and -ENOTDIR leaves the log
    as it was. (-EPERM and -ENOENT are not in the list: an operation that
    returns one of them can have written to the log.) *)
Theorem log_silence (rs : list request) (s : state W) :
  (forall c, In c (fst (handle_all P opts abi rs s)) -> In c silent_codes) ->
  log (snd (handle_all P opts abi rs s)) = log s.
Proof.
  revert s. induction rs as [|r rest IH]; intros s Hcodes.
  - reflexivity.
  - cbn [handle_all] in *.
    pose proof (handle_quiet r s) as Hr.
    destruct (handle P opts abi r s) as [code s1]. cbn [fst snd] in Hr.
    specialize (IH s1).
    destruct (handle_all P opts abi rest s1) as [codes s2].
    cbn [fst snd] in *.
    rewrite IH by (intros c Hc; apply Hcodes; right; exact Hc).
    destruct Hr as [Hr | Hr]; [exact Hr|].
    exfalso. apply (silent_code_not_logged code); [|exact Hr].
    apply Hcodes. left. reflexivity.
Qed.

End LogSilence.

(** On the scripted machine, with a log file configured: creating and
    truncating the root, opening a file as a directory and asking for
    execute access to a file give -EEXIST, -EISDIR, -ENOTDIR and -EACCES
    and leave the log empty. *)
Lemma log_silence_witness :
  log (snd (handle_all (Mock.machine Mock.sample) Mock.logging linux_x86_64
              [Mknod "/" 0 0; Truncate "/" 0; Opendir "/a.txt";
               Access "/a.txt" X_OK] Mock.start))
  = log Mock.start.
Proof.
  apply log_silence. intros c Hc. vm_compute in Hc.
  unfold silent_codes, EACCES, EEXIST, EISDIR, ENOTDIR. cbn [In].
  intuition auto.
Defined.

(** C8 fails for -EPERM and -ENOENT. On the scripted machine with a log
    file configured, an unlink the remote side refuses returns -EPERM after
    writing its message to the log, and a getattr on a missing path returns
    -ENOENT after writing the FileNotFoundException to the log. *)
Lemma eperm_and_enoent_are_logged :
  let run_on r :=
    handle (Mock.machine Mock.sample) Mock.logging linux_x86_64 r
      Mock.start in
  fst (run_on (Unlink "/a.txt")) = - EPERM
  /\ log (snd (run_on (Unlink "/a.txt")))
     = ["dfs_delete: EPERM: cannot delete file or directory." ++ newline]
  /\ fst (run_on (Getattr "/missing" Mock.dirty)) = - ENOENT
  /\ log (snd (run_on (Getattr "/missing" Mock.dirty)))
     = ["dfs_getattr: ";
        "java/io/FileNotFoundException, java/io/IOException, "
        ++ "java/lang/Exception, java/lang/Throwable" ++ newline].
Proof. vm_compute. repeat split. Qed.

(** * Further properties of the code *)

(** ** The mode policy, bit by bit *)

Lemma land_single_bit (x k : Z) :
  0 <= k -> (Z.land x (2 ^ k) =? 0) = negb (Z.testbit x k).
Proof.
  intros Hk. destruct (Z.testbit x k) eqn:Hbit; cbn [negb].
  - apply Z.eqb_neq. intros Hzero.
    assert (H : Z.testbit (Z.land x (2 ^ k)) k = true)
      by (rewrite Z.land_spec, Hbit, Z.pow2_bits_eqb, Z.eqb_refl by lia;
          reflexivity).
    rewrite Hzero, Z.bits_0 in H. discriminate.
  - apply Z.eqb_eq. apply Z.bits_inj'. intros n Hn.
    rewrite Z.land_spec, Z.bits_0, Z.pow2_bits_eqb by lia.
    destruct (Z.eqb_spec k n) as [<- | _].
    + rewrite Hbit. reflexivity.
    + apply andb_false_r.
Qed.

Lemma c_true_single_bit (x k : Z) :
  0 <= k -> c_true (Z.land x (2 ^ k)) = Z.testbit x k.
Proof.
  intros Hk. unfold c_true. rewrite land_single_bit by exact Hk.
  apply negb_involutive.
Qed.

Lemma may_access_bits (mode request : Z) :
  dfs_may_access mode request
  = if (Z.testbit request 2 && negb (Z.testbit mode 8))
       || (Z.testbit request 1 && negb (Z.testbit mode 7))
       || (Z.testbit request 0 && negb (Z.testbit mode 6))
    then - EACCES else SUCCESS.
Proof.
  unfold dfs_may_access.
  change R_OK with (2 ^ 2). change W_OK with (2 ^ 1).
  change X_OK with (2 ^ 0). change S_IRUSR with (2 ^ 8).
  change S_IWUSR with (2 ^ 7). change S_IXUSR with (2 ^ 6).
  rewrite !c_true_single_bit by lia.
  destruct (Z.testbit request 2), (Z.testbit mode 8),
    (Z.testbit request 1), (Z.testbit mode 7),
    (Z.testbit request 0), (Z.testbit mode 6); reflexivity.
Qed.

(** X1. [dfs_may_access] grants a request exactly when, for each of read,
    write and execute that the request asks for (bits 2, 1 and 0), the mode
    has the owner's bit (bits 8, 7 and 6); otherwise it returns -EACCES.
    Its result is never anything but 0 or -EACCES, and a request that asks
    for none of the three is granted under every mode. *)
Theorem may_access_owner_policy (mode request : Z) :
  (dfs_may_access mode request = SUCCESS <->
   (Z.testbit request 2 = true -> Z.testbit mode 8 = true)
   /\ (Z.testbit request 1 = true -> Z.testbit mode 7 = true)
   /\ (Z.testbit request 0 = true -> Z.testbit mode 6 = true))
  /\ (dfs_may_access mode request = SUCCESS
      \/ dfs_may_access mode request = - EACCES)
  /\ (Z.land request 7 = 0 -> dfs_may_access mode request = SUCCESS).
Proof.
  rewrite may_access_bits. repeat split.
  - destruct (Z.testbit request 2), (Z.testbit mode 8); cbn;
      try discriminate; reflexivity.
  - destruct (Z.testbit request 2), (Z.testbit mode 8),
      (Z.testbit request 1), (Z.testbit mode 7); cbn in *;
      try discriminate; reflexivity.
  - destruct (Z.testbit request 2), (Z.testbit mode 8),
      (Z.testbit request 1), (Z.testbit mode 7),
      (Z.testbit request 0), (Z.testbit mode 6); cbn in *;
      try discriminate; reflexivity.
  - intros (H2 & H1 & H0).
    destruct (Z.testbit request 2), (Z.testbit mode 8),
      (Z.testbit request 1), (Z.testbit mode 7),
      (Z.testbit request 0), (Z.testbit mode 6); cbn;
      try reflexivity;
      try (specialize (H2 eq_refl); discriminate);
      try (specialize (H1 eq_refl); discriminate);
      try (specialize (H0 eq_refl); discriminate).
  - destruct ((Z.testbit request 2 && negb (Z.testbit mode 8))
              || (Z.testbit request 1 && negb (Z.testbit mode 7))
              || (Z.testbit request 0 && negb (Z.testbit mode 6)));
      auto.
  - intros Hnone.
    assert (Hbits : forall k, 0 <= k < 3 -> Z.testbit request k = false).
    { intros k Hk.
      assert (H : Z.testbit (Z.land request 7) k = false)
        by (rewrite Hnone; apply Z.bits_0).
      rewrite Z.land_spec in H. change 7 with (Z.ones 3) in H.
      rewrite Z.ones_spec_low in H by lia.
      rewrite andb_true_r in H. exact H. }
    rewrite (Hbits 2), (Hbits 1), (Hbits 0) by lia. reflexivity.
Qed.

(** X2. Only the owner's bits of the mode and the three low bits of the
    request count: clearing the group and other bits of the mode, or the
    bits of the request above the third, changes no decision. *)
Theorem may_access_ignores_other_bits (mode request : Z) :
  dfs_may_access (Z.land mode 0x1c0) request = dfs_may_access mode request
  /\ dfs_may_access mode (Z.land request 7) = dfs_may_access mode request.
Proof.
  rewrite !may_access_bits. split.
  - rewrite !Z.land_spec.
    change (Z.testbit 0x1c0 8) with true.
    change (Z.testbit 0x1c0 7) with true.
    change (Z.testbit 0x1c0 6) with true.
    rewrite !andb_true_r. reflexivity.
  - rewrite !Z.land_spec.
    change (Z.testbit 7 2) with true.
    change (Z.testbit 7 1) with true.
    change (Z.testbit 7 0) with true.
    rewrite !andb_true_r. reflexivity.
Qed.

(** ** The directory modification check *)

Section Modification.

Context {W jclass jthrowable : Type}.
Variable P : platform W jclass jthrowable.
Variable opts : option_list.
Variable abi : stat_layout.

Lemma modification_denied :
  Z.land (directory_mode opts) S_IWUSR = 0 ->
  dfs_directory_modification_allowed opts = false.
Proof.
  intros H. unfold dfs_directory_modification_allowed, dfs_may_access.
  rewrite H. cbn.
  destruct (negb (negb (Z.land (directory_mode opts) S_IRUSR =? 0)));
    reflexivity.
Qed.

(** X3. When the directory mode lacks the owner write bit, mknod, mkdir,
    unlink and rmdir on a path other than the root return -EACCES and leave
    the state as it was, whether or not directories may be traversed: the
    remote side is never asked. *)
Theorem modification_check (r : request) (s : state W) :
  modifies_directory r = true ->
  dfs_is_root (request_path r) = false ->
  Z.land (directory_mode opts) S_IWUSR = 0 ->
  handle P opts abi r s = (- EACCES, s).
Proof.
  intros Hkind Hroot Hmode.
  apply modification_denied in Hmode.
  destruct r; cbn [modifies_directory] in Hkind; try discriminate;
    cbn [request_path] in Hroot; cbn [handle];
    unfold dfs_mknod, dfs_mkdir, dfs_delete, run;
    rewrite Hroot, Hmode;
    destruct (dfs_traversals_allowed opts); reflexivity.
Qed.

End Modification.

Lemma modification_check_witness :
  handle (Mock.machine Mock.sample) read_only_directories linux_x86_64
    (Mkdir "/new" 0x1ed) Mock.start
  = (- EACCES, Mock.start).
Proof. apply modification_check; reflexivity. Defined.

(** ** Byte arrays there and back *)

Section Arrays.

Context {W jclass jthrowable : Type}.
Variable P : platform W jclass jthrowable.

(** X4. What [java_encode] puts into a Java array, [java_decode] gets out
    of it: when both succeed, the length reported is the length encoded,
    the destination holds the source's bytes below that length and is
    untouched elsewhere, and neither call adds to the log or the trace. *)
Theorem encode_decode_round_trip {R} (source destination : memory)
    (length received : Z) (array : jbyteArray) (result : memory)
    (s s1 s2 s3 : state W) :
  java_encode P (R := R) source length s = (Continue (Some array), s1) ->
  java_decode P (R := R) array destination s2
  = (Continue (Some (received, result)), s3) ->
  received = length
  /\ (forall i, 0 <= i < length -> result i = source i)
  /\ (forall i, i < 0 \/ length <= i -> result i = destination i)
  /\ log s1 = log s /\ events s1 = events s
  /\ log s3 = log s2 /\ events s3 = events s2.
Proof.
  unfold java_encode, java_decode. intros Hencode Hdecode.
  destruct (GetEnv P (world s)); cbn [negb] in Hencode; [|discriminate].
  destruct (NewByteArray P (world s) length) as [[] w1];
    cbn [negb] in Hencode; [|discriminate].
  destruct (GetByteArrayElements P w1) as [[] w2];
    cbn [negb] in Hencode; [|discriminate].
  injection Hencode as <- <-.
  destruct (GetEnv P (world s2)); cbn [negb] in Hdecode; [|discriminate].
  destruct (GetByteArrayElements P (world s2)) as [[] w3];
    cbn [negb] in Hdecode; [|discriminate].
  cbn [array_length array_elements] in Hdecode.
  injection Hdecode as <- <- <-.
  repeat split.
  - intros i Hi. unfold memcpy, in_range.
    replace ((0 <=? i) && (i <? 0 + length)) with true
      by (symmetry; apply andb_true_iff; split;
          [apply Z.leb_le | apply Z.ltb_lt]; lia).
    rewrite Z.sub_0_r.
    replace ((0 <=? i) && (i <? 0 + length)) with true
      by (symmetry; apply andb_true_iff; split;
          [apply Z.leb_le | apply Z.ltb_lt]; lia).
    rewrite Z.sub_0_r. reflexivity.
  - intros i Hi. unfold memcpy at 1, in_range.
    replace ((0 <=? i) && (i <? 0 + length)) with false; [reflexivity|].
    symmetry. apply andb_false_iff.
    destruct Hi; [left; apply Z.leb_gt | right; apply Z.ltb_ge]; lia.
Qed.

(** X5. [java_error_code] needs nothing of the platform to give an errno:
    without a JNI environment it gives EIO; otherwise it gives the code of
    the first entry of the table whose class the machine finds and the
    exception is an instance of, skipping entries whose class is not found,
    and EIO when there is none. The result is always EINVAL, ENOENT or EIO,
    never zero. *)
Theorem error_code_always_an_errno (w : W) (exception : jthrowable) :
  (GetEnv P w = false -> java_error_code P w exception = EIO)
  /\ (GetEnv P w = true ->
      java_error_code P w exception
      = match first_match P w exception exceptions with
        | Some entry => snd entry
        | None => EIO
        end)
  /\ In (java_error_code P w exception) [EINVAL; ENOENT; EIO]
  /\ 0 < java_error_code P w exception.
Proof.
  assert (Hvalues : In (java_error_code P w exception) [EINVAL; ENOENT; EIO]).
  { pose proof (java_error_code_values P w exception) as H.
    cbn [In] in *. lia. }
  repeat split.
  - intros Henv. unfold java_error_code. rewrite Henv. reflexivity.
  - intros Henv. unfold java_error_code. rewrite Henv. cbn [negb].
    apply error_code_search_first_match.
  - exact Hvalues.
  - cbn [In] in Hvalues. unfold EINVAL, ENOENT, EIO in Hvalues. lia.
Qed.

End Arrays.

(** The bytes of abc, encoded and decoded into a buffer whose bytes were
    all set. *)
Lemma encode_decode_round_trip_witness :
  exists array result s1 s3,
    java_encode (Mock.machine Mock.sample) (R := Z)
      (buffer_of_string "abc") 3 Mock.start
    = (Continue (Some array), s1)
    /\ java_decode (Mock.machine Mock.sample) (R := Z) array Mock.dirty
         Mock.start
       = (Continue (Some (3, result)), s3)
    /\ result 1 = "b"%byte
    /\ result 3 = xff.
Proof.
  do 4 eexists.
  split; [reflexivity|]. split; [reflexivity|].
  destruct (encode_decode_round_trip (Mock.machine Mock.sample) (R := Z)
              (buffer_of_string "abc") Mock.dirty 3 3 _ _
              Mock.start _ Mock.start _ eq_refl eq_refl)
    as (_ & Hinside & Houtside & _).
  split.
  - rewrite Hinside by lia. reflexivity.
  - rewrite Houtside by lia. reflexivity.
Defined.

(** ** Fields of the status structure *)

Lemma Z_of_byte_of_Z (n : Z) : Z_of_byte (byte_of_Z n) = n mod 256.
Proof.
  unfold Z_of_byte, byte_of_Z.
  assert (Hrange : 0 <= n mod 256 < 256) by (apply Z.mod_pos_bound; lia).
  destruct (Byte.of_N (Z.to_N (n mod 256))) as [b|] eqn:Hb.
  - apply Byte.to_of_N in Hb. rewrite Hb. apply Z2N.id. lia.
  - apply Byte.of_N_None_iff in Hb. lia.
Qed.

Lemma load_bytes_store (b : memory) (offset size value k : Z) (n : nat) :
  0 <= k -> k + Z.of_nat n <= size ->
  load_bytes (store b offset size value) (offset + k) n
  = (value / 256 ^ k) mod 256 ^ Z.of_nat n.
Proof.
  revert k. induction n as [|n IH]; intros k Hk Hfit.
  - cbn [load_bytes]. change (256 ^ Z.of_nat 0) with 1.
    symmetry. apply Z.mod_1_r.
  - cbn [load_bytes].
    replace (offset + k + 1) with (offset + (k + 1)) by lia.
    rewrite IH by lia.
    unfold store at 1, in_range.
    replace ((offset <=? offset + k) && (offset + k <? offset + size))
      with true
      by (symmetry; apply andb_true_iff; split;
          [apply Z.leb_le | apply Z.ltb_lt]; lia).
    rewrite Z_of_byte_of_Z.
    replace (offset + k - offset) with k by lia.
    assert (Hpow : 0 < 256 ^ k) by (apply Z.pow_pos_nonneg; lia).
    assert (Hpown : 0 < 256 ^ Z.of_nat n) by (apply Z.pow_pos_nonneg; lia).
    replace (256 ^ (k + 1)) with (256 ^ k * 256)
      by (rewrite Z.pow_add_r by lia; reflexivity).
    rewrite <- Z.div_div by lia.
    replace (256 ^ Z.of_nat (S n)) with (256 * 256 ^ Z.of_nat n)
      by (rewrite Nat2Z.inj_succ, Z.pow_succ_r by lia; reflexivity).
    rewrite Z.rem_mul_r by lia.
    reflexivity.
Qed.

(** A field read back after it was stored. *)
Lemma load_store_same (b : memory) (offset size value : Z) :
  0 <= size ->
  load (store b offset size value) offset size = value mod 256 ^ size.
Proof.
  intros Hsize. unfold load.
  replace offset with (offset + 0) at 2 by lia.
  rewrite load_bytes_store by lia.
  rewrite Z.pow_0_r, Z.div_1_r, Z2Nat.id by lia. reflexivity.
Qed.

Lemma load_bytes_outside (b b' : memory) (offset : Z) (n : nat) :
  (forall i, offset <= i < offset + Z.of_nat n -> b' i = b i) ->
  load_bytes b' offset n = load_bytes b offset n.
Proof.
  revert offset. induction n as [|n IH]; intros offset Hsame.
  - reflexivity.
  - cbn [load_bytes]. rewrite Hsame by lia.
    rewrite IH by (intros i Hi; apply Hsame; lia). reflexivity.
Qed.

(** A field read after another field, not overlapping it, was stored. *)
Lemma load_store_other (b : memory) (offset size value offset' size' : Z) :
  0 <= size' ->
  offset' + size' <= offset \/ offset + size <= offset' ->
  load (store b offset size value) offset' size' = load b offset' size'.
Proof.
  intros Hsize Hapart. unfold load. apply load_bytes_outside.
  intros i Hi. rewrite Z2Nat.id in Hi by lia.
  unfold store, in_range.
  replace ((offset <=? i) && (i <? offset + size)) with false;
    [reflexivity|].
  symmetry. apply andb_false_iff.
  destruct (Z.leb_spec offset i); [right; apply Z.ltb_ge; lia | left; reflexivity].
Qed.

(** Permission bits below the type bits: the type of [type | mode] is
    [type] and its permissions are [mode]. *)
Lemma type_and_permissions (type mode : Z) :
  Z.land type 0x1ff = 0 -> Z.land type S_IFMT = type ->
  0 <= mode < 512 ->
  Z.land (Z.lor type mode) S_IFMT = type
  /\ Z.land (Z.lor type mode) 0x1ff = mode.
Proof.
  intros Hlow Htype Hmode.
  assert (Hmask : Z.land mode 0x1ff = mode).
  { change 0x1ff with (Z.ones 9). rewrite Z.land_ones by lia.
    apply Z.mod_small. lia. }
  rewrite !Z.land_lor_distr_l, Htype, Hlow, Hmask. split.
  - rewrite <- Hmask, <- Z.land_assoc.
    change (Z.land 0x1ff S_IFMT) with 0.
    rewrite Z.land_0_r. apply Z.lor_0_r.
  - apply Z.lor_0_l.
Qed.

Lemma type_or_mode_small (type mode : Z) :
  0 <= type < 2 ^ 16 -> 0 <= mode < 512 -> 0 <= Z.lor type mode < 2 ^ 16.
Proof.
  intros Htype Hmode. split.
  - apply Z.lor_nonneg. lia.
  - destruct (Z.eq_dec (Z.lor type mode) 0) as [-> | Hnz]; [lia|].
    apply Z.log2_lt_pow2; [pose proof (Z.lor_nonneg type mode); lia|].
    rewrite Z.log2_lor by lia.
    apply Z.max_lub_lt.
    + destruct (Z.eq_dec type 0) as [-> | ?]; [cbn; lia|].
      apply Z.log2_lt_pow2; lia.
    + destruct (Z.eq_dec mode 0) as [-> | ?]; [cbn; lia|].
      apply Z.log2_lt_pow2; lia.
Qed.

Lemma mode_field_holds (size value : Z) :
  4 <= size -> 0 <= value < 2 ^ 16 -> value mod 256 ^ size = value.
Proof.
  intros Hsize Hvalue. apply Z.mod_small. split; [lia|].
  apply Z.lt_le_trans with (256 ^ 4); [change (256 ^ 4) with (2 ^ 32); lia|].
  apply Z.pow_le_mono_r; lia.
Qed.

Section GetattrResult.

Context {W jclass jthrowable : Type}.
Variable P : platform W jclass jthrowable.
Variable opts : option_list.
Variable abi : stat_layout.

(** X6. getattr on a directory. When the thread attaches, the path is
    encoded and the remote [directory] call answers true, [dfs_getattr]
    returns 0; with a directory mode of permission bits only (as
    [parse_options] leaves it) the [st_mode] it stored reads back as
    S_IFDIR | directory-mode, whose type is directory and whose permissions
    are the configured ones, and [st_nlink] reads back as 1. No [size] call
    is made: the state is that after the [directory] call and a detach. *)
Theorem getattr_of_directory (path : string) (status : memory)
    (java_path : jbyteArray) (s s1 s2 s3 : state W) :
  fields_apart abi ->
  0 <= directory_mode opts < 512 ->
  dfs_is_root path = true \/ dfs_traversals_allowed opts = true ->
  java_attach P (R := Z * memory) s = (Continue true, s1) ->
  java_encode_string P (R := Z * memory) path s1
  = (Continue (Some java_path), s2) ->
  java_call P (R := Z * memory) (CallStaticBooleanMethodV P)
    "directory" "([B)Z" [ArgBytes java_path] s2
  = (Continue (Called true None), s3) ->
  let result := run (dfs_getattr P opts abi path status) s in
  let st_mode :=
    load (snd (fst result)) (st_mode_offset abi) (st_mode_size abi) in
  fst (fst result) = 0
  /\ st_mode = Z.lor S_IFDIR (directory_mode opts)
  /\ Z.land st_mode S_IFMT = S_IFDIR
  /\ Z.land st_mode 0x1ff = directory_mode opts
  /\ load (snd (fst result)) (st_nlink_offset abi) (st_nlink_size abi) = 1
  /\ snd result
     = add_event (set_world s3 (DetachCurrentThread P (world s3))) Detached.
Proof.
  intros (Hmode_size & Hnlink_size & Hsize_size & Hmn & Hsn & Hsm)
    Hperm Hreach Hattach Hencode Hcall result st_mode.
  assert (Hresult :
    result
    = ((0, store (store (memset status 0 x00 (sizeof_pointer abi))
                    (st_mode_offset abi) (st_mode_size abi)
                    (Z.lor S_IFDIR (directory_mode opts)))
             (st_nlink_offset abi) (st_nlink_size abi) 1),
       add_event (set_world s3 (DetachCurrentThread P (world s3)))
         Detached)).
  { subst result. unfold dfs_getattr, run.
    replace (negb (dfs_is_root path) && negb (dfs_traversals_allowed opts))
      with false
      by (destruct Hreach as [-> | ->];
          [reflexivity | symmetry; apply andb_false_r]).
    unfold bind, try_attach, try_encode, try_call, bind.
    rewrite Hattach. cbn [negb ret]. rewrite Hencode. cbn [ret].
    rewrite Hcall. reflexivity. }
  assert (Hst_mode : st_mode = Z.lor S_IFDIR (directory_mode opts)).
  { subst st_mode. rewrite Hresult. cbn [fst snd].
    rewrite load_store_other by lia.
    rewrite load_store_same by lia.
    apply mode_field_holds; [lia|].
    apply type_or_mode_small; [vm_compute; split; [discriminate | reflexivity]
                              | exact Hperm]. }
  rewrite Hst_mode. rewrite Hresult. cbn [fst snd].
  destruct (type_and_permissions S_IFDIR (directory_mode opts))
    as [Htype Hperms]; [reflexivity | reflexivity | exact Hperm |].
  repeat split; try assumption.
  rewrite load_store_same by lia.
  apply Z.mod_small. split; [lia|].
  apply Z.lt_le_trans with (256 ^ 1); [reflexivity|].
  apply Z.pow_le_mono_r; lia.
Qed.

(** X7. getattr on a file. When the remote [directory] call answers false
    and the remote [size] call answers a size, [dfs_getattr] returns 0; with
    a file mode of permission bits only the [st_mode] it stored reads back
    as S_IFREG | file-mode, whose type is regular file and whose permissions
    are the configured ones; [st_size] reads back as the size the remote
    side gave (a non-negative [jlong]) and [st_nlink] as 1. *)
Theorem getattr_of_file (path : string) (status : memory)
    (java_path : jbyteArray) (size : Z) (s s1 s2 s3 s4 : state W) :
  fields_apart abi ->
  0 <= file_mode opts < 512 ->
  0 <= size < 2 ^ 63 ->
  dfs_is_root path = true \/ dfs_traversals_allowed opts = true ->
  java_attach P (R := Z * memory) s = (Continue true, s1) ->
  java_encode_string P (R := Z * memory) path s1
  = (Continue (Some java_path), s2) ->
  java_call P (R := Z * memory) (CallStaticBooleanMethodV P)
    "directory" "([B)Z" [ArgBytes java_path] s2
  = (Continue (Called false None), s3) ->
  java_call P (R := Z * memory) (CallStaticLongMethodV P)
    "size" "([B)J" [ArgBytes java_path] s3
  = (Continue (Called size None), s4) ->
  let result := run (dfs_getattr P opts abi path status) s in
  let st_mode :=
    load (snd (fst result)) (st_mode_offset abi) (st_mode_size abi) in
  fst (fst result) = 0
  /\ st_mode = Z.lor S_IFREG (file_mode opts)
  /\ Z.land st_mode S_IFMT = S_IFREG
  /\ Z.land st_mode 0x1ff = file_mode opts
  /\ load (snd (fst result)) (st_size_offset abi) (st_size_size abi) = size
  /\ load (snd (fst result)) (st_nlink_offset abi) (st_nlink_size abi) = 1.
Proof.
  intros (Hmode_size & Hnlink_size & Hsize_size & Hmn & Hsn & Hsm)
    Hperm Hsize Hreach Hattach Hencode Hdirectory Hcall result st_mode.
  assert (Hresult :
    fst result
    = (0, store (store (store (memset status 0 x00 (sizeof_pointer abi))
                          (st_mode_offset abi) (st_mode_size abi)
                          (Z.lor S_IFREG (file_mode opts)))
                   (st_size_offset abi) (st_size_size abi) size)
            (st_nlink_offset abi) (st_nlink_size abi) 1)).
  { subst result. unfold dfs_getattr, run.
    replace (negb (dfs_is_root path) && negb (dfs_traversals_allowed opts))
      with false
      by (destruct Hreach as [-> | ->];
          [reflexivity | symmetry; apply andb_false_r]).
    unfold bind, try_attach, try_encode, try_call, bind.
    rewrite Hattach. cbn [negb ret]. rewrite Hencode. cbn [ret].
    rewrite Hdirectory. cbn [ret]. rewrite Hcall. reflexivity. }
  assert (Hst_mode : st_mode = Z.lor S_IFREG (file_mode opts)).
  { subst st_mode. rewrite Hresult. cbn [fst snd].
    rewrite !load_store_other by lia.
    rewrite load_store_same by lia.
    apply mode_field_holds; [lia|].
    apply type_or_mode_small; [vm_compute; split; [discriminate | reflexivity]
                              | exact Hperm]. }
  rewrite Hst_mode. rewrite Hresult. cbn [fst snd].
  destruct (type_and_permissions S_IFREG (file_mode opts))
    as [Htype Hperms]; [reflexivity | reflexivity | exact Hperm |].
  repeat split; try assumption.
  - rewrite load_store_other by lia.
    rewrite load_store_same by lia.
    rewrite Hsize_size. apply Z.mod_small.
    change (256 ^ 8) with (2 ^ 64). lia.
  - rewrite load_store_same by lia.
    apply Z.mod_small. split; [lia|].
    apply Z.lt_le_trans with (256 ^ 1); [reflexivity|].
    apply Z.pow_le_mono_r; lia.
Qed.

End GetattrResult.

Lemma linux_fields_apart : fields_apart linux_x86_64.
Proof. unfold fields_apart. cbn. lia. Qed.

(** Scenario 1 of the specification, for a directory below the root: mode
    040755 and one link. *)
Lemma getattr_of_directory_witness :
  let result :=
    run (dfs_getattr (Mock.machine Mock.sample) options linux_x86_64 "/d"
           Mock.dirty) Mock.start in
  fst (fst result) = 0
  /\ load (snd (fst result)) 24 4 = 0x41ed
  /\ load (snd (fst result)) 16 8 = 1.
Proof.
  assert (Hperm : 0 <= directory_mode options < 512) by (cbn; lia).
  pose proof (getattr_of_directory (Mock.machine Mock.sample) options
                linux_x86_64 "/d" Mock.dirty _ Mock.start _ _ _
                linux_fields_apart Hperm
                (or_intror eq_refl) eq_refl eq_refl eq_refl)
    as (Hcode & Hmode & _ & _ & Hnlink & _).
  split; [exact Hcode|]. split; [exact Hmode | exact Hnlink].
Defined.

(** The file of ten bytes: mode 0100644, size 10, one link. *)
Lemma getattr_of_file_witness :
  let result :=
    run (dfs_getattr (Mock.machine Mock.sample) options linux_x86_64
           "/a.txt" Mock.dirty) Mock.start in
  fst (fst result) = 0
  /\ load (snd (fst result)) 24 4 = 0x81a4
  /\ load (snd (fst result)) 48 8 = 10.
Proof.
  assert (Hperm : 0 <= file_mode options < 512) by (cbn; lia).
  assert (Hten : 0 <= 10 < 2 ^ 63) by lia.
  pose proof (getattr_of_file (Mock.machine Mock.sample) options
                linux_x86_64 "/a.txt" Mock.dirty _ 10 Mock.start _ _ _ _
                linux_fields_apart Hperm Hten
                (or_intror eq_refl) eq_refl eq_refl eq_refl eq_refl)
    as (Hcode & Hmode & _ & _ & Hsize & _).
  split; [exact Hcode|]. split; [exact Hmode | exact Hsize].
Defined.

(** ** Opening directories *)

Section Opendir.

Context {W jclass jthrowable : Type}.
Variable P : platform W jclass jthrowable.
Variable opts : option_list.

Lemma listing_allowed_iff_read_bit :
  dfs_listing_allowed opts
  = negb (Z.land (directory_mode opts) S_IRUSR =? 0).
Proof.
  unfold dfs_listing_allowed, dfs_may_access, c_true.
  destruct (Z.land (directory_mode opts) S_IRUSR =? 0); reflexivity.
Qed.

(** X8. opendir asks the remote side what the path is before it looks at
    the listing permission. Once the remote [directory] call has answered:
    a file gives -ENOTDIR whatever the directory mode; a directory gives
    -EACCES when the directory mode lacks the owner read bit and 0 when it
    has it. The root is exempt from the traversal check but not from
    these. In each case the thread has been detached. *)
Theorem opendir_type_then_listing (path : string) (is_directory : bool)
    (java_path : jbyteArray) (s s1 s2 s3 : state W) :
  dfs_is_root path = true \/ dfs_traversals_allowed opts = true ->
  java_attach P (R := Z) s = (Continue true, s1) ->
  java_encode_string P (R := Z) path s1 = (Continue (Some java_path), s2) ->
  java_call P (R := Z) (CallStaticBooleanMethodV P) "directory" "([B)Z"
    [ArgBytes java_path] s2
  = (Continue (Called is_directory None), s3) ->
  let result := run (dfs_opendir P opts path) s in
  (is_directory = false -> fst result = - ENOTDIR)
  /\ (is_directory = true ->
      Z.land (directory_mode opts) S_IRUSR = 0 -> fst result = - EACCES)
  /\ (is_directory = true ->
      Z.land (directory_mode opts) S_IRUSR <> 0 -> fst result = SUCCESS)
  /\ snd result
     = add_event (set_world s3 (DetachCurrentThread P (world s3))) Detached.
Proof.
  intros Hreach Hattach Hencode Hcall result.
  assert (Hresult :
    result
    = (if negb is_directory then - ENOTDIR
       else if negb (dfs_listing_allowed opts) then - EACCES else SUCCESS,
       add_event (set_world s3 (DetachCurrentThread P (world s3)))
         Detached)).
  { subst result. unfold dfs_opendir, run.
    replace (negb (dfs_is_root path) && negb (dfs_traversals_allowed opts))
      with false
      by (destruct Hreach as [-> | ->];
          [reflexivity | symmetry; apply andb_false_r]).
    unfold bind, try_attach, try_encode, try_call, bind.
    rewrite Hattach. cbn [negb ret]. rewrite Hencode. cbn [ret].
    rewrite Hcall. cbn [ret java_detach].
    destruct is_directory; cbn [negb];
      [destruct (dfs_listing_allowed opts)|]; reflexivity. }
  rewrite Hresult. cbn [fst snd]. rewrite listing_allowed_iff_read_bit.
  repeat split.
  - intros ->. reflexivity.
  - intros -> ->. reflexivity.
  - intros -> Hbit. apply Z.eqb_neq in Hbit. rewrite Hbit. reflexivity.
Qed.

End Opendir.

(** A directory that may be traversed but not listed (mode 0355). *)
Lemma opendir_type_then_listing_witness :
  fst (run (dfs_opendir (Mock.machine Mock.sample) unlistable_directories
              "/d") Mock.start) = - EACCES
  /\ fst (run (dfs_opendir (Mock.machine Mock.sample) unlistable_directories
                 "/a.txt") Mock.start) = - ENOTDIR.
Proof.
  split.
  - apply (opendir_type_then_listing (Mock.machine Mock.sample)
             unlistable_directories "/d" true _ Mock.start _ _ _
             (or_intror eq_refl) eq_refl eq_refl eq_refl);
      reflexivity.
  - apply (opendir_type_then_listing (Mock.machine Mock.sample)
             unlistable_directories "/a.txt" false _ Mock.start _ _ _
             (or_intror eq_refl) eq_refl eq_refl eq_refl);
      reflexivity.
Defined.

(** ** What a body does to the state, step by step *)

Create HintDb sat.

Section Satisfies.

Context {W jclass jthrowable : Type}.
Variable P : platform W jclass jthrowable.
Variable opts : option_list.
Variable abi : stat_layout.

Lemma reach_trans (okE : event -> Prop) (okL : string -> Prop)
    (s1 s2 s3 : state W) :
  reach okE okL s1 s2 -> reach okE okL s2 s3 -> reach okE okL s1 s3.
Proof.
  intros H12 H23. induction H23.
  - exact H12.
  - apply reach_world. auto.
  - apply reach_event; auto.
  - apply reach_log; auto.
Qed.

(** The trace and the log only grow, by events and entries admitted. *)
Lemma reach_grows (okE : event -> Prop) (okL : string -> Prop)
    (s s' : state W) :
  reach okE okL s s' ->
  exists es texts,
    events s' = (events s ++ es)%list /\ Forall okE es
    /\ log s' = (log s ++ texts)%list /\ Forall okL texts.
Proof.
  induction 1 as [s | s s' w _ IH | s s' e _ IH He | s s' text _ IH Ht].
  - exists [], []. rewrite !app_nil_r. auto.
  - exact IH.
  - destruct IH as (es & texts & Hev & Hes & Hlog & Htexts).
    exists (es ++ [e])%list, texts. cbn [events log add_event].
    rewrite Hev, app_assoc. repeat split; auto.
    apply Forall_app. auto.
  - destruct IH as (es & texts & Hev & Hes & Hlog & Htexts).
    exists es, (texts ++ [text])%list. cbn [events log add_log].
    rewrite Hlog, app_assoc. repeat split; auto.
    apply Forall_app. auto.
Qed.

Section Rules.

Context {R : Type}.
Variable okE : event -> Prop.
Variable okL : string -> Prop.
Variable okR : R -> Prop.

Lemma sat_ret {A} (a : A) :
  satisfies (W := W) okE okL okR (fun _ => True) (ret a).
Proof. intros s. split; [apply reach_here | exact I]. Qed.

Lemma sat_returns {A} (okA : A -> Prop) (r : R) :
  okR r -> satisfies (W := W) okE okL okR okA (returns r).
Proof. intros Hr s. split; [apply reach_here | exact Hr]. Qed.

Lemma sat_bind {A B} (okA : A -> Prop) (okB : B -> Prop) (m : M W R A)
    (k : A -> M W R B) :
  satisfies okE okL okR okA m ->
  (forall a, okA a -> satisfies okE okL okR okB (k a)) ->
  satisfies okE okL okR okB (bind m k).
Proof.
  intros Hm Hk s. unfold bind. destruct (Hm s) as [Hreach Hvalue].
  destruct (m s) as [[a | r] s1]; cbn [fst snd] in *.
  - destruct (Hk a Hvalue s1) as [Hreach' Hvalue'].
    split; [eapply reach_trans; eassumption | exact Hvalue'].
  - split; assumption.
Qed.

Lemma sat_weaken {A} (okA okA' : A -> Prop) (m : M W R A) :
  satisfies okE okL okR okA m -> (forall a, okA a -> okA' a) ->
  satisfies okE okL okR okA' m.
Proof.
  intros Hm Himp s. destruct (Hm s) as [Hreach Hvalue].
  split; [exact Hreach|]. destruct (fst (m s)); auto.
Qed.

(** *** Steps *)

Lemma sat_java_attach :
  okE Attached -> okE AttachFailed ->
  satisfies okE okL okR (fun _ => True) (java_attach P).
Proof.
  intros Hok Hfailed s. unfold java_attach.
  destruct (AttachCurrentThread P (world s)) as [[] w]; cbn [fst snd];
    (split; [|exact I]);
    apply reach_event; auto; apply reach_world, reach_here.
Qed.

Lemma sat_java_detach :
  okE Detached -> satisfies okE okL okR (fun _ => True) (java_detach P).
Proof.
  intros Hok s. cbn. split; [|exact I].
  apply reach_event; auto. apply reach_world, reach_here.
Qed.

Lemma sat_silent {A} (m : M W R A) :
  (forall s, exists a w, m s = (Continue a, set_world s w)) ->
  satisfies okE okL okR (fun _ => True) m.
Proof.
  intros Hm s. destruct (Hm s) as (a & w & ->). cbn [fst snd].
  split; [apply reach_world, reach_here | exact I].
Qed.

Lemma set_world_same (s : state W) : s = set_world s (world s).
Proof. destruct s. reflexivity. Qed.

Lemma sat_java_encode (source : memory) (length : Z) :
  satisfies okE okL okR
    (fun result =>
       result = None
       \/ result = Some {| array_length := length;
                           array_elements :=
                             memcpy (fun _ => x00) 0 source length |})
    (java_encode P source length).
Proof.
  intros s. unfold java_encode.
  destruct (GetEnv P (world s)); cbn [negb fst snd];
    [|split; [apply reach_here | auto]].
  destruct (NewByteArray P (world s) length) as [[] w1]; cbn [negb fst snd];
    [|split; [apply reach_world, reach_here | auto]].
  destruct (GetByteArrayElements P w1) as [[] w2]; cbn [negb fst snd];
    (split; [apply reach_world, reach_here | auto]).
Qed.

Lemma sat_java_decode (byte_array : jbyteArray) (destination : memory) :
  satisfies okE okL okR
    (fun result =>
       result = None
       \/ result = Some (array_length byte_array,
                         memcpy destination 0 (array_elements byte_array)
                           (array_length byte_array)))
    (java_decode P byte_array destination).
Proof.
  intros s. unfold java_decode.
  destruct (GetEnv P (world s)); cbn [negb fst snd];
    [|split; [apply reach_here | auto]].
  destruct (GetByteArrayElements P (world s)) as [[] w1];
    cbn [negb fst snd];
    (split; [apply reach_world, reach_here | auto]).
Qed.

Lemma sat_java_decode_new (byte_array : jbyteArray) :
  satisfies okE okL okR (fun _ => True) (java_decode_new P byte_array).
Proof.
  intros s. unfold java_decode_new.
  destruct (GetEnv P (world s)); cbn [negb];
    [|split; [apply reach_here | exact I]].
  exact (sat_weaken _ _ _ (sat_java_decode byte_array (fun _ => x00))
           (fun _ _ => I) s).
Qed.

Lemma sat_java_call {T}
    (call_static : W -> string -> string -> list jvalue -> T * W)
    (method signature : string) (arguments : list jvalue) :
  okE (RemoteCall method signature arguments) ->
  satisfies okE okL okR (fun _ => True)
    (java_call P call_static method signature arguments).
Proof.
  intros Hok s. unfold java_call, java_record_exception.
  destruct (GetEnv P (world s)); cbn [negb fst snd];
    [|split; [apply reach_here | exact I]].
  destruct (FindClass P (world s) CLASS_NAME) as [cls|]; cbn [fst snd];
    [|split; [apply reach_world, reach_here | exact I]].
  destruct (GetStaticMethodID P (world s) cls method signature);
    cbn [negb fst snd];
    [|split; [apply reach_world, reach_here | exact I]].
  destruct (call_static (world s) method signature arguments) as [result w1].
  cbn [fst snd]. split; [|exact I].
  apply reach_event; auto. apply reach_world, reach_here.
Qed.

Lemma sat_java_call_from {T}
    (call_static : W -> string -> string -> list jvalue -> T * W)
    (method signature : string) (arguments : list jvalue) :
  okE (RemoteCall method signature arguments) ->
  satisfies okE okL okR
    (fun status =>
       match status with
       | Called result _ =>
           exists w, result = fst (call_static w method signature arguments)
       | CallFailed _ => True
       end)
    (java_call P call_static method signature arguments).
Proof.
  intros Hok s. unfold java_call, java_record_exception.
  destruct (GetEnv P (world s)); cbn [negb fst snd];
    [|split; [apply reach_here | exact I]].
  destruct (FindClass P (world s) CLASS_NAME) as [cls|]; cbn [fst snd];
    [|split; [apply reach_world, reach_here | exact I]].
  destruct (GetStaticMethodID P (world s) cls method signature);
    cbn [negb fst snd];
    [|split; [apply reach_world, reach_here | exact I]].
  destruct (call_static (world s) method signature arguments)
    as [result w1] eqn:Hcall.
  cbn [fst snd]. split.
  - apply reach_event; auto. apply reach_world, reach_here.
  - exists (world s). rewrite Hcall. reflexivity.
Qed.

Lemma sat_fill_children (fill : W -> string -> Z * W) (children : memory)
    (length : Z) :
  satisfies (A := unit) okE okL okR (fun _ => True)
    (fun s =>
       (Continue tt,
        set_world s
          (fill_children (Z.to_nat length) fill children length 0
             (world s)))).
Proof.
  intros s. cbn [fst snd]. split; [apply reach_world, reach_here | exact I].
Qed.

(** *** Logging *)

Hypothesis log_ok : log_file opts <> None -> forall text, okL text.

Lemma sat_log_write_real (message : string) :
  satisfies okE okL okR (fun _ => True) (log_write_real P opts message).
Proof.
  intros s. unfold log_write_real.
  case_eq (log_file opts); [intros name Hfile | intros Hfile];
    cbn [fst snd]; [|split; [apply reach_here | exact I]].
  destruct (pthread_mutex_lock P (world s)) as [[] w1]; cbn [negb fst snd];
    [|split; [apply reach_world, reach_here | exact I]].
  destruct (fopen P w1 name "a") as [[] w2]; cbn [negb fst snd];
    (split; [|exact I]).
  - apply reach_log; [apply reach_world, reach_here|].
    apply log_ok. rewrite Hfile. discriminate.
  - apply reach_world, reach_here.
Qed.

Lemma sat_java_describe_exception (exception : jthrowable)
    (filename : string) (stack_trace : bool) :
  log_file opts <> None ->
  satisfies okE okL okR (fun _ => True)
    (java_describe_exception P exception filename stack_trace).
Proof.
  intros Hfile s. unfold java_describe_exception.
  destruct (GetEnv P (world s)); cbn [negb];
    [|split; [apply reach_here | exact I]].
  unfold java_encode_string.
  destruct (sat_java_encode (buffer_of_string filename) (strlen filename) s)
    as [Hreach _].
  destruct (java_encode P (buffer_of_string filename) (strlen filename) s)
    as [[[array|] | r] s1]; cbn [fst snd] in *;
    try (split; [exact Hreach | exact I]).
  destruct (PrintWriter_print P (world s1) exception stack_trace)
    as [[text|] w2]; cbn [fst snd]; (split; [|exact I]).
  - apply reach_log; [apply reach_world; exact Hreach|].
    apply log_ok. exact Hfile.
  - apply reach_world. exact Hreach.
Qed.

Lemma sat_log_exception_real (exception : jthrowable) (stack_trace : bool) :
  satisfies okE okL okR (fun _ => True)
    (log_exception_real P opts exception stack_trace).
Proof.
  intros s. unfold log_exception_real.
  case_eq (log_file opts); [intros name Hfile | intros Hfile];
    cbn [fst snd]; [|split; [apply reach_here | exact I]].
  destruct (pthread_mutex_lock P (world s)) as [[] w1]; cbn [negb fst snd];
    [|split; [apply reach_world, reach_here | exact I]].
  assert (Hsome : log_file opts <> None) by (rewrite Hfile; discriminate).
  destruct (sat_java_describe_exception exception name stack_trace Hsome
              (set_world s w1)) as [Hreach _].
  destruct (java_describe_exception P exception name stack_trace
              (set_world s w1)) as [f s2].
  cbn [fst snd] in *. split; [|exact I].
  apply reach_world. eapply reach_trans; [|exact Hreach].
  apply reach_world, reach_here.
Qed.

End Rules.

End Satisfies.

(** *** The macros *)

Section SatisfiesMacros.

Context {W jclass jthrowable : Type}.
Variable P : platform W jclass jthrowable.
Variable opts : option_list.
Context {R : Type}.
Variable okE : event -> Prop.
Variable okL : string -> Prop.
Variable okR : R -> Prop.
Variable func : string.
Variable exit : Z -> R.
Hypothesis usual : standard opts okE okL okR exit.

Lemma usual_log : log_file opts <> None -> forall text, okL text.
Proof. apply usual. Qed.

Lemma usual_detached : okE Detached.
Proof. apply usual. Qed.

Lemma sat_log_error_and_return {A} (okA : A -> Prop) (name : string)
    (error : Z) (format : string) :
  okR (exit (- error)) ->
  satisfies okE okL okR okA
    (log_error_and_return P opts func exit name error format).
Proof.
  intros Hr. unfold log_error_and_return.
  eapply sat_bind; [apply sat_log_write_real, usual_log|].
  intros _ _. apply sat_returns. exact Hr.
Qed.

Lemma sat_detach_and_return {A} (okA : A -> Prop) (error : Z) :
  okE Detached ->
  okR (exit (- error)) ->
  satisfies okE okL okR okA (detach_and_return P exit error).
Proof.
  intros Hdetached Hr. unfold detach_and_return.
  eapply sat_bind; [apply sat_java_detach, Hdetached|].
  intros _ _. apply sat_returns. exact Hr.
Qed.

Lemma sat_log_error_detach_and_return {A} (okA : A -> Prop) (name : string)
    (error : Z) (format : string) :
  okR (exit (- error)) ->
  satisfies okE okL okR okA
    (log_error_detach_and_return P opts func exit name error format).
Proof.
  intros Hr. unfold log_error_detach_and_return.
  eapply sat_bind; [apply sat_log_write_real, usual_log|].
  intros _ _. apply (sat_detach_and_return okA error usual_detached Hr).
Qed.

Lemma sat_log_exception_detach_and_return {A} (okA : A -> Prop)
    (exception : jthrowable) :
  satisfies okE okL okR okA
    (log_exception_detach_and_return P opts func exit exception).
Proof.
  intros s.
  pose (code := java_error_code P (world s) exception).
  assert (Hr : okR (exit (- code))).
  { pose proof (java_error_code_values P (world s) exception) as Hin.
    destruct usual as (_ & _ & _ & _ & Hio & Hinval & Hnoent).
    subst code. cbn [In] in Hin.
    destruct Hin as [<- | [<- | [<- | []]]]; assumption. }
  assert (H : satisfies okE okL okR okA
                (log_write_real P opts (func ++ ": ");;
                 log_exception_real P opts exception false;;
                 java_detach P;;
                 returns (exit (- code)))%body).
  { eapply sat_bind; [apply sat_log_write_real, usual_log|].
    intros _ _.
    eapply sat_bind; [apply sat_log_exception_real, usual_log|].
    intros _ _. apply (sat_detach_and_return okA code usual_detached Hr). }
  exact (H s).
Qed.

Lemma sat_try_attach :
  satisfies okE okL okR (fun _ => True) (try_attach P opts func exit).
Proof.
  unfold try_attach.
  eapply sat_bind; [apply sat_java_attach; apply usual|].
  intros [] _; cbn [negb].
  - apply sat_ret.
  - apply sat_log_error_and_return. apply usual.
Qed.

Lemma sat_try_encode (name source : string) :
  satisfies okE okL okR (fun array => array = path_array source)
    (try_encode P opts func exit name source).
Proof.
  unfold try_encode, java_encode_string.
  eapply sat_bind; [apply sat_java_encode|].
  intros result [-> | ->].
  - apply sat_log_error_detach_and_return. apply usual.
  - intros s. split; [apply reach_here | reflexivity].
Qed.

Lemma sat_try_call {T}
    (call_static : W -> string -> string -> list jvalue -> T * W)
    (method signature : string) (arguments : list jvalue) :
  okE (RemoteCall method signature arguments) ->
  satisfies okE okL okR (fun _ => True)
    (try_call P opts func exit call_static method signature arguments).
Proof.
  intros Hcall. unfold try_call.
  eapply sat_bind; [apply sat_java_call; exact Hcall|].
  intros [[exception|] | result [exception|]] _.
  - apply sat_log_exception_detach_and_return.
  - apply sat_log_error_detach_and_return. apply usual.
  - apply sat_log_exception_detach_and_return.
  - apply sat_ret.
Qed.

Lemma sat_try_call_from {T}
    (call_static : W -> string -> string -> list jvalue -> T * W)
    (method signature : string) (arguments : list jvalue) :
  okE (RemoteCall method signature arguments) ->
  satisfies okE okL okR
    (fun result =>
       exists w, result = fst (call_static w method signature arguments))
    (try_call P opts func exit call_static method signature arguments).
Proof.
  intros Hcall. unfold try_call.
  eapply sat_bind; [apply sat_java_call_from; exact Hcall|].
  intros [[exception|] | result [exception|]] Hfrom.
  - apply sat_log_exception_detach_and_return.
  - apply sat_log_error_detach_and_return. apply usual.
  - apply sat_log_exception_detach_and_return.
  - intros s. split; [apply reach_here | exact Hfrom].
Qed.

Lemma sat_try_void_call (method signature : string)
    (arguments : list jvalue) :
  okE (RemoteCall method signature arguments) ->
  satisfies okE okL okR (fun _ => True)
    (try_void_call P opts func exit method signature arguments).
Proof. apply sat_try_call. Qed.

End SatisfiesMacros.

(** One step of a body at a time; the side conditions on events and
    results are left to the hints of the property at hand. *)
Ltac sat :=
  cbn beta iota zeta;
  first
    [ solve [eauto with sat]
    | eapply sat_bind;
      [ solve [eauto with sat]
      | intros ? ?; cbn beta in *;
        try match goal with
            | H : _ \/ _ |- _ => destruct H
            end;
        subst; sat ]
    | eapply sat_bind with (okA := fun _ => True);
      [ sat | intros ? _; sat ]
    | match goal with
      | |- satisfies _ _ _ _ (if ?c then _ else _) =>
          destruct c eqn:?; sat
      | |- satisfies _ _ _ _ (match ?x with _ => _ end) =>
          destruct x eqn:?; sat
      end ].

#[local] Hint Resolve sat_ret sat_returns sat_java_detach sat_java_encode
  sat_java_decode sat_java_decode_new sat_fill_children
  sat_log_error_and_return sat_detach_and_return
  sat_log_error_detach_and_return sat_log_exception_detach_and_return
  sat_try_attach sat_try_encode sat_try_call sat_try_void_call : sat.
#[local] Hint Extern 1 (call_in _ _ _) =>
  cbn [call_in In]; intuition congruence : sat.
#[local] Hint Extern 1 (code_in _ _ _) =>
  unfold code_in; cbn; tauto : sat.
#[local] Hint Extern 1 (standard _ _ _ _ _) =>
  unfold standard; repeat split; auto with sat : sat.
#[local] Hint Extern 9 => exact I : sat.

(** ** The remote vocabulary of each operation *)

Section Vocabulary.

Context {W jclass jthrowable : Type}.
Variable P : platform W jclass jthrowable.
Variable opts : option_list.
Variable abi : stat_layout.

Lemma sat_run {R} (okE : event -> Prop) (okL : string -> Prop)
    (okR : R -> Prop) (body : M W R R) (s : state W) :
  satisfies okE okL okR okR body ->
  reach okE okL s (snd (run body s)) /\ okR (fst (run body s)).
Proof.
  intros H. destruct (H s) as [Hreach Hvalue]. unfold run.
  destruct (body s) as [[r | r] s']; cbn [fst snd] in *; auto.
Qed.

Lemma calls_of_handle (r : request) (s : state W) :
  reach (call_in (allowed_calls r) (request_path r)) (fun _ => True)
    s (snd (handle P opts abi r s)).
Proof.
  destruct r; cbn [handle allowed_calls request_path];
    lazymatch goal with
    | |- reach ?okE ?okL s _ =>
        lazymatch goal with
        | |- context [run ?body s] =>
            let H := fresh "H" in
            assert (H : satisfies okE okL (fun _ => True) (fun _ => True)
                          body)
              by (unfold dfs_getattr, dfs_mknod, dfs_mkdir, dfs_delete,
                    dfs_truncate, dfs_open, dfs_read, dfs_write,
                    dfs_statfs, dfs_flush, dfs_release, dfs_fsync,
                    dfs_opendir, dfs_readdir, dfs_releasedir,
                    dfs_fsyncdir, dfs_access;
                  sat);
            apply (sat_run _ _ _ _ s) in H;
            destruct (run body s) as [result s']; cbn [fst snd] in *;
            apply H
        end
    end.
Qed.

(** X9. Every remote call an operation makes is a call to one of the
    methods listed for it, with the listed signature, and its first
    argument is the array of the bytes of the operation's own path, not
    re-encoded. In particular the operations that only look (getattr,
    open, read, opendir, readdir, access and those that do nothing) never
    call createFile, createDirectory, delete or write. *)
Theorem remote_call_vocabulary (r : request) (s : state W) :
  (forall e, In e (new_events s (snd (handle P opts abi r s))) ->
             call_in (allowed_calls r) (request_path r) e)
  /\ (read_only r = true ->
      forall method signature arguments,
        In (RemoteCall method signature arguments)
          (new_events s (snd (handle P opts abi r s))) ->
        ~ In method mutating_methods).
Proof.
  assert (Hall : forall e,
             In e (new_events s (snd (handle P opts abi r s))) ->
             call_in (allowed_calls r) (request_path r) e).
  { destruct (reach_grows _ _ _ _ (calls_of_handle r s))
      as (es & texts & Hev & Hes & _).
    rewrite (new_events_app _ _ _ Hev).
    apply Forall_forall. exact Hes. }
  split; [exact Hall|].
  intros Hlook method signature arguments Hin Hmutating.
  specialize (Hall _ Hin). cbn [call_in] in Hall.
  destruct arguments as [|[a | n | n] rest]; try contradiction.
  destruct Hall as [Htable _].
  unfold mutating_methods in Hmutating.
  destruct r; cbn [read_only] in Hlook; try discriminate;
    cbn [allowed_calls In] in Htable, Hmutating;
    intuition congruence.
Qed.

End Vocabulary.

(** ** The results of each operation *)

Lemma may_access_code_in (codes : list Z) (mode request : Z) :
  In SUCCESS codes -> In (- EACCES) codes ->
  code_in id codes (dfs_may_access mode request).
Proof.
  intros Hok Hdenied. unfold code_in, id, dfs_may_access.
  repeat match goal with
         | |- context [if ?c then _ else _] => destruct c
         end; assumption.
Qed.

#[local] Hint Extern 2 (code_in id _ (dfs_may_access _ _)) =>
  apply may_access_code_in; cbn; tauto : sat.
#[local] Hint Extern 1 (code_in _ _ _) =>
  unfold code_in; cbn [In fst id with_status with_fh];
  solve [repeat (first [left; reflexivity | right])] : sat.

Section Results.

Context {W jclass jthrowable : Type}.
Variable P : platform W jclass jthrowable.
Variable opts : option_list.
Variable abi : stat_layout.

Ltac unfold_operations :=
  unfold dfs_getattr, dfs_mknod, dfs_mkdir, dfs_delete, dfs_truncate,
    dfs_open, dfs_read, dfs_write, dfs_statfs, dfs_flush, dfs_release,
    dfs_fsync, dfs_opendir, dfs_readdir, dfs_releasedir, dfs_fsyncdir,
    dfs_access.

Lemma codes_of_handle (r : request) (s : state W) :
  match r with
  | Read _ _ _ _ _ => True
  | _ => In (fst (handle P opts abi r s)) (result_codes r)
  end.
Proof.
  destruct r; try exact I; cbn [handle result_codes];
    lazymatch goal with
    | |- In (fst (let (_, _) := run ?body s in _)) ?codes =>
        let H := fresh "H" in
        assert (H : satisfies (fun _ => True) (fun _ => True)
                      (code_in fst codes) (code_in fst codes) body)
          by (unfold_operations; sat);
        apply (sat_run _ _ _ _ s) in H;
        destruct (run body s) as [result s']; cbn [fst snd] in *;
        apply H
    | |- In (fst (run ?body s)) ?codes =>
        let H := fresh "H" in
        assert (H : satisfies (fun _ => True) (fun _ => True)
                      (code_in id codes) (code_in id codes) body)
          by (unfold_operations; sat);
        apply (sat_run _ _ _ _ s) in H; apply H
    end.
Qed.

(** X10. The results of the operations. Each operation other than read
    returns one of the values listed for it: 0, the negated errno of one of
    its own checks, or -EIO, -EINVAL or -ENOENT from a failed step or a
    remote exception; write may also return its byte count. So every
    operation other than read and write returns 0 or a negated errno and
    never a positive value. *)
Theorem operation_results (r : request) (s : state W) :
  match r with
  | Read _ _ _ _ _ => True
  | Write _ _ _ _ _ =>
      In (fst (handle P opts abi r s)) (result_codes r)
  | _ =>
      In (fst (handle P opts abi r s)) (result_codes r)
      /\ fst (handle P opts abi r s) <= 0
  end.
Proof.
  pose proof (codes_of_handle r s) as Hin.
  destruct r; try exact I; try exact Hin;
    (split; [exact Hin|]);
    cbn [result_codes In] in Hin;
    unfold SUCCESS, EPERM, ENOENT, EIO, EACCES, EEXIST, ENOTDIR, EISDIR,
      EINVAL, ENOTSUP, ECANCELED in Hin;
    lia.
Qed.

(** ** The log only grows *)

Lemma log_of_handle (r : request) (s : state W) :
  reach (fun _ => True) (fun _ => log_file opts <> None)
    s (snd (handle P opts abi r s)).
Proof.
  destruct r; cbn [handle];
    lazymatch goal with
    | |- reach ?okE ?okL s _ =>
        lazymatch goal with
        | |- context [run ?body s] =>
            let H := fresh "H" in
            assert (H : satisfies okE okL (fun _ => True) (fun _ => True)
                          body)
              by (unfold_operations; sat);
            apply (sat_run _ _ _ _ s) in H;
            destruct (run body s) as [result s']; cbn [fst snd] in *;
            apply H
        end
    end.
Qed.

(** X11. None of the operations that return an [int] truncates or
    rewrites the log: the log after the operation is the log before it
    followed by what the operation wrote, and when no log file is
    configured it wrote nothing. [dfs_init] is the one function that
    empties the log: when a log file is configured and it has initialised
    the mutex and opened the file (with mode w), what it leaves does not
    depend on the entries the log held before. *)
Theorem log_only_grows (r : request) (s : state W) :
  (exists texts,
     log (snd (handle P opts abi r s)) = (log s ++ texts)%list
     /\ (log_file opts = None -> texts = []))
  /\ (forall name w1 w2 entries,
        log_file opts = Some name ->
        pthread_mutex_init P (world s) = (true, w1) ->
        fopen P w1 name "w" = (true, w2) ->
        log_initialize P opts (R := unit) (with_log s entries)
        = (Continue true, with_log (set_world s w2) [])
        /\ run (dfs_init P opts) (with_log s entries)
           = run (dfs_init P opts) (with_log s [])).
Proof.
  split.
  - destruct (reach_grows _ _ _ _ (log_of_handle r s))
      as (es & texts & _ & _ & Hlog & Htexts).
    exists texts. split; [exact Hlog|].
    intros Hnone. destruct texts as [|text rest]; [reflexivity|].
    apply Forall_inv in Htexts. contradiction.
  - intros name w1 w2 entries Hfile Hinit Hopen.
    assert (Hstart : forall l,
      log_initialize P opts (R := unit) (with_log s l)
      = (Continue true, with_log (set_world s w2) [])).
    { intros l. unfold log_initialize. rewrite Hfile.
      cbn [world with_log]. rewrite Hinit. cbn [negb].
      rewrite Hopen. reflexivity. }
    split; [apply Hstart|].
    unfold dfs_init, run. cbn zeta.
    rewrite !(bind_continue _ _ _ _ _ (Hstart _)). reflexivity.
Qed.

(** ** Truncating a file that may not be written *)

(** X12. When the file mode lacks the owner write bit, truncate never asks
    the remote side to delete or create anything: the only remote call it
    can make is [directory], on its own path. *)
Theorem truncate_without_write_bit (path : string) (new_size : Z)
    (s : state W) (e : event) :
  Z.land (file_mode opts) S_IWUSR = 0 ->
  In e (new_events s (snd (handle P opts abi (Truncate path new_size) s))) ->
  call_in [("directory", "([B)Z")] path e.
Proof.
  intros Hmode.
  assert (Hdenied :
    (dfs_may_access (file_mode opts) W_OK =? SUCCESS) = false).
  { unfold dfs_may_access, c_true. rewrite Hmode. cbn.
    destruct (negb (negb (Z.land (file_mode opts) S_IRUSR =? 0)));
      reflexivity. }
  assert (H : satisfies (call_in [("directory", "([B)Z")] path)
                (fun _ => True) (fun _ => True) (fun _ => True)
                (dfs_truncate P opts path new_size)).
  { unfold dfs_truncate. rewrite Hdenied. cbn [negb]. sat. }
  apply (sat_run _ _ _ _ s) in H. destruct H as [Hreach _].
  destruct (reach_grows _ _ _ _ Hreach) as (es & texts & Hev & Hes & _).
  cbn [handle]. rewrite (new_events_app _ _ _ Hev).
  apply Forall_forall. exact Hes.
Qed.

End Results.

(** On the scripted machine with a log file, [dfs_init] leaves the same
    state whether the log held two entries or none. *)
Lemma log_only_grows_witness :
  run (dfs_init (Mock.machine Mock.sample) Mock.logging)
    (with_log Mock.start ["one"; "two"])
  = run (dfs_init (Mock.machine Mock.sample) Mock.logging)
      (with_log Mock.start []).
Proof.
  destruct (log_only_grows (Mock.machine Mock.sample) Mock.logging
              linux_x86_64 (Unlink "/a.txt") Mock.start) as [_ Hinit].
  apply (Hinit "/tmp/distfs.log" _ _ ["one"; "two"] eq_refl eq_refl eq_refl).
Defined.

(** With file mode 0444, truncating the file asks only what the path is. *)
Lemma truncate_without_write_bit_witness :
  Forall (call_in [("directory", "([B)Z")] "/a.txt")
    (new_events Mock.start
       (snd (handle (Mock.machine Mock.sample) read_only_files linux_x86_64
               (Truncate "/a.txt" 0) Mock.start))).
Proof.
  apply Forall_forall. intros e.
  apply truncate_without_write_bit. reflexivity.
Defined.

(** ** Opening files *)

Section OpenResult.

Context {W jclass jthrowable : Type}.
Variable P : platform W jclass jthrowable.
Variable opts : option_list.

Lemma open_failure (path : string) (flags fh code : Z) :
  In code [- EIO; - EINVAL; - ENOENT; - EACCES; - ENOTSUP] ->
  open_result opts path flags fh (code, fh).
Proof.
  intros Hin. left. cbn [fst snd In] in *.
  unfold EIO, EINVAL, ENOENT, EACCES, ENOTSUP, SUCCESS in *.
  repeat split; lia.
Qed.

#[local] Hint Extern 1 (open_result _ _ _ _ (with_fh _ _)) =>
  apply open_failure; cbn; tauto : sat.
#[local] Hint Extern 1 (open_result _ _ _ _ (_, _)) =>
  apply open_failure; cbn; tauto : sat.

(** X13. [dfs_open] succeeds only on a path other than the root, when
    directories may be traversed, the file mode has the owner read bit
    (whatever the flags), has the owner write bit if the flags contain
    O_WRONLY or O_RDWR, and the flags do not contain O_EXCL; it then sets
    the file handle to a size. Every other return is a negative value and
    leaves the file handle as the caller passed it. *)
Theorem open_success_conditions (path : string) (flags fh : Z)
    (s : state W) :
  open_result opts path flags fh (fst (run (dfs_open P opts path flags fh) s)).
Proof.
  assert (H : satisfies (fun _ => True) (fun _ => True)
                (open_result opts path flags fh)
                (open_result opts path flags fh)
                (dfs_open P opts path flags fh)).
  { unfold dfs_open.
    destruct (dfs_is_root path) eqn:Hroot; [sat|].
    destruct (dfs_traversals_allowed opts) eqn:Htraverse; cbn [negb];
      [|sat].
    eapply sat_bind; [solve [eauto with sat]|]. intros _ _.
    eapply sat_bind; [solve [eauto with sat]|]. intros java_path _.
    eapply sat_bind; [solve [eauto with sat]|]. intros size _.
    eapply sat_bind; [solve [eauto with sat]|]. intros _ _.
    destruct ((Z.land flags O_RDWR =? O_RDWR)
              && negb (dfs_may_access (file_mode opts) (Z.lor R_OK W_OK)
                       =? SUCCESS)) eqn:Hrdwr; [sat|].
    destruct ((Z.land flags O_RDONLY =? O_RDONLY)
              && negb (dfs_may_access (file_mode opts) R_OK =? SUCCESS))
      eqn:Hrdonly; [sat|].
    destruct ((Z.land flags O_WRONLY =? O_WRONLY)
              && negb (dfs_may_access (file_mode opts) W_OK =? SUCCESS))
      eqn:Hwronly; [sat|].
    destruct (Z.land flags O_EXCL =? 0) eqn:Hexcl; cbn [negb]; [|sat].
    apply sat_returns. right. cbn [fst snd].
    rewrite rdonly_test_always_true in Hrdonly. cbn [andb] in Hrdonly.
    apply negb_false_iff, Z.eqb_eq in Hrdonly.
    apply Z.eqb_eq in Hexcl.
    repeat split; auto.
    - intros Hflag. apply Z.eqb_eq in Hflag. rewrite Hflag in Hwronly.
      cbn [andb] in Hwronly.
      apply negb_false_iff, Z.eqb_eq in Hwronly. exact Hwronly.
    - intros Hflag. apply Z.eqb_eq in Hflag. rewrite Hflag in Hrdwr.
      cbn [andb] in Hrdwr.
      apply negb_false_iff, Z.eqb_eq in Hrdwr. exact Hrdwr.
    - exists size. reflexivity. }
  apply (sat_run _ _ _ _ s) in H. apply H.
Qed.

End OpenResult.

(** ** Reading *)

Section ReadResult.

Context {W jclass jthrowable : Type}.
Variable P : platform W jclass jthrowable.
Variable opts : option_list.

Lemma read_failure (buffer : memory) (length limit code : Z) :
  In code [- EIO; - EINVAL; - ENOENT] ->
  read_result buffer length limit (code, buffer).
Proof. intros Hin. left. split; [exact Hin | reflexivity]. Qed.

#[local] Hint Extern 1 (read_result _ _ _ (with_status _ _)) =>
  apply read_failure; cbn; tauto : sat.

Lemma saturated_bounds (length : Z) :
  0 <= length -> 0 <= saturated length <= INT_MAX /\ saturated length <= length.
Proof.
  intros H. unfold saturated.
  destruct (INT_MAX <? length) eqn:E;
    [apply Z.ltb_lt in E | apply Z.ltb_ge in E];
    unfold INT_MAX in *; lia.
Qed.

Lemma to_int_small (n : Z) : 0 <= n <= INT_MAX -> to_int n = n.
Proof.
  intros H. unfold to_int, INT_MAX in *. rewrite Z.mod_small; lia.
Qed.

(** The buffer after the copy and the [memset] of [dfs_read], byte by
    byte, when the array fits in the length asked for. *)
Lemma read_buffer_bytes (buffer elements : memory) (n length i : Z) :
  0 <= n <= length -> length < 2 ^ 64 ->
  memset (memcpy buffer 0 elements n) n x00 (to_size_t (length - n)) i
  = if in_range 0 n i then elements i
    else if in_range n (length - n) i then x00 else buffer i.
Proof.
  intros Hn Hlength. unfold memset, memcpy.
  replace (to_size_t (length - n)) with (length - n)
    by (unfold to_size_t; symmetry; apply Z.mod_small; lia).
  destruct (in_range 0 n i) eqn:Hin.
  - replace (in_range n (length - n) i) with false.
    + rewrite Z.sub_0_r. reflexivity.
    + symmetry. unfold in_range in *.
      apply andb_true_iff in Hin. destruct Hin as [_ Hin].
      apply Z.ltb_lt in Hin. apply andb_false_iff. left.
      apply Z.leb_gt. lia.
  - reflexivity.
Qed.


End ReadResult.


(** ** Listing directories *)

Lemma c_string_step (b : memory) (start : Z) (n : nat) :
  c_string b start (S n)
  = if Byte.eqb (b start) x00 then []
    else b start :: c_string b (start + 1) n.
Proof. cbn [c_string]. destruct (b start); reflexivity. Qed.

Lemma length_list_byte_of_string (s : string) :
  List.length (list_byte_of_string s) = String.length s.
Proof.
  induction s as [|c s IH]; [reflexivity|].
  cbn [String.length]. rewrite <- IH. reflexivity.
Qed.

Lemma c_string_reads (l : list byte) (b : memory) (start : Z) (fuel : nat) :
  ~ In x00 l ->
  (forall i, (i < List.length l)%nat -> b (start + Z.of_nat i) = nth i l x00) ->
  b (start + Z.of_nat (List.length l)) = x00 ->
  (List.length l < fuel)%nat ->
  c_string b start fuel = l.
Proof.
  revert start fuel. induction l as [|c l IH]; intros start fuel Hnul Hb Hend Hfuel.
  - destruct fuel as [|fuel]; [cbn in Hfuel; lia|].
    rewrite c_string_step. cbn [List.length] in Hend.
    rewrite Z.add_0_r in Hend. rewrite Hend. reflexivity.
  - destruct fuel as [|fuel]; [cbn in Hfuel; lia|].
    rewrite c_string_step.
    assert (Hhead : b start = c).
    { specialize (Hb 0%nat). cbn [List.length nth] in Hb.
      rewrite Z.add_0_r in Hb. apply Hb. lia. }
    rewrite Hhead.
    destruct (Byte.eqb c x00) eqn:Hc.
    + exfalso. apply Hnul. left. symmetry.
      apply Byte.byte_dec_bl. exact Hc.
    + f_equal. apply IH.
      * intros Hin. apply Hnul. right. exact Hin.
      * intros i Hi. specialize (Hb (S i)). cbn [List.length nth] in Hb.
        rewrite <- Hb by lia. f_equal. lia.
      * rewrite <- Hend. cbn [List.length]. f_equal. lia.
      * cbn [List.length] in Hfuel. lia.
Qed.

Section Listing.

Context {W : Type}.
Variable fill : W -> string -> Z * W.

Lemma fill_children_from (children : memory) (length : Z)
    (names : list string) (offset : Z) (rounds : nat) (w : W) :
  (forall name, In name names -> ~ In x00 (list_byte_of_string name)) ->
  0 <= offset ->
  length = offset + Z.of_nat (List.length (encode_names names)) ->
  (forall i, (i < List.length (encode_names names))%nat ->
             children (offset + Z.of_nat i)
             = nth i (encode_names names) x00) ->
  (List.length names <= rounds)%nat ->
  fill_children rounds fill children length offset w
  = fill_all fill names w.
Proof.
  revert offset rounds w.
  induction names as [|name rest IH];
    intros offset rounds w Hnul Hoffset Hlength Hchildren Hrounds.
  - cbn [encode_names map List.concat List.length] in Hlength.
    destruct rounds as [|rounds]; [reflexivity|].
    cbn [fill_children fill_all].
    replace (offset <? length) with false
      by (symmetry; apply Z.ltb_ge; lia).
    reflexivity.
  - destruct rounds as [|rounds]; [cbn in Hrounds; lia|].
    assert (Hencoding :
      encode_names (name :: rest)
      = (list_byte_of_string name ++ x00 :: encode_names rest)%list).
    { unfold encode_names. cbn [map List.concat].
      rewrite <- app_assoc. reflexivity. }
    rewrite Hencoding in Hlength, Hchildren.
    rewrite length_app in Hlength, Hchildren.
    cbn [List.length] in Hlength, Hchildren.
    cbn [fill_children fill_all].
    replace (offset <? length) with true
      by (symmetry; apply Z.ltb_lt; lia).
    assert (Hname :
      c_string children offset (Z.to_nat (length - offset))
      = list_byte_of_string name).
    { apply c_string_reads.
      - apply Hnul. left. reflexivity.
      - intros i Hi. rewrite Hchildren by lia.
        apply app_nth1. exact Hi.
      - rewrite Hchildren by lia.
        rewrite app_nth2 by lia. rewrite Nat.sub_diag. reflexivity.
      - lia. }
    rewrite Hname, string_of_list_byte_of_string.
    destruct (fill w name) as [full w'].
    destruct (full =? 1); [reflexivity|].
    apply IH.
    + intros other Hin. apply Hnul. right. exact Hin.
    + unfold strlen. lia.
    + unfold strlen. rewrite <- length_list_byte_of_string. lia.
    + intros i Hi. unfold strlen.
      rewrite <- length_list_byte_of_string.
      replace (offset + Z.of_nat (List.length (list_byte_of_string name))
               + 1 + Z.of_nat i)
        with (offset
              + Z.of_nat (List.length (list_byte_of_string name) + S i))
        by lia.
      rewrite Hchildren by lia.
      rewrite app_nth2 by lia.
      replace (List.length (list_byte_of_string name) + S i
               - List.length (list_byte_of_string name))%nat
        with (S i) by lia.
      reflexivity.
    + cbn [List.length] in Hrounds. lia.
Qed.

(** X15. The loop of [dfs_readdir]. When the buffer decoded from the
    remote listing holds names without NUL bytes, each followed by a NUL,
    the loop gives [fill] exactly those names, in order and each once, and
    stops after the first name for which [fill] reports a full buffer; an
    empty listing gives [fill] nothing. *)
Theorem readdir_fills_each_name (children : memory) (names : list string)
    (w : W) :
  (forall name, In name names -> ~ In x00 (list_byte_of_string name)) ->
  let listing := encode_names names in
  let length := Z.of_nat (List.length listing) in
  (forall i, 0 <= i < length -> children i = memory_of_bytes listing i) ->
  fill_children (Z.to_nat length) fill children length 0 w
  = fill_all fill names w.
Proof.
  intros Hnul listing length Hchildren.
  apply (fill_children_from children length names 0); auto; try lia.
  - intros i Hi. rewrite Hchildren by (subst length listing; lia).
    unfold memory_of_bytes.
    replace (0 + Z.of_nat i <? 0) with false
      by (symmetry; apply Z.ltb_ge; lia).
    rewrite Z.add_0_l, Nat2Z.id. reflexivity.
  - subst length listing. rewrite Nat2Z.id.
    clear. induction names as [|name rest IH]; [cbn; lia|].
    unfold encode_names in *. cbn [map List.concat List.length].
    rewrite !length_app. cbn [List.length]. lia.
Qed.

End Listing.

(** A listing of two names on the scripted machine's filler. *)
Lemma readdir_fills_each_name_witness :
  Mock.filled
    (fill_children (Z.to_nat 8) Mock.fill
       (memory_of_bytes (encode_names ["a.txt"; "b"])) 8 0
       (world Mock.start))
  = ["a.txt"; "b"].
Proof.
  assert (Hnul : forall name, In name ["a.txt"; "b"] ->
                              ~ In x00 (list_byte_of_string name)).
  { intros name [<- | [<- | []]]; cbn; intuition discriminate. }
  pose proof (readdir_fills_each_name Mock.fill
                (memory_of_bytes (encode_names ["a.txt"; "b"]))
                ["a.txt"; "b"] (world Mock.start) Hnul
                (fun i _ => eq_refl)) as H.
  cbv zeta in H.
  change (Z.of_nat (List.length (encode_names ["a.txt"; "b"]))) with 8 in H.
  rewrite H. reflexivity.
Defined.

(** ** What read and write send *)

#[local] Hint Extern 1 (only_call _ _) =>
  unfold only_call, read_call, write_call, saturated; cbn [is_remote_call];
  intros ?; first [discriminate | reflexivity] : sat.

Section DataCalls.

Context {W jclass jthrowable : Type}.
Variable P : platform W jclass jthrowable.
Variable opts : option_list.

(** X16. The one remote call a read can make is [read] with the array of
    its path, the caller's offset (the [off_t] the function receives), the
    length asked for cut down to 2^31-1, and the file handle; the one
    remote call a write can make is [write] with the array of its path,
    the caller's offset and an array holding the first bytes of the
    caller's buffer, as many as the length asked for cut down to
    2^31-1. *)
Theorem data_call_arguments (path : string) (buffer : memory)
    (length offset fh : Z) (s : state W) :
  Forall (only_call (read_call path length offset fh))
    (new_events s
       (snd (run (dfs_read P opts path buffer length offset fh) s)))
  /\ Forall (only_call (write_call path buffer length offset))
       (new_events s
          (snd (run (dfs_write P opts path buffer length offset fh) s))).
Proof.
  split.
  - assert (H : satisfies (only_call (read_call path length offset fh))
                  (fun _ => True) (fun _ => True) (fun _ => True)
                  (dfs_read P opts path buffer length offset fh))
      by (unfold dfs_read; sat).
    apply (sat_run _ _ _ _ s) in H. destruct H as [Hreach _].
    destruct (reach_grows _ _ _ _ Hreach) as (es & texts & Hev & Hes & _).
    rewrite (new_events_app _ _ _ Hev). exact Hes.
  - assert (H : satisfies (only_call (write_call path buffer length offset))
                  (fun _ => True) (fun _ => True) (fun _ => True)
                  (dfs_write P opts path buffer length offset fh))
      by (unfold dfs_write; sat).
    apply (sat_run _ _ _ _ s) in H. destruct H as [Hreach _].
    destruct (reach_grows _ _ _ _ Hreach) as (es & texts & Hev & Hes & _).
    rewrite (new_events_app _ _ _ Hev). exact Hes.
Qed.

End DataCalls.

(** ** Truncation, call by call *)

Section TruncateSteps.

Context {W jclass jthrowable : Type}.
Variable P : platform W jclass jthrowable.
Variable opts : option_list.
Variable abi : stat_layout.

Lemma java_attach_attached {R} (s s1 : state W) :
  java_attach P (R := R) s = (Continue true, s1) ->
  events s1 = (events s ++ [Attached])%list /\ log s1 = log s.
Proof.
  unfold java_attach.
  destruct (AttachCurrentThread P (world s)) as [[] w]; intros H;
    inversion H; subst; split; reflexivity.
Qed.

Lemma java_call_called {R T}
    (call_static : W -> string -> string -> list jvalue -> T * W)
    (method signature : string) (arguments : list jvalue) (result : T)
    (exception : option jthrowable) (s s1 : state W) :
  java_call P (R := R) call_static method signature arguments s
  = (Continue (Called result exception), s1) ->
  events s1 = (events s ++ [RemoteCall method signature arguments])%list
  /\ log s1 = log s.
Proof.
  unfold java_call, java_record_exception.
  destruct (GetEnv P (world s)); cbn [negb]; [|discriminate].
  destruct (FindClass P (world s) CLASS_NAME) as [cls|]; [|discriminate].
  destruct (GetStaticMethodID P (world s) cls method signature);
    cbn [negb]; [|discriminate].
  destruct (call_static (world s) method signature arguments).
  intros H. inversion H; subst. split; reflexivity.
Qed.

(** X17. Truncation is three remote calls, not one. On a writable file,
    once [directory] has answered false and [delete] true, [dfs_truncate]
    calls [createFile]: it returns 0 if the file was created and -ECANCELED
    if it was not, the file then being gone. The events of the call are, in
    order: the attach, [directory], [delete], [createFile], the detach; and
    nothing is written to the log. *)
Theorem truncate_deletes_then_creates (path : string) (created : bool)
    (java_path : jbyteArray) (s s1 s2 s3 s4 s5 : state W) :
  dfs_is_root path = false ->
  dfs_traversals_allowed opts = true ->
  dfs_may_access (file_mode opts) W_OK = SUCCESS ->
  java_attach P (R := Z) s = (Continue true, s1) ->
  java_encode_string P (R := Z) path s1 = (Continue (Some java_path), s2) ->
  java_call P (R := Z) (CallStaticBooleanMethodV P) "directory" "([B)Z"
    [ArgBytes java_path] s2
  = (Continue (Called false None), s3) ->
  java_call P (R := Z) (CallStaticBooleanMethodV P) "delete" "([B)Z"
    [ArgBytes java_path] s3
  = (Continue (Called true None), s4) ->
  java_call P (R := Z) (CallStaticBooleanMethodV P) "createFile" "([B)Z"
    [ArgBytes java_path] s4
  = (Continue (Called created None), s5) ->
  let result := handle P opts abi (Truncate path 0) s in
  fst result = (if created then SUCCESS else - ECANCELED)
  /\ new_events s (snd result)
     = [Attached;
        RemoteCall "directory" "([B)Z" [ArgBytes java_path];
        RemoteCall "delete" "([B)Z" [ArgBytes java_path];
        RemoteCall "createFile" "([B)Z" [ArgBytes java_path];
        Detached]
  /\ log (snd result) = log s.
Proof.
  intros Hroot Htraverse Hwrite Hattach Hencode Hdirectory Hdelete Hcreate
    result.
  assert (Hresult :
    result
    = (if created then SUCCESS else - ECANCELED,
       add_event (set_world s5 (DetachCurrentThread P (world s5)))
         Detached)).
  { subst result. cbn [handle]. unfold dfs_truncate, run.
    rewrite Hroot, Htraverse, Hwrite.
    change (SUCCESS =? SUCCESS) with true.
    change (0 =? 0) with true. cbn [negb].
    unfold bind, try_attach, try_encode, try_call, bind.
    rewrite Hattach. cbn [negb ret]. rewrite Hencode. cbn [ret].
    rewrite Hdirectory. cbn [ret]. rewrite Hdelete. cbn [ret negb].
    rewrite Hcreate. cbn [ret java_detach].
    destruct created; reflexivity. }
  rewrite Hresult. cbn [fst snd].
  destruct (java_attach_attached _ _ Hattach) as [Hev1 Hlog1].
  destruct (java_encode_step P (R := Z) (buffer_of_string path)
              (strlen path) s1) as (array & s2' & Hstep & Hlog2 & Hev2).
  unfold java_encode_string in Hencode. rewrite Hencode in Hstep.
  inversion Hstep; subst array s2'.
  destruct (java_call_called _ _ _ _ _ _ _ _ Hdirectory) as [Hev3 Hlog3].
  destruct (java_call_called _ _ _ _ _ _ _ _ Hdelete) as [Hev4 Hlog4].
  destruct (java_call_called _ _ _ _ _ _ _ _ Hcreate) as [Hev5 Hlog5].
  repeat split.
  - apply new_events_app. cbn [events add_event set_world].
    rewrite Hev5, Hev4, Hev3, Hev2, Hev1, <- !app_assoc. reflexivity.
  - cbn [log add_event set_world]. congruence.
Qed.

(** X18. Whatever [dfs_getattr] returns, success or failure, it has written
    to the status structure only within its first [sizeof(status)] bytes
    and within the three fields it assigns: every other byte still has the
    value the caller left there. *)
Theorem getattr_touches_only_its_fields (path : string) (status : memory)
    (s : state W) (i : Z) :
  in_range 0 (sizeof_pointer abi) i = false ->
  in_range (st_mode_offset abi) (st_mode_size abi) i = false ->
  in_range (st_nlink_offset abi) (st_nlink_size abi) i = false ->
  in_range (st_size_offset abi) (st_size_size abi) i = false ->
  snd (fst (run (dfs_getattr P opts abi path status) s)) i = status i.
Proof. apply getattr_leaves_other_bytes. Qed.

End TruncateSteps.

(** Scenario 4 of the specification: the file is deleted, its name is
    taken before it is created again, and truncate returns -ECANCELED. *)
Lemma truncate_deletes_then_creates_witness :
  let result :=
    handle (Mock.machine racing) options linux_x86_64 (Truncate "/a.txt" 0)
      Mock.start in
  fst result = - ECANCELED
  /\ map is_remote_call (new_events Mock.start (snd result))
     = [false; true; true; true; false].
Proof.
  destruct (truncate_deletes_then_creates (Mock.machine racing) options
              linux_x86_64 "/a.txt" false _ Mock.start _ _ _ _ _
              eq_refl eq_refl eq_refl eq_refl eq_refl eq_refl eq_refl
              eq_refl) as (Hcode & Hevents & _).
  split; [exact Hcode|]. rewrite Hevents. reflexivity.
Defined.

(** The inode number of the status structure, at offset 8 on Linux
    x86-64, after a getattr on a directory. *)
Lemma getattr_touches_only_its_fields_witness :
  snd (fst (run (dfs_getattr (Mock.machine Mock.sample) options linux_x86_64
                   "/d" Mock.dirty) Mock.start)) 8
  = Mock.dirty 8.
Proof. apply getattr_touches_only_its_fields; reflexivity. Defined.

(** ** Offsets and lengths of reads and writes *)

Section Transfers.

Context {W jclass jthrowable : Type}.
Variable P : platform W jclass jthrowable.
Variable opts : option_list.

Lemma to_off_t_range (n : Z) : off_t_range (to_off_t n).
Proof.
  unfold off_t_range, to_off_t.
  pose proof (Z.mod_pos_bound (n + 2 ^ 63) (2 ^ 64)). lia.
Qed.

Lemma to_off_t_same (n : Z) : off_t_range n -> to_off_t n = n.
Proof.
  unfold off_t_range, to_off_t. intros H.
  rewrite Z.mod_small; lia.
Qed.

Lemma to_off_t_high (n : Z) :
  LLONG_MAX < n < 2 ^ 64 -> to_off_t n = n - 2 ^ 64.
Proof.
  unfold LLONG_MAX, to_off_t. intros H.
  replace (n + 2 ^ 63) with (n - 2 ^ 63 + 1 * 2 ^ 64) by lia.
  rewrite Z.mod_add by lia. rewrite Z.mod_small; lia.
Qed.

(** The first test of [dfs_read] and of [dfs_write], [offset > LLONG_MAX],
    never succeeds. *)
Lemma offset_test_never_succeeds (offset : Z) :
  (LLONG_MAX <? to_off_t offset) = false.
Proof. apply offset_test_false_for_off_t, to_off_t_range. Qed.

Lemma try_attach_attached {R} (func : string) (exit : Z -> R)
    (s s1 : state W) :
  java_attach P (R := R) s = (Continue true, s1) ->
  try_attach P opts func exit s = (Continue tt, s1).
Proof.
  intros H. unfold try_attach. rewrite (bind_continue _ _ _ _ _ H).
  reflexivity.
Qed.

Lemma try_encode_encoded {R} (func : string) (exit : Z -> R)
    (name source : string) (array : jbyteArray) (s s1 : state W) :
  java_encode_string P (R := R) source s = (Continue (Some array), s1) ->
  try_encode P opts func exit name source s = (Continue array, s1).
Proof.
  intros H. unfold try_encode. rewrite (bind_continue _ _ _ _ _ H).
  reflexivity.
Qed.

Lemma try_call_called {R T} (func : string) (exit : Z -> R)
    (call_static : W -> string -> string -> list jvalue -> T * W)
    (method signature : string) (arguments : list jvalue) (result : T)
    (s s1 : state W) :
  java_call P (R := R) call_static method signature arguments s
  = (Continue (Called result None), s1) ->
  try_call P opts func exit call_static method signature arguments s
  = (Continue result, s1).
Proof.
  intros H. unfold try_call. rewrite (bind_continue _ _ _ _ _ H).
  reflexivity.
Qed.

Lemma java_encode_encoded {R} (source : memory) (length : Z)
    (array : jbyteArray) (s s1 : state W) :
  java_encode P (R := R) source length s = (Continue (Some array), s1) ->
  array = {| array_length := length;
             array_elements := memcpy (fun _ => x00) 0 source length |}
  /\ events s1 = events s /\ log s1 = log s.
Proof.
  unfold java_encode.
  destruct (GetEnv P (world s)); cbn [negb]; [|discriminate].
  destruct (NewByteArray P (world s) length) as [[] w1]; cbn [negb];
    [|discriminate].
  destruct (GetByteArrayElements P w1) as [[] w2]; cbn [negb];
    [|discriminate].
  intros H. inversion H; subst. repeat split.
Qed.

Lemma java_decode_decoded {R} (array : jbyteArray) (destination : memory)
    (n : Z) (filled : memory) (s s1 : state W) :
  java_decode P (R := R) array destination s
  = (Continue (Some (n, filled)), s1) ->
  n = array_length array
  /\ filled = memcpy destination 0 (array_elements array)
                (array_length array)
  /\ events s1 = events s /\ log s1 = log s.
Proof.
  unfold java_decode.
  destruct (GetEnv P (world s)); cbn [negb]; [|discriminate].
  destruct (GetByteArrayElements P (world s)) as [[] w1]; cbn [negb];
    [|discriminate].
  intros H. inversion H; subst. repeat split.
Qed.

(** A read in which every step succeeds: what it returns and the events
    it adds. *)
Lemma read_completed (path : string) (buffer : memory)
    (length offset fh : Z) (java_path received : jbyteArray) (n : Z)
    (filled : memory) (s s1 s2 s3 s4 : state W) :
  java_attach P (R := Z * memory) s = (Continue true, s1) ->
  java_encode_string P (R := Z * memory) path s1
  = (Continue (Some java_path), s2) ->
  java_call P (R := Z * memory) (CallStaticObjectMethodV P)
    "read" "([BJIJ)[B"
    [ArgBytes java_path; ArgLong (to_off_t offset);
     ArgInt (saturated length); ArgLong (to_jlong fh)] s2
  = (Continue (Called received None), s3) ->
  java_decode P (R := Z * memory) received buffer s3
  = (Continue (Some (n, filled)), s4) ->
  let r := run (dfs_read P opts path buffer length offset fh) s in
  fst r
  = (to_int (array_length received),
     memset (memcpy buffer 0 (array_elements received)
               (array_length received))
       (array_length received) x00
       (to_size_t (length - array_length received)))
  /\ new_events s (snd r)
     = [Attached;
        RemoteCall "read" "([BJIJ)[B"
          [ArgBytes java_path; ArgLong (to_off_t offset);
           ArgInt (saturated length); ArgLong (to_jlong fh)];
        Detached]
  /\ log (snd r) = log s.
Proof.
  intros Hattach Hencode Hcall Hdecode r.
  assert (Hr :
    r = ((to_int n, memset filled n x00 (to_size_t (length - n))),
         add_event (set_world s4 (DetachCurrentThread P (world s4)))
           Detached)).
  { subst r. unfold dfs_read, run. cbn zeta.
    rewrite offset_test_never_succeeds.
    rewrite (bind_continue _ _ _ _ _ (try_attach_attached _ _ _ _ Hattach)).
    rewrite (bind_continue _ _ _ _ _
               (try_encode_encoded _ _ _ _ _ _ _ Hencode)).
    rewrite (bind_continue _ _ _ _ _
               (try_call_called _ _ _ _ _ _ _ _ _ Hcall)).
    rewrite (bind_continue _ _ _ _ _ Hdecode).
    reflexivity. }
  rewrite Hr. cbn [fst snd].
  destruct (java_attach_attached _ _ _ Hattach) as [Hev1 Hlog1].
  destruct (java_encode_encoded _ _ _ _ _ Hencode) as (_ & Hev2 & Hlog2).
  destruct (java_call_called _ _ _ _ _ _ _ _ _ Hcall) as [Hev3 Hlog3].
  destruct (java_decode_decoded _ _ _ _ _ _ Hdecode)
    as (-> & -> & Hev4 & Hlog4).
  repeat split.
  - apply new_events_app. cbn [events add_event set_world].
    rewrite Hev4, Hev3, Hev2, Hev1, <- !app_assoc. reflexivity.
  - cbn [log add_event set_world]. congruence.
Qed.

(** A write in which every step succeeds. *)
Lemma write_completed (path : string) (buffer : memory)
    (length offset fh : Z) (java_path java_buffer : jbyteArray)
    (s s1 s2 s3 s4 : state W) :
  to_size_t (to_off_t offset + saturated length) <= LLONG_MAX ->
  java_attach P (R := Z) s = (Continue true, s1) ->
  java_encode_string P (R := Z) path s1 = (Continue (Some java_path), s2) ->
  java_encode P (R := Z) buffer (saturated length) s2
  = (Continue (Some java_buffer), s3) ->
  java_call P (R := Z) (call_static_void P) "write" "([BJ[B)V"
    [ArgBytes java_path; ArgLong (to_off_t offset); ArgBytes java_buffer] s3
  = (Continue (Called tt None), s4) ->
  let w := run (dfs_write P opts path buffer length offset fh) s in
  fst w = to_int (saturated length)
  /\ java_buffer
     = {| array_length := saturated length;
          array_elements :=
            memcpy (fun _ => x00) 0 buffer (saturated length) |}
  /\ new_events s (snd w)
     = [Attached;
        RemoteCall "write" "([BJ[B)V"
          [ArgBytes java_path; ArgLong (to_off_t offset);
           ArgBytes java_buffer];
        Detached]
  /\ log (snd w) = log s.
Proof.
  intros Hsum Hattach Hencode Hbuffer Hcall w.
  assert (Hw :
    w = (to_int (saturated length),
         add_event (set_world s4 (DetachCurrentThread P (world s4)))
           Detached)).
  { subst w. unfold dfs_write, run. cbn zeta.
    rewrite offset_test_never_succeeds.
    fold (saturated length).
    replace (LLONG_MAX <? to_size_t (to_off_t offset + saturated length))
      with false by (symmetry; apply Z.ltb_ge; exact Hsum).
    rewrite (bind_continue _ _ _ _ _ (try_attach_attached _ _ _ _ Hattach)).
    rewrite (bind_continue _ _ _ _ _
               (try_encode_encoded _ _ _ _ _ _ _ Hencode)).
    rewrite (bind_continue _ _ _ _ _ Hbuffer).
    unfold try_void_call.
    rewrite (bind_continue _ _ _ _ _
               (try_call_called _ _ _ _ _ _ _ _ _ Hcall)).
    reflexivity. }
  rewrite Hw. cbn [fst snd].
  destruct (java_attach_attached _ _ _ Hattach) as [Hev1 Hlog1].
  destruct (java_encode_encoded _ _ _ _ _ Hencode) as (_ & Hev2 & Hlog2).
  destruct (java_encode_encoded _ _ _ _ _ Hbuffer) as (-> & Hev3 & Hlog3).
  destruct (java_call_called _ _ _ _ _ _ _ _ _ Hcall) as [Hev4 Hlog4].
  repeat split.
  - apply new_events_app. cbn [events add_event set_world].
    rewrite Hev4, Hev3, Hev2, Hev1, <- !app_assoc. reflexivity.
  - cbn [log add_event set_world]. congruence.
Qed.


Lemma snd_run {R} (body : M W R R) (s : state W) :
  snd (run body s) = snd (body s).
Proof. unfold run. destruct (body s) as [[r | r] s']; reflexivity. Qed.

(** A body that begins with [try_attach] begins its trace with the
    attempt to attach. *)
Lemma attach_first {R B} (func : string) (exit : Z -> R)
    (k : unit -> M W R B) (s : state W) :
  (forall u, satisfies (fun _ => True) (fun _ => True) (fun _ => True)
               (fun _ => True) (k u)) ->
  starts_with_attach
    (new_events s (snd (bind (try_attach P opts func exit) k s))).
Proof.
  intros Hk. unfold bind at 1. unfold try_attach, bind at 1, java_attach.
  destruct (AttachCurrentThread P (world s)) as [[] w]; cbn [negb].
  - cbn [ret]. destruct (Hk tt (add_event (set_world s w) Attached))
      as [Hreach _].
    destruct (reach_grows _ _ _ _ Hreach) as (es & _ & Hev & _).
    cbn [events add_event set_world] in Hev.
    rewrite <- app_assoc in Hev.
    rewrite (new_events_app _ _ _ Hev).
    exists Attached, es. auto.
  - unfold log_error_and_return, bind.
    destruct (log_write_real_step P opts (R := R)
                (func ++ ": " ++ "EIO" ++ ": " ++ CANNOT_ATTACH ++ newline)
                (add_event (set_world s w) AttachFailed))
      as (s' & -> & Hev).
    cbn [returns snd]. cbn [events add_event set_world] in Hev.
    rewrite (new_events_app _ _ _ Hev).
    exists AttachFailed, []. auto.
Qed.


End Transfers.



(** ** Lengths above 2^31-1 *)

Section Saturation.

Context {W jclass jthrowable : Type}.
Variable P : platform W jclass jthrowable.
Variable opts : option_list.

Lemma saturated_large (length : Z) :
  INT_MAX < length -> saturated length = INT_MAX.
Proof. apply saturate_large. Qed.

Lemma java_call_result {R T}
    (call_static : W -> string -> string -> list jvalue -> T * W)
    (method signature : string) (arguments : list jvalue) (result : T)
    (exception : option jthrowable) (s s1 : state W) :
  java_call P (R := R) call_static method signature arguments s
  = (Continue (Called result exception), s1) ->
  result = fst (call_static (world s) method signature arguments).
Proof.
  unfold java_call, java_record_exception.
  destruct (GetEnv P (world s)); cbn [negb]; [|discriminate].
  destruct (FindClass P (world s) CLASS_NAME) as [cls|]; [|discriminate].
  destruct (GetStaticMethodID P (world s) cls method signature);
    cbn [negb]; [|discriminate].
  destruct (call_static (world s) method signature arguments).
  intros H. inversion H; subst. reflexivity.
Qed.

(** C7, as the code has it. For a read or a write asked for more than
    2^31-1 bytes the remote side is called as for 2^31-1 bytes. The write
    returns the value and leaves the state of the same write asked for
    2^31-1 bytes; when its steps succeed it has passed an array of the
    first 2^31-1 bytes of the buffer to the remote [write] and returns
    2^31-1. When the remote [read] returns arrays of at most 2^31-1 bytes,
    as every Java array is, the read returns the value and leaves the
    state of the same read asked for 2^31-1 bytes; when its steps succeed
    it has passed 2^31-1 as the length to the remote [read] and returns
    the number of bytes received. The caller's buffer is not treated as if
    the length were 2^31-1: after the bytes received the read clears it up
    to the length asked for, where the read asked for 2^31-1 bytes clears
    it up to 2^31-1. *)
Theorem length_saturation (path : string) (buffer : memory)
    (length offset fh : Z) (s : state W) :
  INT_MAX < length ->
  size_t_range length ->
  let w := run (dfs_write P opts path buffer length offset fh) s in
  let r := run (dfs_read P opts path buffer length offset fh) s in
  let r' := run (dfs_read P opts path buffer INT_MAX offset fh) s in
  w = run (dfs_write P opts path buffer INT_MAX offset fh) s
  /\ (forall java_path java_buffer s1 s2 s3 s4,
        to_size_t (to_off_t offset + INT_MAX) <= LLONG_MAX ->
        java_attach P (R := Z) s = (Continue true, s1) ->
        java_encode_string P (R := Z) path s1
        = (Continue (Some java_path), s2) ->
        java_encode P (R := Z) buffer INT_MAX s2
        = (Continue (Some java_buffer), s3) ->
        java_call P (R := Z) (call_static_void P) "write" "([BJ[B)V"
          [ArgBytes java_path; ArgLong (to_off_t offset);
           ArgBytes java_buffer] s3
        = (Continue (Called tt None), s4) ->
        fst w = INT_MAX
        /\ array_length java_buffer = INT_MAX
        /\ (forall i, 0 <= i < INT_MAX ->
                      array_elements java_buffer i = buffer i)
        /\ new_events s (snd w)
           = [Attached;
              RemoteCall "write" "([BJ[B)V"
                [ArgBytes java_path; ArgLong (to_off_t offset);
                 ArgBytes java_buffer];
              Detached])
  /\ (read_within P INT_MAX ->
      fst (fst r) = fst (fst r')
      /\ snd r = snd r'
      /\ forall java_path array n filled s1 s2 s3 s4,
           java_attach P (R := Z * memory) s = (Continue true, s1) ->
           java_encode_string P (R := Z * memory) path s1
           = (Continue (Some java_path), s2) ->
           java_call P (R := Z * memory) (CallStaticObjectMethodV P)
             "read" "([BJIJ)[B"
             [ArgBytes java_path; ArgLong (to_off_t offset); ArgInt INT_MAX;
              ArgLong (to_jlong fh)] s2
           = (Continue (Called array None), s3) ->
           java_decode P (R := Z * memory) array buffer s3
           = (Continue (Some (n, filled)), s4) ->
           new_events s (snd r)
           = [Attached;
              RemoteCall "read" "([BJIJ)[B"
                [ArgBytes java_path; ArgLong (to_off_t offset);
                 ArgInt INT_MAX; ArgLong (to_jlong fh)];
              Detached]
           /\ 0 <= array_length array <= INT_MAX
           /\ fst (fst r) = array_length array
           /\ (forall i,
                 snd (fst r) i
                 = if in_range 0 (array_length array) i
                   then array_elements array i
                   else if in_range (array_length array)
                             (length - array_length array) i
                        then x00
                        else buffer i)
           /\ (forall i,
                 snd (fst r') i
                 = if in_range 0 (array_length array) i
                   then array_elements array i
                   else if in_range (array_length array)
                             (INT_MAX - array_length array) i
                        then x00
                        else buffer i)).
Proof.
  intros Hlarge Hlength w r r'.
  pose proof (saturated_large length Hlarge) as Hsat.
  assert (Hwrite : w = run (dfs_write P opts path buffer INT_MAX offset fh) s).
  { subst w. unfold dfs_write.
    rewrite (saturate_large length Hlarge), saturate_max. reflexivity. }
  split; [exact Hwrite|].
  split.
  { intros java_path java_buffer s1 s2 s3 s4 Hsum Hattach Hencode Hbuffer
      Hcall.
    destruct (write_completed P opts path buffer INT_MAX offset fh java_path
                java_buffer s s1 s2 s3 s4 Hsum Hattach Hencode Hbuffer Hcall)
      as (Hcode & Harray & Hevents & _).
    rewrite <- Hwrite in Hcode, Hevents.
    change (saturated INT_MAX) with INT_MAX in *.
    split; [rewrite Hcode; reflexivity|].
    split; [rewrite Harray; reflexivity|].
    split; [|exact Hevents].
    intros i Hi. rewrite Harray. cbn [array_elements]. unfold memcpy.
    replace (in_range 0 INT_MAX i) with true.
    - rewrite Z.sub_0_r. reflexivity.
    - symmetry. unfold in_range. apply andb_true_iff.
      split; [apply Z.leb_le | apply Z.ltb_lt]; lia. }
  intros Hwithin.
  destruct (read_beyond_int_max P opts path buffer length offset fh s Hlarge)
    as (Hcode & Hstate & _).
  split; [exact Hcode|]. split; [exact Hstate|].
  intros java_path array n filled s1 s2 s3 s4 Hattach Hencode Hcall Hdecode.
  assert (Harray : 0 <= array_length array <= INT_MAX).
  { rewrite (java_call_result _ _ _ _ _ _ _ _ Hcall). apply Hwithin. }
  pose proof (read_completed P opts path buffer INT_MAX offset fh java_path
                array n filled s s1 s2 s3 s4 Hattach Hencode Hcall Hdecode)
    as (Hshort & _ & _).
  rewrite <- Hsat in Hcall.
  pose proof (read_completed P opts path buffer length offset fh java_path
                array n filled s s1 s2 s3 s4 Hattach Hencode Hcall Hdecode)
    as (Hlong & Hevents & _).
  rewrite Hsat in Hevents. fold r in Hlong, Hevents. fold r' in Hshort.
  split; [exact Hevents|].
  split; [exact Harray|].
  rewrite Hlong, Hshort. cbn [fst snd].
  split; [apply to_int_small; exact Harray|].
  split; intros i; apply read_buffer_bytes;
    unfold size_t_range, INT_MAX in *; lia.
Qed.

End Saturation.

(** On the scripted machine a write of 2^32 bytes passes an array of
    2^31-1 bytes to the remote side and returns 2^31-1, and a read of 2^32
    bytes asks the remote side for 2^31-1 bytes and returns the two it
    receives. *)
Lemma length_saturation_witness :
  let w :=
    run (dfs_write (Mock.machine Mock.sample) options "/a.txt" Mock.dirty
           (2 ^ 32) 0 0) Mock.start in
  let r :=
    run (dfs_read (Mock.machine Mock.sample) options "/a.txt" Mock.dirty
           (2 ^ 32) 0 0) Mock.start in
  fst w = INT_MAX
  /\ new_events Mock.start (snd w)
     = [Attached;
        RemoteCall "write" "([BJ[B)V"
          [ArgBytes (path_array "/a.txt"); ArgLong 0;
           ArgBytes {| array_length := INT_MAX;
                       array_elements :=
                         memcpy (fun _ => x00) 0 Mock.dirty INT_MAX |}];
        Detached]
  /\ fst (fst r) = 2
  /\ new_events Mock.start (snd r)
     = [Attached;
        RemoteCall "read" "([BJIJ)[B"
          [ArgBytes (path_array "/a.txt"); ArgLong 0; ArgInt INT_MAX;
           ArgLong 0];
        Detached].
Proof.
  assert (Hlarge : INT_MAX < 2 ^ 32) by (vm_compute; reflexivity).
  assert (Hlength : size_t_range (2 ^ 32)) by (unfold size_t_range; lia).
  assert (Hsum : to_size_t (to_off_t 0 + INT_MAX) <= LLONG_MAX)
    by (vm_compute; discriminate).
  assert (Hwithin : read_within (Mock.machine Mock.sample) INT_MAX)
    by (intros w arguments; vm_compute; split; discriminate).
  destruct (length_saturation (Mock.machine Mock.sample) options "/a.txt"
              Mock.dirty (2 ^ 32) 0 0 Mock.start Hlarge Hlength)
    as (_ & Hwrite & Hread).
  destruct (Hwrite (path_array "/a.txt") _ _ _ _ _ Hsum
              eq_refl eq_refl eq_refl eq_refl)
    as (Hcode & _ & _ & Hevents).
  destruct (Hread Hwithin) as (_ & _ & Hcompleted).
  destruct (Hcompleted (path_array "/a.txt") _ _ _ _ _ _ _
              eq_refl eq_refl eq_refl eq_refl)
    as (Hcalls & _ & Hcount & _).
  repeat split; assumption.
Defined.

(** C7 fails as stated for the caller's buffer. On the scripted machine,
    whose [read] returns two bytes, a read asked for 2^31 bytes clears the
    buffer up to its last byte, at offset 2^31-1; the same read asked for
    2^31-1 bytes leaves that byte as it was. *)
Lemma long_read_clears_up_to_its_length :
  let long :=
    fst (run (dfs_read (Mock.machine Mock.sample) options "/a.txt"
                Mock.dirty (2 ^ 31) 0 0) Mock.start) in
  let short :=
    fst (run (dfs_read (Mock.machine Mock.sample) options "/a.txt"
                Mock.dirty INT_MAX 0 0) Mock.start) in
  INT_MAX < 2 ^ 31
  /\ fst long = 2 /\ fst short = 2
  /\ snd long INT_MAX = x00
  /\ snd short INT_MAX = xff.
Proof. vm_compute. repeat split. Qed.
